(** * i960-emu: a shallow embedding of the execution core

    The C sources (i960-emu.h, i960-emu-bits.h, i960-emu-branch.h,
    i960-emu-compare.h, i960-emu-faults.h, i960-core.c, i960-mem-op.c and
    the CTRL / COBR front ends) are translated function by function.

    Conventions.
    - A [uint32_t] is a [Z] in [0, 2^32); every C operation that can leave
      that range is followed by the wrap-around [u32].  A cast to a signed
      type is [i32] / [i16] / [i8] / [i64] (two's complement).
    - [struct i960 *o] is threaded explicitly: a C function
      [void f (struct i960 *o, ...)] becomes [f : i960 -> ... -> i960].
    - [size_t c] register indices are [Z]; the register file is a list of
      32 words read with [get_r] and written with [set_r]. *)

From Stdlib Require Import ZArith Lia Bool List.
From stdpp Require Import base list gmap.
Import ListNotations.
Open Scope Z_scope.

(** ** Machine integers *)

Definition u8  (x : Z) : Z := x mod 2^8.
Definition u16 (x : Z) : Z := x mod 2^16.
Definition u32 (x : Z) : Z := x mod 2^32.
Definition u64 (x : Z) : Z := x mod 2^64.

(** Two's complement reading of the low [w] bits. *)
Definition sext (w : Z) (x : Z) : Z :=
  let u := x mod 2^w in if u <? 2^(w - 1) then u else u - 2^w.

Definition i8  (x : Z) : Z := sext 8 x.
Definition i16 (x : Z) : Z := sext 16 x.
Definition i32 (x : Z) : Z := sext 32 x.
Definition i64 (x : Z) : Z := sext 64 x.

Definition INT32_MIN : Z := - 2^31.
Definition INT32_MAX : Z := 2^31 - 1.

(** [~x] on a [uint32_t]. *)
Definition u32_not (x : Z) : Z := u32 (Z.lnot x).
(** [x << n] on a [uint32_t], for a shift count below 32. *)
Definition u32_shl (x n : Z) : Z := u32 (Z.shiftl x n).
(** [(int32_t) x >> n]: arithmetic shift, stored back in a [uint32_t]. *)
Definition i32_sar (x n : Z) : Z := u32 (Z.shiftr (i32 x) n).

Definition is_u32 (x : Z) : Prop := 0 <= x < 2^32.

(** A C [int] used as a condition. *)
Definition truthy (x : Z) : bool := negb (x =? 0).

(** ** i960-emu-bits.h *)

Definition u32_bit_select (x pos : Z) : Z :=
  Z.land (Z.shiftr x (Z.land pos 31)) 1.

Definition u32_bit_mask (pos : Z) : Z :=
  u32_shl 1 (Z.land pos 31).

Definition u32_extract (x pos count : Z) : Z :=
  Z.land (Z.shiftr x (Z.land pos 31)) (u32_not (u32_shl (u32_not 0) count)).

(** ** i960-emu.h *)

Definition I960_PFP : Z := 0.
Definition I960_SP  : Z := 1.
Definition I960_RIP : Z := 2.
Definition I960_LP  : Z := 30.
Definition I960_FP  : Z := 31.

Definition I960_CC_MASK : Z := 7.
Definition I960_OF_POS  : Z := 8.
Definition I960_OM_POS  : Z := 12.
Definition I960_BIF_POS : Z := 15.

Definition I960_TE_POS  : Z := 0.
Definition I960_EM_POS  : Z := 1.
Definition I960_TFP_POS : Z := 10.
Definition I960_S_POS   : Z := 13.
Definition I960_P_POS   : Z := 16.
Definition I960_P_MASK  : Z := 31.

(** [struct i960], together with what the core reaches through the
    pointer [o]: the emulated memory and the two host call-outs. *)
Record i960 := mk_i960 {
  r  : list Z;        (* uint32_t r[32] *)
  ip : Z;
  ac : Z;
  pc : Z;
  tc : Z;
  mem    : gmap Z Z;  (* byte store behind i960_read_* / i960_write_* *)
  faults : list Z;    (* fault types passed to i960_fault, oldest first *)
  calls  : list Z     (* vectors passed to i960_calls, oldest first *)
}.

(** [o->r[c]].  Every index the core uses comes from a 5-bit field (or is
    one of the constants above, or 16 + i in the window loops), so it is
    below 32.  Outside the file C leaves the access undefined; here a read
    gives 0 and a write is dropped. *)
Definition get_r (o : i960) (c : Z) : Z := nth (Z.to_nat c) (r o) 0.

Definition set_r (o : i960) (c v : Z) : i960 :=
  mk_i960 (<[Z.to_nat c := v]> (r o)) (ip o) (ac o) (pc o) (tc o)
          (mem o) (faults o) (calls o).

Definition set_ip (o : i960) (v : Z) : i960 :=
  mk_i960 (r o) v (ac o) (pc o) (tc o) (mem o) (faults o) (calls o).

Definition set_ac (o : i960) (v : Z) : i960 :=
  mk_i960 (r o) (ip o) v (pc o) (tc o) (mem o) (faults o) (calls o).

Definition set_pc (o : i960) (v : Z) : i960 :=
  mk_i960 (r o) (ip o) (ac o) v (tc o) (mem o) (faults o) (calls o).

Definition set_tc (o : i960) (v : Z) : i960 :=
  mk_i960 (r o) (ip o) (ac o) (pc o) v (mem o) (faults o) (calls o).

Definition set_mem (o : i960) (m : gmap Z Z) : i960 :=
  mk_i960 (r o) (ip o) (ac o) (pc o) (tc o) m (faults o) (calls o).

(** Modelled from the spec: [i960_fault] is only declared in i960-emu.h;
    the fault reporter "may be abortive or may post a pending fault".  The
    core is written for a reporter that returns (every caller continues
    after the call), so the reporter posts the fault type and returns. *)
Definition i960_fault (o : i960) (type : Z) : i960 :=
  mk_i960 (r o) (ip o) (ac o) (pc o) (tc o) (mem o)
          (faults o ++ [type]) (calls o).

(** Modelled from the spec: [i960_calls] is only declared in i960-emu.h;
    the supervisor call dispatch is the host's.  The model records the
    vector handed over; what the dispatch then does to the machine (where
    execution continues, which registers and memory it writes) is not
    modelled. *)
Definition i960_calls (o : i960) (type : Z) : i960 :=
  mk_i960 (r o) (ip o) (ac o) (pc o) (tc o) (mem o)
          (faults o) (calls o ++ [type]).

(** Modelled from the spec: the memory capability ([i960_read_b] ...
    [i960_write_w] are only declared in i960-emu.h).  A flat 32-bit
    byte-addressed space, little-endian; a byte never written reads 0;
    a write stores its value truncated to the access width. *)
Definition mem_byte (m : gmap Z Z) (addr : Z) : Z :=
  default 0 (m !! u32 addr).

Definition i960_read_b (o : i960) (addr : Z) : Z :=
  mem_byte (mem o) addr.

Definition i960_read_s (o : i960) (addr : Z) : Z :=
  Z.lor (mem_byte (mem o) addr) (Z.shiftl (mem_byte (mem o) (addr + 1)) 8).

Definition i960_read_w (o : i960) (addr : Z) : Z :=
  Z.lor (Z.lor (mem_byte (mem o) addr)
               (Z.shiftl (mem_byte (mem o) (addr + 1)) 8))
        (Z.lor (Z.shiftl (mem_byte (mem o) (addr + 2)) 16)
               (Z.shiftl (mem_byte (mem o) (addr + 3)) 24)).

Definition put_byte (m : gmap Z Z) (addr x : Z) : gmap Z Z :=
  <[u32 addr := u8 x]> m.

Definition i960_write_b (o : i960) (addr x : Z) : i960 :=
  set_mem o (put_byte (mem o) addr x).

Definition i960_write_s (o : i960) (addr x : Z) : i960 :=
  set_mem o (put_byte (put_byte (mem o) addr x) (addr + 1) (Z.shiftr x 8)).

Definition i960_write_w (o : i960) (addr x : Z) : i960 :=
  set_mem o
    (put_byte (put_byte (put_byte (put_byte (mem o) addr x)
                                  (addr + 1) (Z.shiftr x 8))
                        (addr + 2) (Z.shiftr x 16))
              (addr + 3) (Z.shiftr x 24)).

(** [i960_lock] and [i960_unlock] have empty bodies. *)
Definition i960_lock   (o : i960) : i960 := o.
Definition i960_unlock (o : i960) : i960 := o.

(** ** i960-emu-compare.h *)

Definition i960_set_cond (o : i960) (cc : Z) : i960 :=
  set_ac o (Z.lor (Z.land (ac o) (u32_not I960_CC_MASK)) cc).

Definition i960_cmp (o : i960) (a b : Z) (I : bool) : i960 :=
  let lt := if I then i32 a <? i32 b else a <? b in
  i960_set_cond o (if lt then 4 else if a =? b then 2 else 1).

Definition i960_concmp (o : i960) (a b : Z) (I : bool) : i960 :=
  let le := if I then i32 a <=? i32 b else a <=? b in
  if Z.land (ac o) 4 =? 0
  then i960_set_cond o (if le then 2 else 1)
  else o.

(** ** i960-emu-faults.h *)

Definition i960_on_undef (o : i960) : i960 :=
  i960_fault o 0x20001.

Definition i960_on_overflow (o : i960) : i960 :=
  if truthy (u32_bit_select (ac o) I960_OM_POS)
  then set_ac o (Z.lor (ac o) (u32_bit_mask I960_OF_POS))
  else i960_fault o 0x30001.

(** ** i960-emu-branch.h *)

(** The two loops run [i] from 0 to 15; [n] counts the iterations left. *)
Fixpoint i960_ldx_loop (n : nat) (i : Z) (o : i960) (efa c : Z) : i960 :=
  match n with
  | O => o
  | S n' =>
      i960_ldx_loop n' (i + 1)
        (set_r o (c + i) (i960_read_w o (u32 (efa + i)))) efa c
  end.

Definition i960_ldx (o : i960) (efa c : Z) : i960 :=
  i960_ldx_loop 16 0 o efa c.

Fixpoint i960_stx_loop (n : nat) (i : Z) (o : i960) (efa c : Z) : i960 :=
  match n with
  | O => o
  | S n' =>
      i960_stx_loop n' (i + 1)
        (i960_write_w o (u32 (efa + i)) (get_r o (c + i))) efa c
  end.

Definition i960_stx (o : i960) (efa c : Z) : i960 :=
  i960_stx_loop 16 0 o efa c.

Definition i960_b (o : i960) (efa : Z) : i960 :=
  set_ip o efa.

Definition i960_bal (o : i960) (efa link : Z) : i960 :=
  i960_b (set_r o link (ip o)) efa.

Definition i960_call (o : i960) (efa : Z) : i960 :=
  let fp := Z.land (u32 (get_r o I960_SP + 63)) (u32_not 63) in
  let o1 := set_r o I960_RIP (ip o) in
  let o2 := i960_stx o1 (get_r o1 I960_FP) 16 in
  let o3 := set_r o2 I960_PFP (get_r o2 I960_FP) in
  let o4 := set_r o3 I960_FP fp in
  let o5 := set_r o4 I960_SP (u32 (fp + 64)) in
  i960_b o5 efa.

Definition i960_ret (o : i960) : i960 :=
  let o1 := set_r o I960_FP (Z.land (get_r o I960_PFP) (u32_not 63)) in
  let o2 := i960_ldx o1 (get_r o1 I960_FP) 16 in
  i960_b o2 (get_r o2 I960_RIP).

Definition i960_check_cond (o : i960) (op : Z) : bool :=
  let cc := u32_extract op 24 3 in
  (negb (ac o =? 0) && negb (cc =? 0)) || (Z.land (ac o) I960_CC_MASK =? cc).

Definition i960_bcc (o : i960) (op efa : Z) : i960 :=
  if i960_check_cond o op then i960_b o efa else o.

Definition i960_faultcc (o : i960) (op efa : Z) : i960 :=
  if i960_check_cond o op then i960_fault o 0x50001 else o.

(** ** i960-core.c *)

Definition i960_read_lock (o : i960) (addr : Z) : i960 * Z :=
  let o1 := i960_lock o in (o1, i960_read_w o1 addr).

Definition i960_write_unlock (o : i960) (addr x : Z) : i960 :=
  i960_unlock (i960_write_w o addr x).

Definition u32_modify (old new mask : Z) : Z :=
  Z.lor (Z.land old (u32_not mask)) (Z.land new mask).

Definition i960_div_check (o : i960) (d : Z) : i960 * bool :=
  ((if d =? 0 then i960_fault o 0x30002 else o), negb (d =? 0)).

Definition i960_check_em (o : i960) : i960 * Z :=
  let em := u32_bit_select (pc o) I960_EM_POS in
  ((if em =? 0 then i960_fault o 0xa0001 else o), em).

(** *** MP adder helpers: the result word and the carry ([char]). *)

Definition u32_add (x y : Z) : Z * Z :=
  let r := u32 (x + y) in (r, Z.b2z (r <? x)).

Definition u32_adc (x y c : Z) : Z * Z :=
  let '(a, c1) := u32_add y c in
  let '(r, c2) := u32_add x a in
  (r, c1 + c2).

Definition u32_sub (x y : Z) : Z * Z :=
  let r := u32 (x - y) in (r, Z.b2z (r >? x)).

Definition u32_sbb (x y c : Z) : Z * Z :=
  let '(a, c1) := u32_add y c in
  let '(r, c2) := u32_sub x a in
  (r, c1 + c2).

Definition i960_fpu (o : i960) (op a b c : Z) : i960 :=
  i960_on_undef o.

Definition u32_setbit (x pos : Z) : Z := Z.lor x (u32_bit_mask pos).
Definition u32_clrbit (x pos : Z) : Z := Z.land x (u32_not (u32_bit_mask pos)).
Definition u32_notbit (x pos : Z) : Z := Z.lxor x (u32_bit_mask pos).

(** The arguments are [int32_t]: callers pass [i32] of their words. *)
Definition i32_check_overflow (a b r : Z) : bool :=
  Z.land (Z.lnot (Z.lxor a b)) (Z.lxor b r) <? 0.

(** *** Bit manipulation and bitwise operations (I960_DEF_REG) *)

Definition reg_notbit (o : i960) (op a b c : Z) : i960 :=
  set_r o c (u32_notbit b a).
Definition reg_setbit (o : i960) (op a b c : Z) : i960 :=
  set_r o c (u32_setbit b a).
Definition reg_clrbit (o : i960) (op a b c : Z) : i960 :=
  set_r o c (u32_clrbit b a).
Definition reg_alterbit (o : i960) (op a b c : Z) : i960 :=
  set_r o c (if truthy (Z.land (ac o) 2) then u32_setbit b a
             else u32_clrbit b a).

Definition reg_and (o : i960) (op a b c : Z) : i960 :=
  set_r o c (Z.land a b).
Definition reg_andnot (o : i960) (op a b c : Z) : i960 :=
  set_r o c (Z.land (u32_not a) b).
Definition reg_notand (o : i960) (op a b c : Z) : i960 :=
  set_r o c (Z.land a (u32_not b)).
Definition reg_xor (o : i960) (op a b c : Z) : i960 :=
  set_r o c (Z.lxor a b).
Definition reg_or (o : i960) (op a b c : Z) : i960 :=
  set_r o c (Z.lor a b).
Definition reg_nor (o : i960) (op a b c : Z) : i960 :=
  set_r o c (u32_not (Z.lor a b)).
Definition reg_xnor (o : i960) (op a b c : Z) : i960 :=
  set_r o c (u32_not (Z.lxor a b)).
Definition reg_not (o : i960) (op a b c : Z) : i960 :=
  set_r o c (u32_not a).
Definition reg_ornot (o : i960) (op a b c : Z) : i960 :=
  set_r o c (Z.lor (u32_not a) b).
Definition reg_notor (o : i960) (op a b c : Z) : i960 :=
  set_r o c (Z.lor a (u32_not b)).
Definition reg_nand (o : i960) (op a b c : Z) : i960 :=
  set_r o c (u32_not (Z.land a b)).

Definition reg_log (o : i960) (op a b c : Z) : i960 :=
  match u32_extract op 7 4 with
  | 0  => reg_notbit   o op a b c
  | 1  => reg_and      o op a b c
  | 2  => reg_andnot   o op a b c
  | 3  => reg_setbit   o op a b c
  | 4  => reg_notand   o op a b c
  | 5  => reg_notand   o op a b c
  | 6  => reg_xor      o op a b c
  | 7  => reg_or       o op a b c
  | 8  => reg_nor      o op a b c
  | 9  => reg_xnor     o op a b c
  | 10 => reg_not      o op a b c
  | 11 => reg_ornot    o op a b c
  | 12 => reg_clrbit   o op a b c
  | 13 => reg_notor    o op a b c
  | 14 => reg_nand     o op a b c
  | 15 => reg_alterbit o op a b c
  | _  => o
  end.

(** *** Adder operations *)

Definition reg_add (o : i960) (op a b c : Z) : i960 :=
  let F0 := u32_bit_select op (7 + 0) in
  let F1 := u32_bit_select op (7 + 1) in
  let o1 := set_r o c (if truthy F1 then u32 (b - a) else u32 (b + a)) in
  if truthy F0 && i32_check_overflow (i32 a) (i32 b) (i32 (get_r o1 c))
  then i960_on_overflow o1
  else o1.

Definition reg_addc (o : i960) (op a b c : Z) : i960 :=
  let F1 := u32_bit_select op (7 + 1) in
  let cin := Z.b2z (truthy (Z.land (ac o) 2)) in
  let '(res, co) := if truthy F1 then u32_sbb a b cin else u32_adc a b cin in
  let o1 := set_r o c res in
  i960_set_cond o1
    (Z.lor (Z.shiftl co 1)
           (Z.b2z (i32_check_overflow (i32 a) (i32 b) (i32 res)))).

(** *** Extended compare operations *)

Definition reg_cmpe (o : i960) (op a b c : Z) : i960 :=
  let F0 := u32_bit_select op (7 + 0) in
  let F1 := u32_bit_select op (7 + 1) in
  let narrow x :=
    u32 (if truthy F1 then (if truthy F0 then i16 x else u16 x)
         else (if truthy F0 then i8 x else u8 x)) in
  i960_cmp o (narrow a) (narrow b) (truthy F0).

Definition reg_addx (o : i960) (op a b c : Z) : i960 :=
  let F2 := u32_bit_select op (7 + 2) in
  if truthy F2 then reg_cmpe o op a b c else reg_add o op a b c.

(** *** Shift operations *)

Definition reg_eshro (o : i960) (op a b c : Z) : i960 :=
  let bh := get_r o (Z.lor (u32_extract op 14 5) 1) in
  let bl := Z.lor (Z.shiftl bh 32) b in
  set_r o c (u32 (Z.shiftr bl (Z.land a 31))).

Definition reg_shro (o : i960) (op a b c : Z) : i960 :=
  set_r o c (if a <? 32 then Z.shiftr b a else 0).

Definition reg_shrdi (o : i960) (op a b c : Z) : i960 :=
  let n := if a <? 32 then a else 31 in
  let o1 := set_r o c (i32_sar b n) in
  if b <? u32_shl (get_r o1 c) n
  then set_r o1 c (u32 (get_r o1 c + 1))
  else o1.

Definition reg_shri (o : i960) (op a b c : Z) : i960 :=
  set_r o c (i32_sar b (if a <? 32 then a else 31)).

Definition reg_shlo (o : i960) (op a b c : Z) : i960 :=
  set_r o c (if a <? 32 then u32_shl b a else 0).

Definition reg_rotate (o : i960) (op a b c : Z) : i960 :=
  set_r o c (Z.lor (u32_shl b (Z.land a 31))
                   (Z.shiftr b (Z.land (u32 (- a)) 31))).

(** [x] is an [int64_t], [res] a [uint64_t]; the left shift of a negative
    [x] is taken in two's complement. *)
Definition reg_shli (o : i960) (op a b c : Z) : i960 :=
  let x := i32 b in
  let res := u64 (Z.shiftl x (if a <? 32 then a else 32)) in
  let o1 := set_r o c (u32 res) in
  if truthy (Z.shiftr (Z.lxor res (u64 x)) 31)
  then i960_on_overflow o1
  else o1.

Definition reg_shift (o : i960) (op a b c : Z) : i960 :=
  match u32_extract op 7 3 with
  | 0 => reg_shro   o op a b c
  | 1 => reg_shro   o op a b c
  | 2 => reg_shrdi  o op a b c
  | 3 => reg_shri   o op a b c
  | 4 => reg_shlo   o op a b c
  | 5 => reg_rotate o op a b c
  | 6 => reg_shli   o op a b c
  | 7 => reg_rotate o op a b c
  | _ => o
  end.

Definition reg_59 (o : i960) (op a b c : Z) : i960 :=
  let F3 := u32_bit_select op (7 + 3) in
  if truthy F3 then reg_shift o op a b c else reg_addx o op a b c.

(** *** Compare operations *)

Definition reg_cmp (o : i960) (op a b c : Z) : i960 :=
  let F0 := u32_bit_select op (7 + 0) in
  let F1 := u32_bit_select op (7 + 1) in
  let F2 := u32_bit_select op (7 + 2) in
  let o1 := if truthy F1 && negb (truthy F2)
            then i960_concmp o a b (truthy F0)
            else i960_cmp o a b (truthy F0) in
  if truthy F2 then reg_add o1 (Z.land op (u32_not 1)) 1 b c else o1.

(** *** Misc operations *)

Definition reg_scanbyte (o : i960) (op a b c : Z) : i960 :=
  let c0 := Z.lxor a b in
  let c1 := Z.land (Z.shiftr c0 16) c0 in
  let c2 := Z.land (Z.shiftr c1 8) c1 in
  let cond := Z.land c2 0xff =? 0 in
  i960_set_cond o (if cond then 2 else 0).

(** [bswap_32] of <byteswap.h>. *)
Definition bswap_32 (x : Z) : Z :=
  Z.lor (Z.lor (Z.shiftl (Z.land x 0xff) 24)
               (Z.shiftl (Z.land (Z.shiftr x 8) 0xff) 16))
        (Z.lor (Z.shiftl (Z.land (Z.shiftr x 16) 0xff) 8)
               (Z.land (Z.shiftr x 24) 0xff)).

Definition reg_bswap (o : i960) (op a b c : Z) : i960 :=
  set_r o c (bswap_32 a).

Definition reg_chkbit (o : i960) (op a b c : Z) : i960 :=
  i960_set_cond o (if truthy (u32_bit_select b a) then 2 else 0).

Definition reg_misc (o : i960) (op a b c : Z) : i960 :=
  let F0 := u32_bit_select op (7 + 0) in
  let F1 := u32_bit_select op (7 + 1) in
  if truthy F1 then reg_chkbit o op a b c
  else if truthy F0 then reg_bswap o op a b c
  else reg_scanbyte o op a b c.

Definition reg_5A (o : i960) (op a b c : Z) : i960 :=
  let F3 := u32_bit_select op (7 + 3) in
  if truthy F3 then reg_misc o op a b c else reg_cmp o op a b c.

(** *** Interrupt operations *)

Definition I960_ICON     : Z := 0xff008510.
Definition I960_ICON_GIE : Z := 10.

Definition reg_intdis (o : i960) (op a b c : Z) : i960 :=
  let icon := i960_read_w o I960_ICON in
  let '(o1, em) := i960_check_em o in
  if truthy em
  then i960_write_w o1 I960_ICON (u32_setbit icon I960_ICON_GIE)
  else o1.

Definition reg_inten (o : i960) (op a b c : Z) : i960 :=
  let icon := i960_read_w o I960_ICON in
  let '(o1, em) := i960_check_em o in
  if truthy em
  then i960_write_w o1 I960_ICON (u32_clrbit icon I960_ICON_GIE)
  else o1.

Definition reg_5B (o : i960) (op a b c : Z) : i960 :=
  let F0 := u32_bit_select op (7 + 0) in
  let F2 := u32_bit_select op (7 + 2) in
  if negb (truthy F2) then reg_addc o op a b c
  else if truthy F0 then reg_inten o op a b c
  else reg_intdis o op a b c.

(** *** Move operations *)

(** The [switch] of [reg_move] has no [break]: case [k] falls through to
    the cases below it.  [reg_move_from k] is the code from label [k] on. *)
Definition reg_move_from (k : Z) (o : i960) (a c src : Z) : i960 :=
  let o3 := if 3 <=? k
            then set_r o  (Z.lor c 3) (get_r o  (Z.lor src 3)) else o in
  let o2 := if 2 <=? k
            then set_r o3 (Z.lor c 2) (get_r o3 (Z.lor src 2)) else o3 in
  let o1 := if 1 <=? k
            then set_r o2 (Z.lor c 1) (get_r o2 (Z.lor src 1)) else o2 in
  set_r o1 (Z.lor c 0) a.

Definition reg_move (o : i960) (op a b c : Z) : i960 :=
  let i := u32_extract op (24 + 0) 2 in
  let src := u32_extract op 0 5 in
  match i with
  | 3 => reg_move_from 3 o a c src
  | 2 => reg_move_from 2 o a c src
  | 1 => reg_move_from 1 o a c src
  | 0 => reg_move_from 0 o a c src
  | _ => o
  end.

Definition reg_5C (o : i960) (op a b c : Z) : i960 :=
  let F2 := u32_bit_select op (7 + 2) in
  if truthy F2 then reg_move o op a b c else reg_eshro o op a b c.

Definition reg_core (o : i960) (op a b c : Z) : i960 :=
  match u32_extract op (24 + 0) 3 with
  | 0 => reg_log o op a b c
  | 1 => reg_59  o op a b c
  | 2 => reg_5A  o op a b c
  | 3 => reg_5B  o op a b c
  | 4 => reg_5C  o op a b c
  | 5 => reg_5C  o op a b c
  | 6 => reg_5C  o op a b c
  | 7 => reg_5C  o op a b c
  | _ => o
  end.

(** *** Supplement block: synmov, atomic, bit field, system, emul/ediv *)

Definition reg_synmov (o : i960) (op a b c : Z) : i960 :=
  i960_on_undef o.

Definition reg_atomic (o : i960) (op a b c : Z) : i960 :=
  let F1 := u32_bit_select op (7 + 1) in
  let src := Z.land a (u32_not 3) in
  let '(o1, old) := i960_read_lock o src in
  let new := if truthy F1 then u32 (old + b)
             else u32_modify old (get_r o1 c) b in
  let o2 := i960_write_unlock o1 src new in
  set_r o2 c old.

(** [31 - __builtin_clz (a)] for [a <> 0] is the index of the highest set
    bit, [Z.log2 a]. *)
Definition reg_scanbit (o : i960) (op a b c : Z) : i960 :=
  let o1 := set_r o c (if a =? 0 then u32_not 0 else Z.log2 a) in
  i960_set_cond o1 (if a =? 0 then 0 else 2).

Definition reg_modac (o : i960) (op a b c : Z) : i960 :=
  let ac0 := ac o in
  let o1 := set_ac o (u32_modify ac0 b a) in
  set_r o1 c ac0.

Definition reg_64 (o : i960) (op a b c : Z) : i960 :=
  let F0 := u32_bit_select op (7 + 0) in
  let F2 := u32_bit_select op (7 + 2) in
  if truthy F2 then reg_modac o op a b c
  else reg_scanbit o op (if truthy F0 then a else u32_not a) b c.

Definition reg_modify (o : i960) (op a b c : Z) : i960 :=
  set_r o c (u32_modify (get_r o c) b a).

Definition reg_extract (o : i960) (op a b c : Z) : i960 :=
  set_r o c (if b >? 31 then get_r o c else u32_extract (get_r o c) a b).

Definition reg_modtc (o : i960) (op a b c : Z) : i960 :=
  let tc0 := tc o in
  let o1 := set_tc o (u32_modify tc0 b (Z.land a 0x00ff00ff)) in
  set_r o1 c tc0.

(** [m != 0 && !i960_check_em (o)] calls [i960_check_em] only for a
    non-zero mask; [finish] is the code after the early [return]. *)
Definition reg_modpc (o : i960) (op a b c : Z) : i960 :=
  let pc0 := pc o in
  let m := b in
  let finish (o1 : i960) :=
    let o2 := set_pc o1 (u32_modify pc0 (get_r o1 c) m) in
    set_r o2 c pc0 in
  if negb (m =? 0) then
    let '(o1, em) := i960_check_em o in
    if negb (truthy em) then o1 else finish o1
  else finish o.

Definition reg_65 (o : i960) (op a b c : Z) : i960 :=
  let F0 := u32_bit_select op (7 + 0) in
  let F2 := u32_bit_select op (7 + 2) in
  if truthy F2 then
    if truthy F0 then reg_modpc o op a b c else reg_modtc o op a b c
  else
    if truthy F0 then reg_extract o op a b c else reg_modify o op a b c.

Definition reg_66 (o : i960) (op a b c : Z) : i960 :=
  let F3 := u32_bit_select op (7 + 3) in
  if negb (truthy F3) then i960_calls o a else o.

Definition reg_emul (o : i960) (op a b c : Z) : i960 :=
  let res := u64 (a * b) in
  let o1 := set_r o (Z.lor c 0) (u32 res) in
  set_r o1 (Z.lor c 1) (u32 (Z.shiftr res 32)).

Definition reg_ediv (o : i960) (op a b c : Z) : i960 :=
  let bh := get_r o (Z.lor (u32_extract op 14 5) 1) in
  let bl := Z.lor (Z.shiftl bh 32) b in
  let '(o1, ok) := i960_div_check o a in
  let o2 := set_r o1 (Z.lor c 0) (if ok then u32 (bl mod a) else b) in
  set_r o2 (Z.lor c 1) (if ok then u32 (bl / a) else 0).

Definition reg_67 (o : i960) (op a b c : Z) : i960 :=
  let F0 := u32_bit_select op (7 + 0) in
  let F2 := u32_bit_select op (7 + 2) in
  if truthy F2 then i960_fpu o op a b c
  else if truthy F0 then reg_ediv o op a b c
  else reg_emul o op a b c.

Definition reg_supp (o : i960) (op a b c : Z) : i960 :=
  match u32_extract op (24 + 0) 3 with
  | 0 => reg_synmov o op a b c
  | 1 => reg_atomic o op a b c
  | 2 => reg_synmov o op a b c
  | 3 => reg_atomic o op a b c
  | 4 => reg_64     o op a b c
  | 5 => reg_65     o op a b c
  | 6 => reg_66     o op a b c
  | 7 => reg_67     o op a b c
  | _ => o
  end.

Definition reg_fpu (o : i960) (op a b c : Z) : i960 :=
  i960_fpu o op a b c.

(** *** Multiply and divide operations *)

Definition reg_mulo (o : i960) (op a b c : Z) : i960 :=
  set_r o c (u32 (a * b)).

Definition reg_divo (o : i960) (op a b c : Z) : i960 :=
  let F1 := u32_bit_select op (7 + 1) in
  let '(o1, ok) := i960_div_check o a in
  if ok then set_r o1 c (if truthy F1 then b / a else b mod a) else o1.

Definition reg_70 (o : i960) (op a b c : Z) : i960 :=
  let F3 := u32_bit_select op (7 + 3) in
  if truthy F3 then reg_divo o op a b c else reg_mulo o op a b c.

(** [(int64_t) a] of a [uint32_t] is [a] itself (zero extension); the
    64-bit signed product is taken in two's complement. *)
Definition reg_muli (o : i960) (op a b c : Z) : i960 :=
  let res := i64 (a * b) in
  let o1 := set_r o c (u32 res) in
  if (res <? INT32_MIN) || (res >? INT32_MAX)
  then i960_on_overflow o1
  else o1.

(** C's [%] and [/] on [int32_t] truncate toward zero: [Z.rem], [Z.quot].
    For INT32_MIN with divisor -1 the two C expressions are undefined (the
    quotient does not fit an [int32_t]) and the program has no result;
    [Z.quot] and [Z.rem] give 2^31 and 0 there.  What is stated below of
    the results of [reg_remi] and [reg_divi] leaves that input out. *)
Definition reg_remi (o : i960) (op a b c : Z) : i960 :=
  let F0 := u32_bit_select op (7 + 0) in
  let '(o1, ok) := i960_div_check o a in
  if negb ok then o1
  else
    let o2 := set_r o1 c (u32 (Z.rem (i32 b) (i32 a))) in
    if truthy F0 && negb (get_r o2 c =? 0) && (i32 (Z.lxor a b) <? 0)
    then set_r o2 c (u32 (get_r o2 c + a))
    else o2.

Definition reg_divi (o : i960) (op a b c : Z) : i960 :=
  let '(o1, ok) := i960_div_check o a in
  if negb ok then o1
  else
    let o2 := set_r o1 c (u32 (Z.quot (i32 b) (i32 a))) in
    if i32 (Z.lxor (Z.lxor a b) (get_r o2 c)) <? 0
    then i960_on_overflow o2
    else o2.

Definition reg_74 (o : i960) (op a b c : Z) : i960 :=
  let F1 := u32_bit_select op (7 + 1) in
  let F3 := u32_bit_select op (7 + 3) in
  if negb (truthy F3) then reg_muli o op a b c
  else if truthy F1 then reg_divi o op a b c
  else reg_remi o op a b c.

Definition reg_muldiv (o : i960) (op a b c : Z) : i960 :=
  let C2 := u32_bit_select op (24 + 2) in
  if truthy C2 then reg_74 o op a b c else reg_70 o op a b c.

(** *** Conditional operations *)

Definition reg_addcc (o : i960) (op a b c : Z) : i960 :=
  if i960_check_cond o op then reg_add o op a b c else o.

Definition reg_selcc (o : i960) (op a b c : Z) : i960 :=
  set_r o c (if i960_check_cond o op then b else a).

Definition reg_cond (o : i960) (op a b c : Z) : i960 :=
  let F2 := u32_bit_select op (7 + 2) in
  let F3 := u32_bit_select op (7 + 3) in
  if truthy F3 then i960_fpu o op a b c
  else if truthy F2 then reg_selcc o op a b c
  else reg_addcc o op a b c.

(** ** i960-mem-op.c *)

Definition mem_funcs (o : i960) (op efa c : Z) : i960 :=
  let C3 := u32_bit_select op (24 + 3) in
  let i := u32_extract op (24 + 0) 2 in
  if truthy C3 then set_r o c efa
  else
    match i with
    | 0 => i960_b o efa
    | 1 => i960_bal o efa c
    | 2 => i960_call o efa
    | 3 => i960_call o efa
    | _ => o
    end.

Definition mem_ldb (o : i960) (op efa c : Z) : i960 :=
  let C6 := u32_bit_select op (24 + 6) in
  let x := i960_read_b o efa in
  set_r o c (if truthy C6 then u32 (i8 x) else x).

Definition mem_lds (o : i960) (op efa c : Z) : i960 :=
  let C6 := u32_bit_select op (24 + 6) in
  let x := i960_read_s o efa in
  set_r o c (if truthy C6 then u32 (i16 x) else x).

Definition mem_ld (o : i960) (op efa c : Z) : i960 :=
  set_r o c (i960_read_w o efa).

Definition mem_ldl (o : i960) (op efa c : Z) : i960 :=
  let o0 := set_r o  (Z.lor c 0) (i960_read_w o  (u32 (efa + 0))) in
  set_r o0 (Z.lor c 1) (i960_read_w o0 (u32 (efa + 4))).

Definition mem_ldt (o : i960) (op efa c : Z) : i960 :=
  let o0 := set_r o  (Z.lor c 0) (i960_read_w o  (u32 (efa + 0))) in
  let o1 := set_r o0 (Z.lor c 1) (i960_read_w o0 (u32 (efa + 4))) in
  set_r o1 (Z.lor c 2) (i960_read_w o1 (u32 (efa + 8))).

Definition mem_ldq (o : i960) (op efa c : Z) : i960 :=
  let o0 := set_r o  (Z.lor c 0) (i960_read_w o  (u32 (efa + 0))) in
  let o1 := set_r o0 (Z.lor c 1) (i960_read_w o0 (u32 (efa + 4))) in
  let o2 := set_r o1 (Z.lor c 2) (i960_read_w o1 (u32 (efa + 8))) in
  set_r o2 (Z.lor c 3) (i960_read_w o2 (u32 (efa + 12))).

Definition mem_load (o : i960) (op efa c : Z) : i960 :=
  match u32_extract op (24 + 3) 3 with
  | 0 => mem_ldb o op efa c
  | 1 => mem_lds o op efa c
  | 2 => mem_ld  o op efa c
  | 3 => mem_ldl o op efa c
  | 4 => mem_ldt o op efa c
  | 5 => mem_ldt o op efa c
  | 6 => mem_ldq o op efa c
  | 7 => mem_ldq o op efa c
  | _ => o
  end.

(** [x] is an [int32_t]; the write takes it back as a [uint32_t]. *)
Definition mem_stb (o : i960) (op efa c : Z) : i960 :=
  let C6 := u32_bit_select op (24 + 6) in
  let x := i32 (get_r o c) in
  let o1 := i960_write_b o efa (u32 x) in
  if truthy C6 && negb (x =? i8 x) then i960_on_overflow o1 else o1.

Definition mem_sts (o : i960) (op efa c : Z) : i960 :=
  let C6 := u32_bit_select op (24 + 6) in
  let x := i32 (get_r o c) in
  let o1 := i960_write_s o efa (u32 x) in
  if truthy C6 && negb (x =? i16 x) then i960_on_overflow o1 else o1.

Definition mem_st (o : i960) (op efa c : Z) : i960 :=
  i960_write_w o efa (get_r o c).

Definition mem_stl (o : i960) (op efa c : Z) : i960 :=
  let o0 := i960_write_w o (u32 (efa + 0)) (get_r o (Z.lor c 0)) in
  i960_write_w o0 (u32 (efa + 4)) (get_r o0 (Z.lor c 1)).

Definition mem_stt (o : i960) (op efa c : Z) : i960 :=
  let o0 := i960_write_w o  (u32 (efa + 0)) (get_r o  (Z.lor c 0)) in
  let o1 := i960_write_w o0 (u32 (efa + 4)) (get_r o0 (Z.lor c 1)) in
  i960_write_w o1 (u32 (efa + 8)) (get_r o1 (Z.lor c 2)).

Definition mem_stq (o : i960) (op efa c : Z) : i960 :=
  let o0 := i960_write_w o  (u32 (efa + 0)) (get_r o  (Z.lor c 0)) in
  let o1 := i960_write_w o0 (u32 (efa + 4)) (get_r o0 (Z.lor c 1)) in
  let o2 := i960_write_w o1 (u32 (efa + 8)) (get_r o1 (Z.lor c 2)) in
  i960_write_w o2 (u32 (efa + 12)) (get_r o2 (Z.lor c 3)).

Definition mem_store (o : i960) (op efa c : Z) : i960 :=
  match u32_extract op (24 + 3) 3 with
  | 0 => mem_stb o op efa c
  | 1 => mem_sts o op efa c
  | 2 => mem_st  o op efa c
  | 3 => mem_stl o op efa c
  | 4 => mem_stt o op efa c
  | 5 => mem_stt o op efa c
  | 6 => mem_stq o op efa c
  | 7 => mem_stq o op efa c
  | _ => o
  end.

Definition mem_op (o : i960) (op efa c : Z) : i960 :=
  let C1 := u32_bit_select op (24 + 1) in
  let C2 := u32_bit_select op (24 + 2) in
  if truthy C2 then mem_funcs o op efa c
  else if truthy C1 then mem_store o op efa c
  else mem_load o op efa c.

(** ** CTRL format *)

Definition ctrl_op (o : i960) (op efa : Z) : i960 :=
  let C4 := u32_bit_select op (24 + 4) in
  let C3 := u32_bit_select op (24 + 3) in
  let i := u32_extract op (24 + 0) 2 in
  if negb (truthy C4) then
    match i with
    | 0 => i960_b o efa
    | 1 => i960_call o efa
    | 2 => i960_ret o
    | 3 => i960_bal o efa I960_LP
    | _ => o
    end
  else if negb (truthy C3) then i960_bcc o op efa
  else i960_faultcc o op efa.

(** [(((int32_t) op << s) >> s) & ~3]: the low [32 - s] bits of [op],
    sign-extended, with the two low bits cleared. *)
Definition sdisp (s : Z) (op : Z) : Z :=
  Z.land (Z.shiftr (i32 (Z.shiftl (i32 op) s)) s) (Z.lnot 3).

Definition i960_ctrl (o : i960) (op ip : Z) : i960 :=
  let disp := sdisp 8 op in
  ctrl_op o op (u32 (ip + disp)).

(** ** COBR format *)

Definition cobr_testcc (o : i960) (op a b disp : Z) : i960 :=
  let c := u32_extract op 19 5 in
  set_r o c (Z.b2z (i960_check_cond o op)).

Definition cobr_bb (o : i960) (op a b disp : Z) : i960 :=
  let C0 := u32_bit_select op (24 + 0) in
  let ok := negb (truthy (Z.lxor (u32_bit_select b a) C0)) in
  let o1 := i960_set_cond o (if ok then 2 else 0) in
  if ok then i960_b o1 (u32 (ip o1 + disp)) else o1.

Definition cobr_cmpbcc (o : i960) (op a b disp : Z) : i960 :=
  let C3 := u32_bit_select op (24 + 3) in
  let o1 := i960_cmp o a b (truthy C3) in
  i960_bcc o1 op (u32 (ip o1 + disp)).

Definition cobr_op (o : i960) (op a b disp : Z) : i960 :=
  let C4 := u32_bit_select op (24 + 4) in
  if negb (truthy C4) then cobr_testcc o op a b disp
  else if (op =? 0x30) || (op =? 0x37) then cobr_bb o op a b disp
  else cobr_cmpbcc o op a b disp.

Definition i960_cobr (o : i960) (op ip : Z) : i960 :=
  let ai := u32_extract op 19 5 in
  let bi := u32_extract op 14 5 in
  let a := if truthy (u32_bit_select op 13) then ai else get_r o ai in
  let b := get_r o bi in
  let disp := sdisp 19 op in
  cobr_op o op a b disp.

(** * Reference definitions

    Notions the properties below are stated with: a start state, the
    condition-code field, the two tests the sources document next to the
    code that replaced them, and the instruction-level step function. *)

(** A state with every register and control word zero and empty memory. *)
Definition i960_zero : i960 :=
  mk_i960 (replicate 32 0) 0 0 0 0 ∅ [] [].

Definition cond_code (o : i960) : Z := Z.land (ac o) I960_CC_MASK.

(** The condition as the i960 defines it, from the mnemonic table of the
    CTRL front end ([bno], [bg], [be], [bge], [bl], [bne], [ble], [bo]):
    mask [cc] against the condition code, [cc = 0] meaning "code is 0". *)
Definition check_cond_by_mask (o : i960) (op : Z) : bool :=
  let cc := u32_extract op 24 3 in
  let ac_cc := Z.land (ac o) I960_CC_MASK in
  if cc =? 0 then ac_cc =? 0 else negb (Z.land cc ac_cc =? 0).

(** The byte test as the disabled [#else] branch of [reg_scanbyte] spells
    it out. *)
Definition scanbyte_any_equal (a b : Z) : bool :=
  (Z.land a 0x000000ff =? Z.land b 0x000000ff) ||
  (Z.land a 0x0000ff00 =? Z.land b 0x0000ff00) ||
  (Z.land a 0x00ff0000 =? Z.land b 0x00ff0000) ||
  (Z.land a 0xff000000 =? Z.land b 0xff000000).

(** The entry points of the instruction formats.  The REG front end that
    would fetch the operands is compiled out of the sources ([reg_op] is
    under [#if 0]), so the REG blocks take the operand values [a], [b] and
    the destination index [c] as the C functions do. *)
Inductive instr : Type :=
  | REG_core   (op a b c : Z)
  | REG_supp   (op a b c : Z)
  | REG_fpu    (op a b c : Z)
  | REG_muldiv (op a b c : Z)
  | REG_cond   (op a b c : Z)
  | MEM        (op efa c : Z)
  | CTRL       (op ip : Z)
  | COBR       (op ip : Z).

Definition exec (o : i960) (i : instr) : i960 :=
  match i with
  | REG_core   op a b c => reg_core   o op a b c
  | REG_supp   op a b c => reg_supp   o op a b c
  | REG_fpu    op a b c => reg_fpu    o op a b c
  | REG_muldiv op a b c => reg_muldiv o op a b c
  | REG_cond   op a b c => reg_cond   o op a b c
  | MEM        op efa c => mem_op     o op efa c
  | CTRL       op ip    => i960_ctrl  o op ip
  | COBR       op ip    => i960_cobr  o op ip
  end.

Definition run (o : i960) (p : list instr) : i960 := fold_left exec p o.

(** [addc] / [subc]: block 0x5B with F2 clear. *)
Definition is_addc (i : instr) : bool :=
  match i with
  | REG_core op _ _ _ =>
      (u32_extract op (24 + 0) 3 =? 3) &&
      negb (truthy (u32_bit_select op (7 + 2)))
  | _ => false
  end.

(** [modac]: block 0x64 with F2 set. *)
Definition is_modac (i : instr) : bool :=
  match i with
  | REG_supp op _ _ _ =>
      (u32_extract op (24 + 0) 3 =? 4) && truthy (u32_bit_select op (7 + 2))
  | _ => false
  end.

(** A condition code with at most one of the bits 4, 2, 1 set. *)
Definition cc_valid (cc : Z) : bool :=
  (cc =? 0) || (cc =? 1) || (cc =? 2) || (cc =? 4).

Definition one_hot_cc (o : i960) : bool := cc_valid (cond_code o).

(** [keeps P x y]: going from AC value [x] to [y] keeps the condition
    code within [P] and changes no bit of AC above the code other than the
    overflow flag (bit 8); the flag is not cleared, and it is set only when
    the overflow mask (bit 12) is set. *)
Definition keeps (P : Z -> bool) (x y : Z) : Prop :=
  (P (Z.land x I960_CC_MASK) = true -> P (Z.land y I960_CC_MASK) = true) /\
  (forall n, 3 <= n < 32 -> n <> 8 -> Z.testbit y n = Z.testbit x n) /\
  (Z.testbit x 8 = true -> Z.testbit y 8 = true) /\
  (Z.testbit y 8 = true -> Z.testbit x 8 = true \/ Z.testbit x 12 = true).

(** Operands of an instruction are words. *)
Definition operands_u32 (i : instr) : Prop :=
  match i with
  | REG_core _ a b _ | REG_supp _ a b _ | REG_fpu _ a b _
  | REG_muldiv _ a b _ | REG_cond _ a b _ => is_u32 a /\ is_u32 b
  | _ => True
  end.

(** * Well-formed states and the disassembler's decoding helpers *)

(** Every byte of the store is a byte. *)
Definition mem_ok (m : gmap Z Z) : Prop :=
  forall k v, m !! k = Some v -> 0 <= v < 2^8.

(** A state as the C types have it: 32 registers, every register and
    control word a [uint32_t], memory made of bytes. *)
Definition wf (o : i960) : Prop :=
  length (r o) = 32%nat /\ Forall is_u32 (r o) /\
  is_u32 (ip o) /\ is_u32 (ac o) /\ is_u32 (pc o) /\ is_u32 (tc o) /\
  mem_ok (mem o).

(** Operand values handed to the entry points are words. *)
Definition word_operands (i : instr) : Prop :=
  match i with
  | REG_core _ a b _ | REG_supp _ a b _ | REG_fpu _ a b _
  | REG_muldiv _ a b _ | REG_cond _ a b _ => is_u32 a /\ is_u32 b
  | MEM _ efa _ => is_u32 efa
  | CTRL _ ip0 => is_u32 ip0
  | COBR _ _ => True
  end.

(** The disassembler's own functions carry the names of the emulator's
    ([i960_ctrl], [i960_cobr], ...); they live in a module of their own. *)
Module Dasm.

(** [disp] is an [int32_t]; [~0xffffff] is the [int] -2^24. *)
Definition i960_ctrl_disp (op : Z) : Z :=
  let disp := i32 (Z.land op 0xfffffc) in
  if truthy (Z.land op 0x800000)
  then Z.lor disp (Z.lnot 0xffffff) else disp.

Definition i960_cobr_disp (op : Z) : Z :=
  let disp := i32 (Z.land op 0x1ffc) in
  if truthy (Z.land op 0x1000)
  then Z.lor disp (Z.lnot 0x1fff) else disp.

End Dasm.

(** [frame m o o']: going from [o] to [o'] leaves the instruction
    pointer and the number of registers alone and, when [m] is set, the
    memory too. *)
Definition frame (m : bool) (o o' : i960) : Prop :=
  ip o' = ip o /\ length (r o') = length (r o) /\
  (m = true -> mem o' = mem o).

(** * Properties *)

(** ** Machine integers and the register file *)

Lemma u32_range (x : Z) : 0 <= u32 x < 2^32.
Proof. unfold u32. apply Z.mod_pos_bound. lia. Qed.

Lemma u32_small (x : Z) : is_u32 x -> u32 x = x.
Proof. unfold is_u32, u32. intros H. apply Z.mod_small. lia. Qed.

Lemma i32_nonneg (x : Z) : 0 <= x < 2^31 -> i32 x = x.
Proof.
  intros H. unfold i32, sext. rewrite Z.mod_small by lia.
  replace (2 ^ (32 - 1)) with (2^31) by reflexivity.
  destruct (Z.ltb_spec x (2^31)); lia.
Qed.

Lemma i32_neg (x : Z) : 2^31 <= x < 2^32 -> i32 x = x - 2^32.
Proof.
  intros H. unfold i32, sext. rewrite Z.mod_small by lia.
  replace (2 ^ (32 - 1)) with (2^31) by reflexivity.
  destruct (Z.ltb_spec x (2^31)); lia.
Qed.

Lemma i32_range (x : Z) : - 2^31 <= i32 x < 2^31.
Proof.
  unfold i32, sext. replace (2 ^ (32 - 1)) with (2^31) by reflexivity.
  pose proof (Z.mod_pos_bound x (2^32) ltac:(lia)).
  destruct (Z.ltb_spec (x mod 2^32) (2^31)); lia.
Qed.

Lemma u32_i32 (x : Z) : u32 (i32 x) = u32 x.
Proof.
  unfold i32, sext, u32. replace (2 ^ (32 - 1)) with (2^31) by reflexivity.
  destruct (Z.ltb_spec (x mod 2^32) (2^31)).
  - apply Z.mod_mod. lia.
  - replace (x mod 2^32 - 2^32) with (x mod 2^32 + (-1) * 2^32) by lia.
    rewrite Z.mod_add by lia. apply Z.mod_mod. lia.
Qed.

Lemma truthy_bit (x pos : Z) :
  truthy (u32_bit_select x pos) = Z.testbit x (Z.land pos 31).
Proof.
  unfold truthy, u32_bit_select.
  set (y := Z.shiftr x (Z.land pos 31)).
  replace (Z.land y 1) with (Z.land y (Z.ones 1)) by reflexivity.
  rewrite Z.land_ones by lia. change (2 ^ 1) with 2.
  rewrite <- Z.bit0_mod. unfold y. rewrite Z.shiftr_spec by lia.
  rewrite Z.add_0_l.
  destruct (Z.testbit x (Z.land pos 31)); reflexivity.
Qed.

Lemma length_set_r (o : i960) (c v : Z) :
  length (r (set_r o c v)) = length (r o).
Proof. simpl. apply length_insert. Qed.

Lemma get_set_r_same (o : i960) (c v : Z) :
  (Z.to_nat c < length (r o))%nat -> get_r (set_r o c v) c = v.
Proof.
  intros H. unfold get_r. simpl. rewrite nth_lookup.
  rewrite list_lookup_insert_eq by exact H. reflexivity.
Qed.

Lemma get_set_r_other (o : i960) (c j v : Z) :
  Z.to_nat c <> Z.to_nat j -> get_r (set_r o c v) j = get_r o j.
Proof.
  intros H. unfold get_r. simpl. rewrite !nth_lookup.
  rewrite list_lookup_insert_ne by exact H. reflexivity.
Qed.

(** ** The condition predicate *)

(** What [i960_check_cond] computes: with a non-zero [cc] it only asks
    whether AC as a whole is non-zero. *)
Lemma i960_check_cond_nonzero_cc (o : i960) (op : Z) :
  u32_extract op 24 3 <> 0 ->
  i960_check_cond o op = negb (ac o =? 0).
Proof.
  intros Hcc. unfold i960_check_cond.
  destruct (Z.eqb_spec (u32_extract op 24 3) 0) as [E|_]; [contradiction|].
  destruct (Z.eqb_spec (ac o) 0) as [E0|_]; cbn [negb andb orb];
    [|reflexivity].
  rewrite E0. change (Z.land 0 I960_CC_MASK) with 0.
  apply Z.eqb_neq. congruence.
Qed.

Lemma i960_check_cond_zero_cc (o : i960) (op : Z) :
  u32_extract op 24 3 = 0 ->
  i960_check_cond o op = check_cond_by_mask o op.
Proof.
  intros Hcc. unfold i960_check_cond, check_cond_by_mask.
  rewrite Hcc. simpl. rewrite andb_false_r. reflexivity.
Qed.

(** C1 ([i960_check_cond], the code departs from the specification). With
    the condition code "less" (AC = 4) and the opcode of [bg] (cc = 1) the
    masks do not overlap, so the condition does not hold; the code
    nevertheless returns true, because it tests [ac && cc] instead of
    [ac & cc]. *)
Theorem i960_check_cond_bg_after_less :
  let o := set_ac i960_zero 4 in
  let op := 0x11000000 in
  u32_extract op 24 3 = 1 /\
  Z.land (ac o) I960_CC_MASK = 4 /\
  check_cond_by_mask o op = false /\
  i960_check_cond o op = true.
Proof. vm_compute. repeat split; reflexivity. Qed.

(** ** Integer overflow policy *)

(** C5 ([i960_on_overflow]).  With the overflow mask (AC bit 12) set, the
    overflow flag (AC bit 8) is set, nothing else in the state changes and
    no fault is raised; with the mask clear, fault 0x30001 is raised and
    AC, the flag bit included, is left as it was. *)
Theorem i960_on_overflow_policy (o : i960) :
  let o' := i960_on_overflow o in
  if Z.testbit (ac o) 12
  then Z.testbit (ac o') 8 = true /\
       o' = set_ac o (Z.lor (ac o) (2^8)) /\
       faults o' = faults o
  else faults o' = faults o ++ [0x30001] /\
       o' = i960_fault o 0x30001 /\
       ac o' = ac o.
Proof.
  unfold i960_on_overflow. rewrite truthy_bit.
  change (Z.land I960_OM_POS 31) with 12.
  destruct (Z.testbit (ac o) 12); cbv zeta.
  - change (u32_bit_mask I960_OF_POS) with (2^8).
    split; [|split; reflexivity].
    unfold set_ac. cbn [ac]. rewrite Z.lor_spec.
    change (Z.testbit (2^8) 8) with true. apply orb_true_r.
  - repeat split.
Qed.

(** ** shrdi *)

Lemma i32_cases (b : Z) : is_u32 b -> i32 b = b \/ i32 b = b - 2^32.
Proof.
  intros Hb. unfold is_u32 in Hb.
  destruct (Z.lt_ge_cases b (2^31)).
  - left. apply i32_nonneg. lia.
  - right. apply i32_neg. lia.
Qed.

(** Shifting the arithmetic-shift result back clears the low [n] bits
    of [b]. *)
Lemma sar_shl_clears (b n : Z) :
  is_u32 b -> 0 <= n < 32 ->
  u32_shl (i32_sar b n) n = b - b mod 2^n.
Proof.
  intros Hb Hn. unfold u32_shl, i32_sar, u32.
  rewrite Z.shiftl_mul_pow2, Z.shiftr_div_pow2 by lia.
  rewrite Z.mul_mod_idemp_l by lia.
  assert (Hp : 0 < 2^n) by (apply Z.pow_pos_nonneg; lia).
  assert (Hsplit : 2^32 = 2^(32 - n) * 2^n).
  { rewrite <- Z.pow_add_r by lia. f_equal. lia. }
  assert (Hm : i32 b mod 2^n = b mod 2^n).
  { destruct (i32_cases b Hb) as [-> | ->]; [reflexivity|].
    replace (b - 2^32) with (b + (- 2^(32 - n)) * 2^n) by lia.
    apply Z.mod_add. lia. }
  pose proof (Z.div_mod (i32 b) (2^n) ltac:(lia)) as Hdm.
  pose proof (Z.mod_pos_bound b (2^n) Hp) as Hbm.
  assert (Hq : i32 b / 2^n * 2^n = i32 b - b mod 2^n) by lia.
  rewrite Hq. unfold is_u32 in Hb.
  destruct (i32_cases b Hb) as [-> | ->].
  - apply Z.mod_small.
    pose proof (Z.mod_le b (2^n) ltac:(lia) Hp). lia.
  - replace (b - 2^32 - b mod 2^n) with (b - b mod 2^n + (-1) * 2^32) by lia.
    rewrite Z.mod_add by lia. apply Z.mod_small.
    pose proof (Z.mod_le b (2^n) ltac:(lia) Hp). lia.
Qed.

Lemma get_set_r_cases (o : i960) (c v : Z) :
  get_r (set_r o c v) c = v \/ get_r (set_r o c v) c = 0.
Proof.
  destruct (Nat.lt_ge_cases (Z.to_nat c) (length (r o))) as [H|H].
  - left. apply get_set_r_same, H.
  - right. unfold get_r. apply nth_overflow. rewrite length_set_r. exact H.
Qed.

(** The increment of [reg_shrdi] is dead code: the test
    [b < (o->r[c] << n)] compares [b] with [b] less its low [n] bits, so
    [shrdi] is [shri] on every input. *)
Lemma reg_shrdi_never_rounds (o : i960) (op a b c : Z) :
  is_u32 b -> 0 <= a ->
  reg_shrdi o op a b c = reg_shri o op a b c.
Proof.
  intros Hb Ha. unfold reg_shrdi, reg_shri.
  set (n := if a <? 32 then a else 31).
  assert (Hn : 0 <= n < 32) by (unfold n; destruct (Z.ltb_spec a 32); lia).
  set (o1 := set_r o c (i32_sar b n)).
  assert (Hlt : (b <? u32_shl (get_r o1 c) n) = false).
  { apply Z.ltb_ge. unfold o1.
    destruct (get_set_r_cases o c (i32_sar b n)) as [-> | ->].
    - rewrite sar_shl_clears by assumption.
      pose proof (Z.mod_pos_bound b (2^n) ltac:(apply Z.pow_pos_nonneg; lia)).
      lia.
    - unfold u32_shl. rewrite Z.shiftl_0_l. unfold is_u32 in Hb.
      change (u32 0) with 0. lia. }
  rewrite Hlt. reflexivity.
Qed.

(** C7 ([reg_shrdi], the code departs from the specification). Shifting -1
    right by one: the shifted-off bit is 1 and the value is negative, so the
    rounded result is -1 / 2 = 0; the code leaves the arithmetic-shift
    result -1 (0xFFFFFFFF) in the destination. *)
Theorem reg_shrdi_minus_one :
  let a := 1 in
  let b := 0xFFFFFFFF in
  let o' := reg_shrdi i960_zero 0 a b 4 in
  i32 b = -1 /\
  Z.land b (Z.ones a) <> 0 /\
  u32 (Z.quot (i32 b) (2^a)) = 0 /\
  u32 (i32_sar b a + 1) = 0 /\
  get_r o' 4 = 0xFFFFFFFF.
Proof. vm_compute. repeat split; congruence. Qed.

(** ** scanbyte *)

Lemma cond_code_set_cond (o : i960) (cc : Z) :
  0 <= cc <= 7 -> cond_code (i960_set_cond o cc) = cc.
Proof.
  intros Hcc. unfold cond_code, i960_set_cond, set_ac. cbn [ac].
  rewrite Z.land_lor_distr_l, <- Z.land_assoc.
  change (Z.land (u32_not I960_CC_MASK) I960_CC_MASK) with 0.
  rewrite Z.land_0_r, Z.lor_0_l.
  change I960_CC_MASK with (Z.ones 3). rewrite Z.land_ones by lia.
  apply Z.mod_small. change (2^3) with 8. lia.
Qed.

Lemma masked_bits_agree (a b m k : Z) :
  Z.land a m = Z.land b m -> Z.testbit m k = true ->
  Z.testbit a k = Z.testbit b k.
Proof.
  intros H Hm. apply (f_equal (fun x => Z.testbit x k)) in H.
  rewrite !Z.land_spec, Hm, !andb_true_r in H. exact H.
Qed.

Lemma byte_bits_agree (a b s n : Z) :
  0 <= s -> 0 <= n < 8 ->
  Z.land a (Z.shiftl (Z.ones 8) s) = Z.land b (Z.shiftl (Z.ones 8) s) ->
  xorb (Z.testbit a (n + s)) (Z.testbit b (n + s)) = false.
Proof.
  intros Hs Hn H.
  rewrite (masked_bits_agree a b _ (n + s) H).
  - apply xorb_nilpotent.
  - rewrite Z.shiftl_spec by lia.
    replace (n + s - s) with n by lia. apply Z.ones_spec_low. lia.
Qed.

(** The sound half of [reg_scanbyte]: a pair of equal bytes does give
    condition code 2. *)
Lemma reg_scanbyte_equal_byte (o : i960) (op a b c : Z) :
  scanbyte_any_equal a b = true ->
  cond_code (reg_scanbyte o op a b c) = 2.
Proof.
  intros H. unfold reg_scanbyte.
  assert (Hz : Z.land (Z.land (Z.shiftr (Z.land (Z.shiftr (Z.lxor a b) 16)
                 (Z.lxor a b)) 8) (Z.land (Z.shiftr (Z.lxor a b) 16)
                 (Z.lxor a b))) 0xff = 0).
  { apply Z.bits_inj'. intros n Hn. rewrite Z.bits_0.
    rewrite !Z.land_spec, !Z.shiftr_spec, !Z.land_spec, !Z.shiftr_spec,
      !Z.lxor_spec by lia.
    destruct (Z.lt_ge_cases n 8) as [Hlt|Hge].
    - unfold scanbyte_any_equal in H.
      replace (n + 8 + 16) with (n + 24) by lia.
      apply orb_prop in H. destruct H as [H|H];
        [apply orb_prop in H; destruct H as [H|H];
          [apply orb_prop in H; destruct H as [H|H]|]|];
        apply Z.eqb_eq in H.
      + change 0x000000ff with (Z.shiftl (Z.ones 8) 0) in H.
        apply (byte_bits_agree a b 0 n) in H; [|lia|lia].
        rewrite Z.add_0_r in H. rewrite H.
        rewrite !andb_false_r. reflexivity.
      + change 0x0000ff00 with (Z.shiftl (Z.ones 8) 8) in H.
        apply (byte_bits_agree a b 8 n) in H; [|lia|lia].
        rewrite H. rewrite !andb_false_r. reflexivity.
      + change 0x00ff0000 with (Z.shiftl (Z.ones 8) 16) in H.
        apply (byte_bits_agree a b 16 n) in H; [|lia|lia].
        rewrite H. rewrite !andb_false_r. reflexivity.
      + change 0xff000000 with (Z.shiftl (Z.ones 8) 24) in H.
        apply (byte_bits_agree a b 24 n) in H; [|lia|lia].
        rewrite H. reflexivity.
    - change 0xff with (Z.ones 8).
      rewrite Z.ones_spec_high by lia. apply andb_false_r. }
  cbv zeta. rewrite Hz. change (0 =? 0) with true. cbv iota.
  apply cond_code_set_cond. lia.
Qed.

(** C8 ([reg_scanbyte], the code departs from the specification). For a = 0
    and b = 0x01020408 no byte of [a] equals the byte of [b] at its
    position, yet the code sets the condition code to 2: it tests that the
    AND of the four bytes of [a ^ b] is zero, not that one of them is. *)
Theorem reg_scanbyte_no_equal_byte :
  let a := 0 in
  let b := 0x01020408 in
  scanbyte_any_equal a b = false /\
  cond_code (reg_scanbyte i960_zero 0 a b 0) = 2.
Proof. vm_compute. split; reflexivity. Qed.

(** ** muli and divi *)

Lemma u32_i64 (x : Z) : u32 (i64 x) = u32 x.
Proof.
  unfold i64, sext, u32. replace (2 ^ (64 - 1)) with (2^63) by reflexivity.
  assert (H : (x mod 2^64) mod 2^32 = x mod 2^32).
  { apply Z.mod_mod_divide. exists (2^32). reflexivity. }
  destruct (Z.ltb_spec (x mod 2^64) (2^63)); [exact H|].
  replace (x mod 2^64 - 2^64) with (x mod 2^64 + (- 2^32) * 2^32) by lia.
  rewrite Z.mod_add by lia. exact H.
Qed.

(** The word [reg_muli] writes is the low 32 bits of the signed product. *)
Lemma reg_muli_low_word (o : i960) (op a b c : Z) :
  r (reg_muli o op a b c) = <[Z.to_nat c := u32 (i32 a * i32 b)]> (r o).
Proof.
  unfold reg_muli. cbv zeta.
  assert (E : u32 (i64 (a * b)) = u32 (i32 a * i32 b)).
  { rewrite u32_i64. unfold u32.
    rewrite (Z.mul_mod (i32 a) (i32 b)) by lia.
    fold (u32 (i32 a)). fold (u32 (i32 b)). rewrite !u32_i32. unfold u32.
    rewrite <- Z.mul_mod by lia. reflexivity. }
  rewrite E.
  destruct ((i64 (a * b) <? INT32_MIN) || (i64 (a * b) >? INT32_MAX));
    [|reflexivity].
  unfold i960_on_overflow.
  destruct (truthy (u32_bit_select (ac (set_r o c (u32 (i32 a * i32 b))))
                                   I960_OM_POS)); reflexivity.
Qed.

(** [reg_muli] signals overflow exactly when the product of the operands
    read as unsigned words exceeds INT32_MAX: the operands are widened
    without a signed cast. *)
Lemma reg_muli_overflow_unsigned (o : i960) (op a b c : Z) :
  is_u32 a -> is_u32 b ->
  reg_muli o op a b c =
    if a * b >? INT32_MAX
    then i960_on_overflow (set_r o c (u32 (a * b)))
    else set_r o c (u32 (a * b)).
Proof.
  unfold is_u32. intros Ha Hb. unfold reg_muli. cbv zeta.
  rewrite u32_i64.
  assert (Hab : 0 <= a * b <= 2^64 - 2^33 + 1) by nia.
  assert (E : (i64 (a * b) <? INT32_MIN) || (i64 (a * b) >? INT32_MAX)
              = (a * b >? INT32_MAX)).
  { unfold i64, sext, INT32_MIN, INT32_MAX.
    replace (2 ^ (64 - 1)) with (2^63) by reflexivity.
    rewrite (Z.mod_small (a * b)) by lia.
    destruct (Z.ltb_spec (a * b) (2^63)).
    - destruct (Z.ltb_spec (a * b) (- 2^31)); [lia|]. reflexivity.
    - destruct (Z.ltb_spec (a * b - 2^64) (- 2^31)); [|lia].
      symmetry. apply Z.gtb_lt. lia. }
  rewrite E. reflexivity.
Qed.

Lemma i32_sign_bit (x : Z) : is_u32 x -> (i32 x <? 0) = Z.testbit x 31.
Proof.
  intros Hx. unfold is_u32 in Hx.
  destruct (Z.lt_ge_cases x (2^31)) as [H|H].
  - rewrite i32_nonneg by lia.
    destruct (Z.ltb_spec x 0); [lia|]. symmetry.
    destruct (Z.eq_dec x 0) as [-> |]; [apply Z.bits_0|].
    apply Z.bits_above_log2; [lia|]. apply Z.log2_lt_pow2; lia.
  - rewrite i32_neg by lia.
    destruct (Z.ltb_spec (x - 2^32) 0); [|lia]. symmetry.
    apply Z.testbit_true; [lia|].
    replace (x / 2^31) with 1; [reflexivity|].
    apply Z.div_unique with (r := x - 2^31); lia.
Qed.

(** [reg_divi] signals overflow on every division whose quotient is 0
    and whose operands differ in sign. *)
Lemma reg_divi_zero_quotient_overflow (o : i960) (op a b c : Z) :
  is_u32 a -> is_u32 b -> a <> 0 ->
  Z.quot (i32 b) (i32 a) = 0 ->
  Z.testbit a 31 <> Z.testbit b 31 ->
  reg_divi o op a b c = i960_on_overflow (set_r o c 0).
Proof.
  intros Ha Hb Hnz Hq Hs. unfold reg_divi, i960_div_check.
  destruct (Z.eqb_spec a 0) as [E|_]; [contradiction|]. cbn [negb].
  rewrite Hq. change (u32 0) with 0.
  assert (Hg : get_r (set_r o c 0) c = 0)
    by (destruct (get_set_r_cases o c 0); assumption).
  rewrite Hg, Z.lxor_0_r.
  assert (Hx : is_u32 (Z.lxor a b)).
  { unfold is_u32 in *. split; [apply Z.lxor_nonneg; lia|].
    destruct (Z.eq_dec (Z.lxor a b) 0) as [-> |Hne]; [lia|].
    assert (0 <= Z.lxor a b) by (apply Z.lxor_nonneg; lia).
    apply Z.log2_lt_pow2; [lia|].
    apply Z.le_lt_trans with (Z.max (Z.log2 a) (Z.log2 b));
      [apply Z.log2_lxor; lia|].
    destruct (Z.eq_dec b 0) as [-> |Hb0].
    - rewrite Z.max_l by (simpl; apply Z.log2_nonneg).
      apply Z.log2_lt_pow2; lia.
    - apply Z.max_lub_lt; apply Z.log2_lt_pow2; lia. }
  rewrite (i32_sign_bit _ Hx), Z.lxor_spec.
  destruct (Z.testbit a 31), (Z.testbit b 31); try contradiction;
    reflexivity.
Qed.

(** C9 ([reg_muli], [reg_divi]; the code departs from the
    specification).
    muli: (-1) * 1 = -1 fits in 32 bits, yet integer overflow is signalled
    (the unsigned product 0xFFFFFFFF exceeds INT32_MAX).
    divi: 1 / (-2) = 0 with a dividend that is not INT32_MIN, yet integer
    overflow is signalled (the sign test [a ^ b ^ q] is negative whenever
    the quotient is 0 and the operand signs differ). *)
Theorem reg_muli_divi_spurious_overflow :
  (let a := 0xFFFFFFFF in
   let b := 1 in
   let o' := reg_muli i960_zero 0 a b 4 in
   INT32_MIN <= i32 a * i32 b <= INT32_MAX /\
   get_r o' 4 = u32 (i32 a * i32 b) /\
   faults o' = [0x30001]) /\
  (let a := 0xFFFFFFFE in
   let b := 1 in
   let o' := reg_divi i960_zero 0 a b 4 in
   i32 a = -2 /\ i32 b <> INT32_MIN /\
   get_r o' 4 = u32 (Z.quot (i32 b) (i32 a)) /\
   faults o' = [0x30001]).
Proof. vm_compute. repeat split; congruence. Qed.

(** ** Division by zero *)

(** C4 ([reg_ediv]; the code departs from the specification).
    [ediv] (opcode 0x671, here through [reg_supp]) with divisor 0 signals
    fault 0x30002 and, the reporter having returned, still writes both
    destination registers: r4 changes from 7 to [b] = 3 and r5 from 9 to
    0.  [reg_ediv] runs the same [i960_div_check] as [reg_divo],
    [reg_remi] and [reg_divi], which skip their write when it fails. *)
Lemma reg_ediv_zero_divisor_writes :
  let o := set_r (set_r i960_zero 4 7) 5 9 in
  let o' := reg_supp o 0x67000080 0 3 4 in
  o' = reg_ediv o 0x67000080 0 3 4 /\
  faults o' = [0x30002] /\
  (get_r o 4 = 7 /\ get_r o' 4 = 3) /\
  (get_r o 5 = 9 /\ get_r o' 5 = 0) /\
  r o' <> r o.
Proof. vm_compute. repeat split; congruence. Qed.

(** Division by zero, for every state and operand.  [divo]/[remo]
    ([reg_divo]), [remi]/[modi] ([reg_remi]) and [divi] ([reg_divi]) only
    signal fault 0x30002: the register file is untouched.  [ediv] signals
    the same fault and then writes [b] to [r[c | 0]] and 0 to
    [r[c | 1]]. *)
Theorem division_by_zero_effects (o : i960) (op b c : Z) :
  let fo := i960_fault o 0x30002 in
  (r fo = r o /\ faults fo = faults o ++ [0x30002]) /\
  reg_divo o op 0 b c = fo /\
  reg_remi o op 0 b c = fo /\
  reg_divi o op 0 b c = fo /\
  faults (reg_ediv o op 0 b c) = faults o ++ [0x30002] /\
  r (reg_ediv o op 0 b c) =
    <[Z.to_nat (Z.lor c 1) := 0]> (<[Z.to_nat (Z.lor c 0) := b]> (r o)).
Proof. cbv zeta. repeat split. Qed.

(** The same through the decoder of blocks 0x70 / 0x74: every opcode
    with F3 set ([remo], [divo], [remi], [modi], [divi]) with divisor 0
    only signals the fault. *)
Lemma reg_muldiv_zero_divisor (o : i960) (op b c : Z) :
  truthy (u32_bit_select op (7 + 3)) = true ->
  reg_muldiv o op 0 b c = i960_fault o 0x30002.
Proof.
  intros HF3. unfold reg_muldiv, reg_74, reg_70. cbv zeta. rewrite HF3.
  cbn [negb].
  destruct (truthy (u32_bit_select op (24 + 2)));
    [destruct (truthy (u32_bit_select op (7 + 1)))|]; reflexivity.
Qed.

(** ** bbc / bbs *)

(** [cobr_bb] on its own does what is asked of [bbc]/[bbs]. *)
Lemma cobr_bb_effect (o : i960) (op a b disp : Z) :
  let ok := Z.eqb (u32_bit_select b a) (u32_bit_select op 24) in
  let o' := cobr_bb o op a b disp in
  cond_code o' = (if ok then 2 else 0) /\
  ip o' = (if ok then u32 (ip o + disp) else ip o).
Proof.
  cbv zeta. unfold cobr_bb.
  assert (E : negb (truthy (Z.lxor (u32_bit_select b a)
                                   (u32_bit_select op (24 + 0))))
              = (u32_bit_select b a =? u32_bit_select op 24)).
  { change (24 + 0) with 24. unfold truthy. rewrite negb_involutive.
    destruct (Z.eqb_spec (u32_bit_select b a) (u32_bit_select op 24)) as [E|E].
    - rewrite E, Z.lxor_nilpotent. reflexivity.
    - apply Z.eqb_neq. intros H. apply E, Z.lxor_eq, H. }
  rewrite E.
  destruct (u32_bit_select b a =? u32_bit_select op 24); cbv zeta.
  - split; [|reflexivity].
    apply (cond_code_set_cond o 2). lia.
  - split; [|reflexivity].
    apply (cond_code_set_cond o 0). lia.
Qed.

(** [cobr_op] never reaches [cobr_bb]: it compares the whole instruction
    word with 0x30 and 0x37, which both have bit 28 clear, on the branch
    where bit 28 is set. *)
Lemma cobr_op_skips_bb (o : i960) (op a b disp : Z) :
  cobr_op o op a b disp =
    if negb (truthy (u32_bit_select op (24 + 4)))
    then cobr_testcc o op a b disp
    else cobr_cmpbcc o op a b disp.
Proof.
  unfold cobr_op.
  destruct (Z.eqb_spec op 0x30) as [-> | _]; [reflexivity|].
  destruct (Z.eqb_spec op 0x37) as [-> | _]; reflexivity.
Qed.

(** C6 ([cobr_op]; the code departs from the specification).
    [bbc r3, r4, +0x40] with r3 = 5 and r4 = 0: bit 5 of r4 is 0 and
    matches, so the condition code should be 2 and the branch taken; the
    code runs the compare-and-branch path instead, giving code 1 and no
    branch.
    [bbs r3, r4, -0x10] with r3 = 5 and r4 = 0x20 (scenario 6 of the
    spec): the code leaves condition code 4, not 2. *)
Theorem i960_cobr_bbc_bbs_run_cmpbcc :
  (let o := set_r (set_r (set_ip i960_zero 0x100) 3 5) 4 0 in
   let op := 0x30190040 in
   let o' := i960_cobr o op 0x100 in
   u32_extract op 24 8 = 0x30 /\ u32_extract op 19 5 = 3 /\
   u32_extract op 14 5 = 4 /\ sdisp 19 op = 0x40 /\
   u32_bit_select (get_r o 4) (get_r o 3) = u32_bit_select op 24 /\
   cond_code o' = 1 /\ ip o' = 0x100) /\
  (let o := set_r (set_r (set_ip i960_zero 0x100) 3 5) 4 0x20 in
   let op := 0x37191ff0 in
   let o' := i960_cobr o op 0x100 in
   u32_extract op 24 8 = 0x37 /\ u32_extract op 19 5 = 3 /\
   u32_extract op 14 5 = 4 /\ sdisp 19 op = -0x10 /\
   u32_bit_select (get_r o 4) (get_r o 3) = u32_bit_select op 24 /\
   cond_code o' = 4 /\ ip o' = 0xf0).
Proof. vm_compute. repeat split; reflexivity. Qed.

(** ** Multi-word transfers: register indices are formed with OR *)

Lemma lor_in_group (c i k : Z) :
  0 <= k -> 0 <= i < 2^k -> Z.shiftr (Z.lor c i) k = Z.shiftr c k.
Proof.
  intros Hk Hi. rewrite Z.shiftr_lor.
  rewrite (Z.shiftr_div_pow2 i) by lia.
  rewrite Z.div_small by lia. apply Z.lor_0_r.
Qed.

Lemma group_index_ne (c i j k : Z) :
  0 <= c -> 0 <= j -> 0 <= k -> 0 <= i < 2^k ->
  Z.shiftr j k <> Z.shiftr c k ->
  Z.to_nat (Z.lor c i) <> Z.to_nat j.
Proof.
  intros Hc Hj Hk Hi Hne E.
  assert (Hl : 0 <= Z.lor c i) by (apply Z.lor_nonneg; lia).
  apply Z2Nat.inj in E; [|lia|lia].
  apply Hne. rewrite <- E. apply lor_in_group; lia.
Qed.

Lemma lor_odd_1 (c : Z) : Z.odd c = true -> Z.lor c 1 = c.
Proof.
  intros H. apply Z.bits_inj'. intros n Hn. rewrite Z.lor_spec.
  destruct (Z.eq_dec n 0) as [-> | Hn0].
  - rewrite Z.bit0_odd, H. reflexivity.
  - replace (Z.testbit 1 n) with false; [apply orb_false_r|].
    symmetry. apply (Z.bits_above_log2 1 n); simpl; lia.
Qed.

Section MultiWord.

Variables (o : i960) (op efa a b c j : Z).
Hypothesis Hc : 0 <= c.
Hypothesis Hj : 0 <= j.

Lemma mem_ldl_outside :
  Z.shiftr j 1 <> Z.shiftr c 1 -> get_r (mem_ldl o op efa c) j = get_r o j.
Proof.
  intros H. unfold mem_ldl. cbv zeta.
  rewrite !get_set_r_other
    by (apply group_index_ne with (k := 1); try assumption; lia).
  reflexivity.
Qed.

Lemma mem_ldt_outside :
  Z.shiftr j 2 <> Z.shiftr c 2 -> get_r (mem_ldt o op efa c) j = get_r o j.
Proof.
  intros H. unfold mem_ldt. cbv zeta.
  rewrite !get_set_r_other
    by (apply group_index_ne with (k := 2); try assumption; lia).
  reflexivity.
Qed.

Lemma mem_ldq_outside :
  Z.shiftr j 2 <> Z.shiftr c 2 -> get_r (mem_ldq o op efa c) j = get_r o j.
Proof.
  intros H. unfold mem_ldq. cbv zeta.
  rewrite !get_set_r_other
    by (apply group_index_ne with (k := 2); try assumption; lia).
  reflexivity.
Qed.

Lemma reg_move_from_outside (k src : Z) :
  Z.shiftr j 2 <> Z.shiftr c 2 ->
  get_r (reg_move_from k o a c src) j = get_r o j.
Proof.
  intros H. unfold reg_move_from. cbv zeta.
  destruct (3 <=? k), (2 <=? k), (1 <=? k);
    rewrite !get_set_r_other
      by (apply group_index_ne with (k := 2); try assumption; lia);
    reflexivity.
Qed.

Lemma reg_move_outside :
  Z.shiftr j 2 <> Z.shiftr c 2 -> get_r (reg_move o op a b c) j = get_r o j.
Proof.
  intros H. unfold reg_move. cbv zeta.
  repeat case_match; try reflexivity; apply reg_move_from_outside, H.
Qed.

(** [movl] (label 1 of the switch) stays within the aligned pair. *)
Lemma reg_movl_outside (src : Z) :
  Z.shiftr j 1 <> Z.shiftr c 1 ->
  get_r (reg_move_from 1 o a c src) j = get_r o j.
Proof.
  intros H. unfold reg_move_from. cbv zeta.
  change (3 <=? 1) with false. change (2 <=? 1) with false.
  change (1 <=? 1) with true. cbv iota.
  rewrite !get_set_r_other
    by (apply group_index_ne with (k := 1); try assumption; lia).
  reflexivity.
Qed.

Lemma mem_ldl_odd :
  Z.odd c = true ->
  r (mem_ldl o op efa c) =
    <[Z.to_nat c := i960_read_w o (u32 (efa + 4))]> (r o).
Proof.
  intros H. unfold mem_ldl. cbv zeta.
  rewrite (lor_odd_1 c H), Z.lor_0_r.
  unfold set_r at 1. cbn [r]. unfold set_r at 2. cbn [r].
  rewrite list_insert_insert_eq. reflexivity.
Qed.

End MultiWord.

(** A store reads its words from the registers of the group only: two
    states with the same memory whose register files agree on the group
    store the same bytes. *)
Lemma mem_stl_reads_pair (o1 o2 : i960) (op efa c : Z) :
  0 <= c ->
  mem o1 = mem o2 ->
  (forall j, Z.shiftr j 1 = Z.shiftr c 1 -> get_r o1 j = get_r o2 j) ->
  mem (mem_stl o1 op efa c) = mem (mem_stl o2 op efa c).
Proof.
  intros Hc Hm Hg.
  assert (E : forall i, 0 <= i < 2 ->
                get_r o1 (Z.lor c i) = get_r o2 (Z.lor c i)).
  { intros i Hi. apply Hg. apply lor_in_group; lia. }
  unfold mem_stl, i960_write_w, set_mem, get_r.
  cbn [mem r]. unfold get_r in E.
  rewrite Hm, (E 0), (E 1) by lia. reflexivity.
Qed.

Lemma mem_stq_reads_group (o1 o2 : i960) (op efa c : Z) :
  0 <= c ->
  mem o1 = mem o2 ->
  (forall j, Z.shiftr j 2 = Z.shiftr c 2 -> get_r o1 j = get_r o2 j) ->
  mem (mem_stt o1 op efa c) = mem (mem_stt o2 op efa c) /\
  mem (mem_stq o1 op efa c) = mem (mem_stq o2 op efa c).
Proof.
  intros Hc Hm Hg.
  assert (E : forall i, 0 <= i < 4 ->
                get_r o1 (Z.lor c i) = get_r o2 (Z.lor c i)).
  { intros i Hi. apply Hg. apply lor_in_group; lia. }
  unfold mem_stt, mem_stq, i960_write_w, set_mem, get_r.
  cbn [mem r]. unfold get_r in E.
  rewrite Hm, (E 0), (E 1), (E 2), (E 3) by lia.
  split; reflexivity.
Qed.

(** ** call / ret *)

Lemma r_i960_stx_loop (n : nat) (efa c : Z) :
  forall i o, r (i960_stx_loop n i o efa c) = r o.
Proof.
  induction n as [|n IH]; intros i o; [reflexivity|].
  cbn [i960_stx_loop]. rewrite IH. reflexivity.
Qed.

Lemma ip_i960_stx_loop (n : nat) (efa c : Z) :
  forall i o, ip (i960_stx_loop n i o efa c) = ip o.
Proof.
  induction n as [|n IH]; intros i o; [reflexivity|].
  cbn [i960_stx_loop]. rewrite IH. reflexivity.
Qed.

Lemma ip_i960_ldx_loop (n : nat) (efa c : Z) :
  forall i o, ip (i960_ldx_loop n i o efa c) = ip o.
Proof.
  induction n as [|n IH]; intros i o; [reflexivity|].
  cbn [i960_ldx_loop]. rewrite IH. reflexivity.
Qed.

(** The reload loop writes [r[c + i]] and upwards only. *)
Lemma get_r_i960_ldx_loop_below (n : nat) (efa c j : Z) :
  forall i o, 0 <= j < c + i ->
    get_r (i960_ldx_loop n i o efa c) j = get_r o j.
Proof.
  induction n as [|n IH]; intros i o Hj; [reflexivity|].
  cbn [i960_ldx_loop]. rewrite IH by lia.
  apply get_set_r_other. lia.
Qed.

(** The flat memory returns the word last written at an address. *)
Lemma u32_add_ne (a k1 k2 : Z) :
  0 <= k1 < 4 -> 0 <= k2 < 4 -> k1 <> k2 -> u32 (a + k1) <> u32 (a + k2).
Proof.
  intros H1 H2 Hne E. unfold u32 in E.
  pose proof (Z.div_mod (a + k1) (2^32) ltac:(lia)).
  pose proof (Z.div_mod (a + k2) (2^32) ltac:(lia)).
  assert (Hd : k1 - k2 = 2^32 * ((a + k1) / 2^32 - (a + k2) / 2^32)) by lia.
  assert (Hz : (a + k1) / 2^32 - (a + k2) / 2^32 = 0) by lia.
  lia.
Qed.

Lemma word_of_bytes (x : Z) :
  is_u32 x ->
  Z.lor (Z.lor (u8 x) (Z.shiftl (u8 (Z.shiftr x 8)) 8))
        (Z.lor (Z.shiftl (u8 (Z.shiftr x 16)) 16)
               (Z.shiftl (u8 (Z.shiftr x 24)) 24)) = x.
Proof.
  intros Hx. unfold is_u32 in Hx. unfold u8.
  apply Z.bits_inj'. intros n Hn.
  rewrite !Z.lor_spec, !Z.shiftl_spec by lia.
  destruct (Z.lt_ge_cases n 8).
  - rewrite Z.mod_pow2_bits_low by lia.
    rewrite !(Z.testbit_neg_r _ (n - _)) by lia.
    rewrite !orb_false_r. reflexivity.
  - rewrite (Z.mod_pow2_bits_high x) by lia.
    destruct (Z.lt_ge_cases n 16).
    + rewrite Z.mod_pow2_bits_low by lia.
      rewrite !(Z.testbit_neg_r _ (n - 16)), !(Z.testbit_neg_r _ (n - 24))
        by lia.
      rewrite Z.shiftr_spec by lia. rewrite !orb_false_r. cbn [orb].
      f_equal. lia.
    + rewrite (Z.mod_pow2_bits_high _ 8 (n - 8)) by lia.
      destruct (Z.lt_ge_cases n 24).
      * rewrite Z.mod_pow2_bits_low by lia.
        rewrite !(Z.testbit_neg_r _ (n - 24)) by lia.
        rewrite Z.shiftr_spec by lia. rewrite !orb_false_r. cbn [orb].
        f_equal. lia.
      * rewrite (Z.mod_pow2_bits_high _ 8 (n - 16)) by lia.
        cbn [orb].
        destruct (Z.lt_ge_cases n 32).
        -- rewrite Z.mod_pow2_bits_low by lia.
           rewrite Z.shiftr_spec by lia. f_equal. lia.
        -- rewrite Z.mod_pow2_bits_high by lia.
           symmetry. apply Z.bits_above_log2; [lia|].
           destruct (Z.eq_dec x 0) as [-> |]; [simpl; lia|].
           apply Z.log2_lt_pow2; [lia|].
           apply Z.lt_le_trans with (2^32); [lia|].
           apply Z.pow_le_mono_r; lia.
Qed.

Lemma i960_read_w_write_w (o : i960) (addr x : Z) :
  is_u32 x -> i960_read_w (i960_write_w o addr x) addr = x.
Proof.
  intros Hx. unfold i960_read_w, i960_write_w, set_mem, mem_byte, put_byte.
  cbn [mem].
  pose proof (u32_add_ne addr 0 1) as N01.
  pose proof (u32_add_ne addr 0 2) as N02.
  pose proof (u32_add_ne addr 0 3) as N03.
  pose proof (u32_add_ne addr 1 2) as N12.
  pose proof (u32_add_ne addr 1 3) as N13.
  pose proof (u32_add_ne addr 2 3) as N23.
  rewrite Z.add_0_r in N01, N02, N03.
  rewrite !lookup_insert.
  repeat case_decide; try (exfalso; lia);
    try (exfalso; (apply N01 || apply N02 || apply N03 ||
                   apply N12 || apply N13 || apply N23);
         (lia || congruence)).
  cbn [default]. apply word_of_bytes, Hx.
Qed.

Lemma get_r_set_ip (o : i960) (v k : Z) : get_r (set_ip o v) k = get_r o k.
Proof. reflexivity. Qed.

(** What [call] followed by [ret] leaves behind, for every state with a
    32-entry register file and every target: [ip] is back at the RIP that
    [call] captured; r0 (PFP), r1 (SP) and r2 (RIP) keep the values [call]
    gave them; r3..r15 are untouched by both.  (The window saved and
    reloaded is r16..r31.) *)
Lemma i960_call_ret_effect (o : i960) (efa : Z) :
  length (r o) = 32%nat ->
  let o' := i960_ret (i960_call o efa) in
  ip o' = ip o /\
  get_r o' I960_RIP = ip o /\
  get_r o' I960_PFP = get_r o I960_FP /\
  get_r o' I960_SP =
    u32 (Z.land (u32 (get_r o I960_SP + 63)) (u32_not 63) + 64) /\
  (forall j, 3 <= j < 16 -> get_r o' j = get_r o j).
Proof.
  intros Hlen. cbv zeta. unfold i960_ret, i960_call, i960_b, i960_ldx,
    i960_stx. cbv zeta.
  unfold I960_RIP, I960_PFP, I960_SP, I960_FP.
  set (fp := Z.land (u32 (get_r o 1 + 63)) (u32_not 63)).
  set (o1 := set_r o 2 (ip o)).
  set (o2 := i960_stx_loop 16 0 o1 (get_r o1 31) 16).
  assert (Hr2 : r o2 = r o1) by apply r_i960_stx_loop.
  assert (Hget2 : forall k, get_r o2 k = get_r o1 k)
    by (intros k; unfold get_r; rewrite Hr2; reflexivity).
  assert (Hlen1 : length (r o1) = 32%nat)
    by (unfold o1; rewrite length_set_r; exact Hlen).
  assert (Hlen2 : length (r o2) = 32%nat) by (rewrite Hr2; exact Hlen1).
  set (o3 := set_r o2 0 (get_r o2 31)).
  set (o4 := set_r o3 31 fp).
  set (o5 := set_r o4 1 (u32 (fp + 64))).
  set (oc := set_ip o5 efa).
  set (q1 := set_r oc 31 (Z.land (get_r oc 0) (u32_not 63))).
  set (q2 := i960_ldx_loop 16 0 q1 (get_r q1 31) 16).
  assert (Hlow : forall k, 0 <= k < 16 -> get_r q2 k = get_r o5 k).
  { intros k Hk. unfold q2. rewrite get_r_i960_ldx_loop_below by lia.
    unfold q1. rewrite get_set_r_other by lia. apply get_r_set_ip. }
  assert (Hlen3 : length (r o3) = 32%nat)
    by (unfold o3; rewrite length_set_r; exact Hlen2).
  assert (Hlen4 : length (r o4) = 32%nat)
    by (unfold o4; rewrite length_set_r; exact Hlen3).
  assert (H2 : get_r o5 2 = ip o).
  { unfold o5, o4, o3. rewrite !get_set_r_other by lia.
    rewrite Hget2. unfold o1. apply get_set_r_same. rewrite Hlen. lia. }
  split; [|split; [|split; [|split]]].
  - unfold set_ip at 1. cbn [ip]. rewrite Hlow by lia. exact H2.
  - rewrite get_r_set_ip, Hlow by lia. exact H2.
  - rewrite get_r_set_ip, Hlow by lia.
    unfold o5, o4. rewrite !get_set_r_other by lia.
    unfold o3. rewrite get_set_r_same by (rewrite Hlen2; lia).
    rewrite Hget2. unfold o1. apply get_set_r_other. lia.
  - rewrite get_r_set_ip, Hlow by lia. unfold o5.
    apply get_set_r_same. rewrite Hlen4. lia.
  - intros j Hj. rewrite get_r_set_ip, Hlow by lia. unfold o5, o4, o3.
    rewrite !get_set_r_other by lia. rewrite Hget2.
    unfold o1. apply get_set_r_other. lia.
Qed.

(** C3 ([i960_call], [i960_ret]; the code departs from the
    specification).
    Scenario 4 of the spec: SP = 0x1040, FP = 0x1000, ip = 0x2004 past the
    [call], locals r3 = 0x33, r15 = 0xff.  After [call] and [ret], [ip] is
    the captured RIP, but r0, r1 and r2 are not what they were before the
    call: nothing reloads them, since both the save and the reload work on
    r16..r31. *)
Theorem i960_call_ret_locals_not_restored :
  let o := set_r (set_r (set_r (set_r (set_ip i960_zero 0x2004)
                                      I960_SP 0x1040)
                               I960_FP 0x1000) 3 0x33) 15 0xff in
  let o' := i960_ret (i960_call o 0x3000) in
  ip o' = 0x2004 /\
  (get_r o 0 = 0 /\ get_r o' 0 = 0x1000) /\
  (get_r o 1 = 0x1040 /\ get_r o' 1 = 0x1080) /\
  (get_r o 2 = 0 /\ get_r o' 2 = 0x2004) /\
  get_r o' 3 = 0x33 /\ get_r o' 15 = 0xff.
Proof. vm_compute. repeat split; reflexivity. Qed.

(** The window itself does not survive either: the sixteen words are
    stored one byte apart, so each store overwrites three bytes of the one
    before.  With g0 = 0x11223344 and g1 = 0x55667788 (r16, r17) and
    g2..g14 zero, [call] then [ret] bring back g0 = 0x00008844. *)
Example i960_call_ret_window_overlaps :
  let o := set_r (set_r (set_r (set_r i960_zero I960_SP 0x1040)
                               I960_FP 0x1000) 16 0x11223344)
                 17 0x55667788 in
  let o' := i960_ret (i960_call o 0x3000) in
  get_r o 16 = 0x11223344 /\ get_r o' 16 = 0x8844.
Proof. vm_compute. split; reflexivity. Qed.

(** ** The condition code across instructions *)

Lemma testbit_cc_high (cc n : Z) :
  0 <= cc <= 7 -> 3 <= n -> Z.testbit cc n = false.
Proof.
  intros Hcc Hn. destruct (Z.eq_dec cc 0) as [-> |]; [apply Z.bits_0|].
  apply Z.bits_above_log2; [lia|].
  apply Z.lt_le_trans with 3; [|lia].
  apply Z.log2_lt_pow2; [lia|]. change (2^3) with 8. lia.
Qed.

Lemma testbit_not_cc_mask (n : Z) :
  3 <= n < 32 -> Z.testbit (u32_not I960_CC_MASK) n = true.
Proof.
  intros Hn. change (u32_not I960_CC_MASK) with (Z.shiftl (Z.ones 29) 3).
  rewrite Z.shiftl_spec by lia. apply Z.ones_spec_low. lia.
Qed.

Lemma land_set_cond (x cc : Z) :
  0 <= cc <= 7 ->
  Z.land (Z.lor (Z.land x (u32_not I960_CC_MASK)) cc) I960_CC_MASK = cc.
Proof.
  intros Hcc. rewrite Z.land_lor_distr_l, <- Z.land_assoc.
  change (Z.land (u32_not I960_CC_MASK) I960_CC_MASK) with 0.
  rewrite Z.land_0_r, Z.lor_0_l.
  change I960_CC_MASK with (Z.ones 3). rewrite Z.land_ones by lia.
  apply Z.mod_small. change (2^3) with 8. lia.
Qed.

Lemma set_cond_frame (x cc n : Z) :
  0 <= cc <= 7 -> 3 <= n < 32 ->
  Z.testbit (Z.lor (Z.land x (u32_not I960_CC_MASK)) cc) n = Z.testbit x n.
Proof.
  intros Hcc Hn.
  rewrite Z.lor_spec, Z.land_spec, testbit_not_cc_mask by assumption.
  rewrite (testbit_cc_high cc n) by lia.
  rewrite andb_true_r, orb_false_r. reflexivity.
Qed.

Lemma ac_set_r (o : i960) (c v : Z) : ac (set_r o c v) = ac o.
Proof. reflexivity. Qed.

Lemma ac_set_ip (o : i960) (v : Z) : ac (set_ip o v) = ac o.
Proof. reflexivity. Qed.

Lemma ac_i960_stx_loop (n : nat) (efa c : Z) :
  forall i o, ac (i960_stx_loop n i o efa c) = ac o.
Proof.
  induction n as [|n IH]; intros i o; [reflexivity|].
  cbn [i960_stx_loop]. rewrite IH. reflexivity.
Qed.

Lemma ac_i960_ldx_loop (n : nat) (efa c : Z) :
  forall i o, ac (i960_ldx_loop n i o efa c) = ac o.
Proof.
  induction n as [|n IH]; intros i o; [reflexivity|].
  cbn [i960_ldx_loop]. rewrite IH. reflexivity.
Qed.

Lemma ac_i960_call (o : i960) (efa : Z) : ac (i960_call o efa) = ac o.
Proof.
  unfold i960_call, i960_b, i960_stx. cbv zeta.
  rewrite ac_set_ip, !ac_set_r, ac_i960_stx_loop. apply ac_set_r.
Qed.

Lemma ac_i960_ret (o : i960) : ac (i960_ret o) = ac o.
Proof.
  unfold i960_ret, i960_b, i960_ldx. cbv zeta.
  rewrite ac_set_ip, ac_i960_ldx_loop. apply ac_set_r.
Qed.

(** The carry out of the two-step adders is 0 or 1. *)
Lemma u32_adc_carry (x y c : Z) :
  is_u32 x -> is_u32 y -> 0 <= c <= 1 -> 0 <= snd (u32_adc x y c) <= 1.
Proof.
  unfold is_u32, u32_adc, u32_add, u32. intros Hx Hy Hc. cbn [snd].
  destruct (Z.lt_ge_cases (y + c) (2^32)) as [Hs|Hs].
  - rewrite (Z.mod_small (y + c)) by lia.
    destruct (Z.ltb_spec (y + c) y); [lia|].
    destruct (Z.ltb_spec ((x + (y + c)) mod 2^32) x); simpl; lia.
  - assert (E : y + c = 2^32) by lia. rewrite E.
    change (2^32 mod 2^32) with 0. rewrite Z.add_0_r, Z.mod_small by lia.
    destruct (Z.ltb_spec 0 y), (Z.ltb_spec x x); simpl; lia.
Qed.

Lemma u32_sbb_carry (x y c : Z) :
  is_u32 x -> is_u32 y -> 0 <= c <= 1 -> 0 <= snd (u32_sbb x y c) <= 1.
Proof.
  unfold is_u32, u32_sbb, u32_add, u32_sub, u32. intros Hx Hy Hc. cbn [snd].
  destruct (Z.lt_ge_cases (y + c) (2^32)) as [Hs|Hs].
  - rewrite (Z.mod_small (y + c)) by lia.
    destruct (Z.ltb_spec (y + c) y); [lia|].
    destruct (Z.gtb_spec ((x - (y + c)) mod 2^32) x); simpl; lia.
  - assert (E : y + c = 2^32) by lia. rewrite E.
    change (2^32 mod 2^32) with 0. rewrite Z.sub_0_r, Z.mod_small by lia.
    destruct (Z.ltb_spec 0 y), (Z.gtb_spec x x); simpl; lia.
Qed.

(** The code [addc] / [subc] leave: carry in bit 1, overflow in bit 0. *)
Lemma reg_addc_ac (o : i960) (op a b c : Z) :
  is_u32 a -> is_u32 b ->
  exists cc, 0 <= cc <= 3 /\
    ac (reg_addc o op a b c) = Z.lor (Z.land (ac o) (u32_not I960_CC_MASK)) cc.
Proof.
  intros Ha Hb. unfold reg_addc. cbv zeta.
  set (cin := Z.b2z (truthy (Z.land (ac o) 2))).
  assert (Hcin : 0 <= cin <= 1)
    by (unfold cin; destruct (truthy _); simpl; lia).
  assert (Hco : 0 <= snd (if truthy (u32_bit_select op (7 + 1))
                          then u32_sbb a b cin else u32_adc a b cin) <= 1).
  { destruct (truthy (u32_bit_select op (7 + 1)));
      [apply u32_sbb_carry | apply u32_adc_carry]; assumption. }
  destruct (if truthy (u32_bit_select op (7 + 1))
            then u32_sbb a b cin else u32_adc a b cin) as [res co].
  cbn [snd] in Hco.
  exists (Z.lor (Z.shiftl co 1)
                (Z.b2z (i32_check_overflow (i32 a) (i32 b) (i32 res)))).
  split; [|reflexivity].
  assert (co = 0 \/ co = 1) as [-> | ->] by lia;
    destruct (i32_check_overflow (i32 a) (i32 b) (i32 res));
    vm_compute; split; discriminate.
Qed.

Lemma reg_addc_cond_code (o : i960) (op a b c : Z) :
  is_u32 a -> is_u32 b ->
  0 <= cond_code (reg_addc o op a b c) <= 3.
Proof.
  intros Ha Hb. destruct (reg_addc_ac o op a b c Ha Hb) as (cc & Hcc & E).
  unfold cond_code. rewrite E, land_set_cond by lia. exact Hcc.
Qed.

Create HintDb ac_keeps.

Section Keeps.

(** [P] holds of the codes that compare, test and scan operations
    write. *)
Variable P : Z -> bool.
Hypothesis P0 : P 0 = true.
Hypothesis P1 : P 1 = true.
Hypothesis P2 : P 2 = true.
Hypothesis P4 : P 4 = true.

Lemma keeps_refl (x : Z) : keeps P x x.
Proof. split; [|split; [|split]]; auto. Qed.

Lemma keeps_trans (x y z : Z) : keeps P x y -> keeps P y z -> keeps P x z.
Proof.
  intros (H1 & H2 & H3 & H4) (K1 & K2 & K3 & K4).
  split; [auto|]. split; [|split; [auto|]].
  - intros n Hn Hn8. rewrite K2, H2 by assumption. reflexivity.
  - intros Hz. destruct (K4 Hz) as [Hy|Hy]; [apply H4, Hy|].
    right. rewrite <- (H2 12) by lia. exact Hy.
Qed.

Lemma keeps_set_cond (x cc : Z) :
  0 <= cc <= 7 -> P cc = true ->
  keeps P x (Z.lor (Z.land x (u32_not I960_CC_MASK)) cc).
Proof.
  intros Hr Hv.
  assert (F : forall n, 3 <= n < 32 ->
            Z.testbit (Z.lor (Z.land x (u32_not I960_CC_MASK)) cc) n
            = Z.testbit x n)
    by (intros n Hn; apply set_cond_frame; assumption).
  split; [|split; [|split]].
  - intros _. rewrite land_set_cond by exact Hr. exact Hv.
  - intros n Hn _. apply F, Hn.
  - rewrite F by lia. auto.
  - rewrite F by lia. auto.
Qed.

Lemma keeps_overflow_flag (x : Z) :
  Z.testbit x 12 = true ->
  keeps P x (Z.lor x (u32_bit_mask I960_OF_POS)).
Proof.
  intros Hm. change (u32_bit_mask I960_OF_POS) with (2^8).
  split; [|split; [|split]].
  - rewrite Z.land_lor_distr_l.
    change (Z.land (2^8) I960_CC_MASK) with 0. rewrite Z.lor_0_r. auto.
  - intros n Hn Hn8. rewrite Z.lor_spec, Z.pow2_bits_false by lia.
    apply orb_false_r.
  - intros _. rewrite Z.lor_spec, Z.pow2_bits_true by lia.
    apply orb_true_r.
  - intros _. right. exact Hm.
Qed.

Section Step.
Variable x : Z.
Variable o : i960.
Hypothesis H : keeps P x (ac o).

Lemma keeps_set_r c v : keeps P x (ac (set_r o c v)).
Proof. exact H. Qed.
Lemma keeps_set_ip v : keeps P x (ac (set_ip o v)).
Proof. exact H. Qed.
Lemma keeps_set_pc v : keeps P x (ac (set_pc o v)).
Proof. exact H. Qed.
Lemma keeps_set_tc v : keeps P x (ac (set_tc o v)).
Proof. exact H. Qed.
Lemma keeps_i960_fault t : keeps P x (ac (i960_fault o t)).
Proof. exact H. Qed.
Lemma keeps_i960_calls t : keeps P x (ac (i960_calls o t)).
Proof. exact H. Qed.
Lemma keeps_i960_write_b addr v : keeps P x (ac (i960_write_b o addr v)).
Proof. exact H. Qed.
Lemma keeps_i960_write_s addr v : keeps P x (ac (i960_write_s o addr v)).
Proof. exact H. Qed.
Lemma keeps_i960_write_w addr v : keeps P x (ac (i960_write_w o addr v)).
Proof. exact H. Qed.
Lemma keeps_i960_call efa : keeps P x (ac (i960_call o efa)).
Proof. rewrite ac_i960_call. exact H. Qed.
Lemma keeps_i960_ret : keeps P x (ac (i960_ret o)).
Proof. rewrite ac_i960_ret. exact H. Qed.

Lemma keeps_i960_set_cond cc :
  0 <= cc <= 7 -> P cc = true -> keeps P x (ac (i960_set_cond o cc)).
Proof.
  intros Hr Hv. eapply keeps_trans; [exact H|].
  apply keeps_set_cond; assumption.
Qed.

Lemma keeps_i960_on_overflow : keeps P x (ac (i960_on_overflow o)).
Proof.
  unfold i960_on_overflow.
  destruct (truthy (u32_bit_select (ac o) I960_OM_POS)) eqn:Hm; [|exact H].
  eapply keeps_trans; [exact H|]. apply keeps_overflow_flag.
  rewrite truthy_bit in Hm. exact Hm.
Qed.
End Step.

Hint Resolve keeps_refl keeps_set_r keeps_set_ip keeps_set_pc
  keeps_set_tc keeps_i960_fault keeps_i960_calls keeps_i960_write_b
  keeps_i960_write_s keeps_i960_write_w keeps_i960_call keeps_i960_ret
  keeps_i960_set_cond keeps_i960_on_overflow : ac_keeps.
Hint Extern 1 (_ <= _ <= _) => lia : ac_keeps.

Ltac unfold_glue :=
  unfold i960_cmp, i960_concmp, i960_on_undef, i960_fpu, i960_b, i960_bal,
    i960_bcc, i960_faultcc, i960_div_check, i960_check_em,
    i960_read_lock, i960_write_unlock, i960_lock, i960_unlock.

Ltac ac_crush :=
  unfold_glue;
  repeat first
    [ progress cbv zeta
    | progress cbn [fst snd]
    | match goal with
      | |- context [if ?b then _ else _] => destruct b eqn:?
      | |- context [match ?x with _ => _ end] => destruct x eqn:?
      end ];
  auto 12 with ac_keeps.

Variables (o : i960) (op a b c : Z).

Lemma reg_log_keeps : keeps P (ac o) (ac (reg_log o op a b c)).
Proof.
  unfold reg_log, reg_notbit, reg_and, reg_andnot, reg_setbit, reg_notand,
    reg_xor, reg_or, reg_nor, reg_xnor, reg_not, reg_ornot, reg_clrbit,
    reg_notor, reg_nand, reg_alterbit.
  ac_crush.
Qed.

Lemma reg_add_keeps (o1 : i960) (op1 a1 b1 : Z) :
  keeps P (ac o) (ac o1) -> keeps P (ac o) (ac (reg_add o1 op1 a1 b1 c)).
Proof. intros H. unfold reg_add. ac_crush. Qed.

Lemma reg_59_keeps : keeps P (ac o) (ac (reg_59 o op a b c)).
Proof.
  unfold reg_59, reg_shift, reg_addx, reg_cmpe, reg_shro, reg_shrdi,
    reg_shri, reg_shlo, reg_rotate, reg_shli.
  ac_crush; apply reg_add_keeps; auto with ac_keeps.
Qed.

Lemma reg_5A_keeps : keeps P (ac o) (ac (reg_5A o op a b c)).
Proof.
  unfold reg_5A, reg_misc, reg_cmp, reg_chkbit, reg_bswap, reg_scanbyte.
  ac_crush; apply reg_add_keeps; ac_crush.
Qed.

Lemma reg_move_from_keeps (k src : Z) :
  keeps P (ac o) (ac (reg_move_from k o a c src)).
Proof.
  unfold reg_move_from. cbv zeta.
  destruct (3 <=? k), (2 <=? k), (1 <=? k); auto 8 with ac_keeps.
Qed.

Lemma reg_5C_keeps : keeps P (ac o) (ac (reg_5C o op a b c)).
Proof.
  unfold reg_5C, reg_move, reg_eshro. cbv zeta.
  repeat case_match; auto using reg_move_from_keeps with ac_keeps.
Qed.

Lemma reg_5B_keeps :
  truthy (u32_bit_select op (7 + 2)) = true ->
  keeps P (ac o) (ac (reg_5B o op a b c)).
Proof.
  intros HF2. unfold reg_5B. cbv zeta. rewrite HF2. cbn [negb].
  unfold reg_inten, reg_intdis. ac_crush.
Qed.

Lemma reg_core_keeps :
  is_addc (REG_core op a b c) = false ->
  keeps P (ac o) (ac (reg_core o op a b c)).
Proof.
  unfold is_addc, reg_core. intros Hn.
  repeat case_match;
    auto using keeps_refl, reg_log_keeps, reg_59_keeps, reg_5A_keeps,
      reg_5C_keeps.
  apply reg_5B_keeps. cbn [Z.eqb Pos.eqb andb] in Hn.
  apply negb_false_iff in Hn. exact Hn.
Qed.

Lemma reg_64_keeps :
  truthy (u32_bit_select op (7 + 2)) = false ->
  keeps P (ac o) (ac (reg_64 o op a b c)).
Proof.
  intros HF2. unfold reg_64. cbv zeta. rewrite HF2.
  unfold reg_scanbit. ac_crush.
Qed.

Lemma reg_65_keeps : keeps P (ac o) (ac (reg_65 o op a b c)).
Proof.
  unfold reg_65, reg_modpc, reg_modtc, reg_extract, reg_modify. ac_crush.
Qed.

Lemma reg_67_keeps : keeps P (ac o) (ac (reg_67 o op a b c)).
Proof. unfold reg_67, reg_ediv, reg_emul. ac_crush. Qed.

Lemma reg_supp_keeps :
  is_modac (REG_supp op a b c) = false ->
  keeps P (ac o) (ac (reg_supp o op a b c)).
Proof.
  unfold is_modac, reg_supp. intros Hn.
  repeat case_match;
    auto using keeps_refl, reg_65_keeps, reg_67_keeps;
    try (unfold reg_synmov, reg_atomic, reg_66; ac_crush; fail).
  apply reg_64_keeps. cbn [Z.eqb Pos.eqb andb] in Hn. exact Hn.
Qed.

Lemma reg_fpu_keeps : keeps P (ac o) (ac (reg_fpu o op a b c)).
Proof. unfold reg_fpu. ac_crush. Qed.

Lemma reg_muldiv_keeps : keeps P (ac o) (ac (reg_muldiv o op a b c)).
Proof.
  unfold reg_muldiv, reg_74, reg_70, reg_muli, reg_divi, reg_remi,
    reg_divo, reg_mulo.
  ac_crush.
Qed.

Lemma reg_cond_keeps : keeps P (ac o) (ac (reg_cond o op a b c)).
Proof.
  unfold reg_cond, reg_selcc, reg_addcc.
  ac_crush; apply reg_add_keeps; auto with ac_keeps.
Qed.

Lemma mem_op_keeps (efa : Z) : keeps P (ac o) (ac (mem_op o op efa c)).
Proof.
  unfold mem_op, mem_funcs, mem_load, mem_store, mem_ldb, mem_lds, mem_ld,
    mem_ldl, mem_ldt, mem_ldq, mem_stb, mem_sts, mem_st, mem_stl, mem_stt,
    mem_stq.
  ac_crush.
Qed.

Lemma i960_ctrl_keeps (ip0 : Z) : keeps P (ac o) (ac (i960_ctrl o op ip0)).
Proof. unfold i960_ctrl, ctrl_op. ac_crush. Qed.

Lemma i960_cobr_keeps (ip0 : Z) : keeps P (ac o) (ac (i960_cobr o op ip0)).
Proof.
  unfold i960_cobr, cobr_op, cobr_testcc, cobr_bb, cobr_cmpbcc. ac_crush.
Qed.

(** [addc] / [subc] change the condition code only; the value they write
    need not be one-hot. *)
Lemma reg_addc_keeps :
  (forall cc, P cc = true) ->
  is_u32 a -> is_u32 b ->
  keeps P (ac o) (ac (reg_addc o op a b c)).
Proof.
  intros HP Ha Hb.
  destruct (reg_addc_ac o op a b c Ha Hb) as (cc & Hcc & ->).
  apply keeps_set_cond; [lia|apply HP].
Qed.

End Keeps.

Lemma exec_keeps_one_hot (o : i960) (i : instr) :
  is_addc i = false -> is_modac i = false ->
  keeps cc_valid (ac o) (ac (exec o i)).
Proof.
  intros Ha Hm.
  destruct i; cbn [exec];
    auto using reg_core_keeps, reg_supp_keeps, reg_fpu_keeps,
      reg_muldiv_keeps, reg_cond_keeps, mem_op_keeps, i960_ctrl_keeps,
      i960_cobr_keeps.
Qed.

Lemma exec_keeps_frame (o : i960) (i : instr) :
  operands_u32 i -> is_modac i = false ->
  keeps (fun _ => true) (ac o) (ac (exec o i)).
Proof.
  intros Hw Hm.
  destruct (is_addc i) eqn:Ha.
  - destruct i; try discriminate Ha. cbn [exec operands_u32] in *.
    unfold is_addc in Ha. apply andb_prop in Ha. destruct Ha as [E F].
    apply Z.eqb_eq in E. apply negb_true_iff in F.
    unfold reg_core. rewrite E. unfold reg_5B. cbv zeta. rewrite F.
    cbn [negb]. destruct Hw. apply reg_addc_keeps; auto.
  - destruct i; cbn [exec];
      auto using reg_core_keeps, reg_supp_keeps, reg_fpu_keeps,
        reg_muldiv_keeps, reg_cond_keeps, mem_op_keeps, i960_ctrl_keeps,
        i960_cobr_keeps.
Qed.

Lemma run_keeps_one_hot (p : list instr) :
  forall o,
    Forall (fun i => is_addc i = false /\ is_modac i = false) p ->
    one_hot_cc o = true -> one_hot_cc (run o p) = true.
Proof.
  induction p as [|i p IH]; intros o Hp Ho; [exact Ho|].
  inversion Hp as [|? ? [Ha Hm] Hp']; subst.
  cbn [run fold_left]. apply IH; [exact Hp'|].
  destruct (exec_keeps_one_hot o i Ha Hm) as [H _]. apply H, Ho.
Qed.

(** * Further properties of the core *)

(** ** Bits of words *)

Lemma testbit_u32 (x n : Z) :
  0 <= n < 32 -> Z.testbit (u32 x) n = Z.testbit x n.
Proof.
  intros Hn. unfold u32. rewrite Z.testbit_mod_pow2 by lia.
  destruct (Z.ltb_spec n 32); [reflexivity|lia].
Qed.

Lemma testbit_u32_high (x n : Z) : 32 <= n -> Z.testbit (u32 x) n = false.
Proof.
  intros Hn. unfold u32. rewrite Z.testbit_mod_pow2 by lia.
  destruct (Z.ltb_spec n 32); [lia|reflexivity].
Qed.

Lemma u32_ext (x y : Z) :
  is_u32 x -> is_u32 y ->
  (forall n, 0 <= n < 32 -> Z.testbit x n = Z.testbit y n) -> x = y.
Proof.
  intros Hx Hy H. rewrite <- (u32_small x Hx), <- (u32_small y Hy).
  apply Z.bits_inj'. intros n Hn.
  destruct (Z.lt_ge_cases n 32).
  - rewrite !testbit_u32 by lia. apply H. lia.
  - rewrite !testbit_u32_high by lia. reflexivity.
Qed.

Lemma is_u32_u32 (x : Z) : is_u32 (u32 x).
Proof. apply u32_range. Qed.

Lemma land_31 (pos : Z) : Z.land pos 31 = pos mod 32.
Proof. change 31 with (Z.ones 5). apply Z.land_ones. lia. Qed.

Lemma pow2_lt_32 (k : Z) : 0 <= k < 32 -> 0 < 2^k < 2^32.
Proof.
  intros Hk. split; [apply Z.pow_pos_nonneg; lia|].
  apply Z.pow_lt_mono_r; lia.
Qed.

Lemma u32_bit_mask_pow2 (pos : Z) : u32_bit_mask pos = 2^(pos mod 32).
Proof.
  unfold u32_bit_mask, u32_shl. rewrite land_31, Z.shiftl_1_l.
  pose proof (Z.mod_pos_bound pos 32 ltac:(lia)) as Hk.
  apply u32_small. unfold is_u32. pose proof (pow2_lt_32 _ Hk). lia.
Qed.

Lemma low_mask_ones (count : Z) :
  0 <= count < 32 -> u32_not (u32_shl (u32_not 0) count) = Z.ones count.
Proof.
  intros Hc. pose proof (pow2_lt_32 count Hc) as HP.
  change (u32_not 0) with (2^32 - 1).
  unfold u32_not, u32_shl, u32. rewrite Z.shiftl_mul_pow2 by lia.
  replace ((2^32 - 1) * 2^count)
    with (2^32 - 2^count + (2^count - 1) * 2^32) by lia.
  rewrite Z.mod_add, (Z.mod_small (2^32 - 2^count)) by lia.
  unfold Z.lnot. rewrite Z.ones_equiv.
  replace (Z.pred (- (2^32 - 2^count)))
    with (Z.pred (2^count) + (-1) * 2^32) by lia.
  rewrite Z.mod_add by lia. apply Z.mod_small. lia.
Qed.

(** X1 ([u32_extract], [u32_bit_select], [u32_bit_mask]).  For a field
    narrower than a word, [u32_extract x pos count] is the [count]-bit
    number found [pos mod 32] bits up in [x]; [u32_bit_select] is the
    one-bit case, the bit of [x] at [pos mod 32]; [u32_bit_mask] is the
    power of two at that position. *)
Theorem u32_extract_field (x pos count : Z) :
  0 <= count < 32 ->
  u32_extract x pos count = (x / 2^(pos mod 32)) mod 2^count /\
  u32_bit_select x pos = u32_extract x pos 1 /\
  u32_bit_select x pos = Z.b2z (Z.testbit x (pos mod 32)) /\
  u32_bit_mask pos = 2^(pos mod 32).
Proof.
  intros Hc.
  pose proof (Z.mod_pos_bound pos 32 ltac:(lia)) as Hk.
  split; [|split; [|split]].
  - unfold u32_extract. rewrite low_mask_ones, land_31 by exact Hc.
    rewrite Z.land_ones, Z.shiftr_div_pow2 by lia. reflexivity.
  - unfold u32_extract, u32_bit_select.
    rewrite (low_mask_ones 1) by lia. reflexivity.
  - unfold u32_bit_select. rewrite land_31.
    replace (Z.land (Z.shiftr x (pos mod 32)) 1)
      with (Z.land (Z.shiftr x (pos mod 32)) (Z.ones 1)) by reflexivity.
    rewrite Z.land_ones by lia. change (2^1) with 2.
    rewrite <- Z.bit0_mod, Z.shiftr_spec by lia. rewrite Z.add_0_l.
    reflexivity.
  - apply u32_bit_mask_pow2.
Qed.

Lemma u32_extract_field_witness :
  0 <= 5 < 32 /\ u32_extract 0x12345678 36 5 = (0x12345678 / 2^4) mod 2^5.
Proof.
  split; [lia|]. apply (u32_extract_field 0x12345678 36 5). lia.
Defined.

Lemma is_u32_bits (x : Z) :
  0 <= x -> (forall n, 32 <= n -> Z.testbit x n = false) -> is_u32 x.
Proof.
  intros Hx H. split; [exact Hx|].
  destruct (Z.eq_dec x 0) as [-> |Hne]; [reflexivity|].
  apply Z.log2_lt_pow2; [lia|].
  destruct (Z.lt_ge_cases (Z.log2 x) 32) as [Hl|Hl]; [exact Hl|].
  pose proof (Z.bit_log2 x ltac:(lia)) as Hb.
  rewrite (H _ Hl) in Hb. discriminate.
Qed.

Lemma testbit_is_u32_high (x n : Z) :
  is_u32 x -> 32 <= n -> Z.testbit x n = false.
Proof.
  intros Hx Hn. rewrite <- (u32_small x Hx). apply testbit_u32_high, Hn.
Qed.

Lemma testbit_u32_not (x n : Z) :
  0 <= n < 32 -> Z.testbit (u32_not x) n = negb (Z.testbit x n).
Proof.
  intros Hn. unfold u32_not. rewrite testbit_u32 by lia.
  apply Z.lnot_spec. lia.
Qed.

Lemma testbit_bit_mask (pos n : Z) :
  0 <= n -> Z.testbit (u32_bit_mask pos) n = (pos mod 32 =? n).
Proof.
  intros Hn. rewrite u32_bit_mask_pow2.
  pose proof (Z.mod_pos_bound pos 32 ltac:(lia)).
  apply Z.pow2_bits_eqb. lia.
Qed.

Lemma is_u32_bit_mask (pos : Z) : is_u32 (u32_bit_mask pos).
Proof. unfold u32_bit_mask, u32_shl. apply is_u32_u32. Qed.

Lemma is_u32_u32_not (x : Z) : is_u32 (u32_not x).
Proof. apply is_u32_u32. Qed.

Lemma is_u32_land_l (x y : Z) : is_u32 x -> is_u32 (Z.land x y).
Proof.
  intros Hx. apply is_u32_bits.
  - apply Z.land_nonneg. left. apply Hx.
  - intros n Hn. rewrite Z.land_spec, (testbit_is_u32_high x n Hx Hn).
    reflexivity.
Qed.

Lemma is_u32_land_r (x y : Z) : is_u32 y -> is_u32 (Z.land x y).
Proof. rewrite Z.land_comm. apply is_u32_land_l. Qed.

Lemma is_u32_lor (x y : Z) : is_u32 x -> is_u32 y -> is_u32 (Z.lor x y).
Proof.
  intros Hx Hy. apply is_u32_bits.
  - apply Z.lor_nonneg. split; [apply Hx|apply Hy].
  - intros n Hn. rewrite Z.lor_spec, (testbit_is_u32_high x n Hx Hn),
      (testbit_is_u32_high y n Hy Hn). reflexivity.
Qed.

Lemma is_u32_lxor (x y : Z) : is_u32 x -> is_u32 y -> is_u32 (Z.lxor x y).
Proof.
  intros Hx Hy. apply is_u32_bits.
  - apply Z.lxor_nonneg. split; intros _; [apply Hy|apply Hx].
  - intros n Hn. rewrite Z.lxor_spec, (testbit_is_u32_high x n Hx Hn),
      (testbit_is_u32_high y n Hy Hn). reflexivity.
Qed.

Lemma is_u32_shiftr (x n : Z) : is_u32 x -> 0 <= n -> is_u32 (Z.shiftr x n).
Proof.
  unfold is_u32. intros Hx Hn. rewrite Z.shiftr_div_pow2 by lia.
  assert (0 < 2^n) by (apply Z.pow_pos_nonneg; lia).
  split; [apply Z.div_pos; lia|].
  apply Z.le_lt_trans with x; [|lia].
  apply Z.div_le_upper_bound; [lia|]. nia.
Qed.

(** ** Single-bit operations *)

(** X2 ([u32_setbit], [u32_clrbit], [u32_notbit], [reg_chkbit]).  On a
    word [x]: flipping a bit twice gives [x] back; setting a bit after
    clearing it is setting it; clearing after setting is clearing; the
    results are words; and [chkbit] reads the bit back: condition code 2
    after [setbit], 0 after [clrbit]. *)
Theorem bit_ops_algebra (o : i960) (op x pos c : Z) :
  is_u32 x ->
  u32_notbit (u32_notbit x pos) pos = x /\
  u32_setbit (u32_clrbit x pos) pos = u32_setbit x pos /\
  u32_clrbit (u32_setbit x pos) pos = u32_clrbit x pos /\
  (is_u32 (u32_setbit x pos) /\ is_u32 (u32_clrbit x pos) /\
   is_u32 (u32_notbit x pos)) /\
  cond_code (reg_chkbit o op pos (u32_setbit x pos) c) = 2 /\
  cond_code (reg_chkbit o op pos (u32_clrbit x pos) c) = 0 /\
  u32_bit_select (u32_notbit x pos) pos = 1 - u32_bit_select x pos.
Proof.
  intros Hx.
  pose proof (is_u32_bit_mask pos) as Hm.
  pose proof (Z.mod_pos_bound pos 32 ltac:(lia)) as Hk.
  assert (Hset : is_u32 (u32_setbit x pos))
    by (apply is_u32_lor; assumption).
  assert (Hclr : is_u32 (u32_clrbit x pos))
    by (apply is_u32_land_l; assumption).
  assert (Hnot : is_u32 (u32_notbit x pos))
    by (apply is_u32_lxor; assumption).
  assert (Hsel : forall y, u32_bit_select y pos
                           = Z.b2z (Z.testbit y (pos mod 32))).
  { intros y. apply (u32_extract_field y pos 1). lia. }
  split; [|split; [|split; [|split; [|split; [|split]]]]].
  - unfold u32_notbit. rewrite Z.lxor_assoc, Z.lxor_nilpotent.
    apply Z.lxor_0_r.
  - apply u32_ext; [apply is_u32_lor; assumption|exact Hset|].
    intros n Hn. unfold u32_setbit, u32_clrbit.
    rewrite !Z.lor_spec, Z.land_spec, testbit_u32_not by lia.
    destruct (Z.testbit x n), (Z.testbit (u32_bit_mask pos) n); reflexivity.
  - apply u32_ext; [apply is_u32_land_l; assumption|exact Hclr|].
    intros n Hn. unfold u32_setbit, u32_clrbit.
    rewrite !Z.land_spec, Z.lor_spec, testbit_u32_not by lia.
    destruct (Z.testbit x n), (Z.testbit (u32_bit_mask pos) n); reflexivity.
  - repeat split; assumption || apply Hset || apply Hclr || apply Hnot.
  - unfold reg_chkbit. rewrite Hsel. unfold u32_setbit.
    rewrite Z.lor_spec, testbit_bit_mask, Z.eqb_refl, orb_true_r by lia.
    apply cond_code_set_cond. lia.
  - unfold reg_chkbit. rewrite Hsel. unfold u32_clrbit.
    rewrite Z.land_spec, testbit_u32_not, testbit_bit_mask, Z.eqb_refl,
      andb_false_r by lia.
    apply cond_code_set_cond. lia.
  - rewrite !Hsel. unfold u32_notbit.
    rewrite Z.lxor_spec, testbit_bit_mask, Z.eqb_refl by lia.
    destruct (Z.testbit x (pos mod 32)); reflexivity.
Qed.

Lemma bit_ops_algebra_witness :
  is_u32 0x20 /\
  u32_notbit (u32_notbit 0x20 37) 37 = 0x20 /\
  cond_code (reg_chkbit i960_zero 0 37 (u32_setbit 0x20 37) 0) = 2.
Proof.
  assert (H : is_u32 0x20) by (unfold is_u32; lia).
  destruct (bit_ops_algebra i960_zero 0 0x20 37 0 H)
    as (H1 & _ & _ & _ & H2 & _).
  split; [exact H|]. split; [exact H1|exact H2].
Defined.

(** ** bswap *)

Lemma testbit_byte_field (x s d n : Z) :
  0 <= s -> 0 <= d -> 0 <= n ->
  Z.testbit (Z.shiftl (Z.land (Z.shiftr x s) 0xff) d) n
  = (d <=? n) && (n <? d + 8) && Z.testbit x (n - d + s).
Proof.
  intros Hs Hd Hn. rewrite Z.shiftl_spec by lia.
  destruct (Z.leb_spec d n) as [Hle|Hlt].
  - rewrite Z.land_spec, Z.shiftr_spec by lia.
    change 0xff with (Z.ones 8).
    rewrite Z.testbit_ones_nonneg by lia.
    destruct (Z.ltb_spec (n - d) 8), (Z.ltb_spec n (d + 8)); try lia;
      cbn [andb]; rewrite ?andb_false_r, ?andb_true_r; reflexivity.
  - rewrite Z.testbit_neg_r by lia. reflexivity.
Qed.

Lemma bswap_32_fields (x : Z) :
  bswap_32 x =
  Z.lor (Z.lor (Z.shiftl (Z.land (Z.shiftr x 0) 0xff) 24)
               (Z.shiftl (Z.land (Z.shiftr x 8) 0xff) 16))
        (Z.lor (Z.shiftl (Z.land (Z.shiftr x 16) 0xff) 8)
               (Z.shiftl (Z.land (Z.shiftr x 24) 0xff) 0)).
Proof. unfold bswap_32. rewrite Z.shiftr_0_r, Z.shiftl_0_r. reflexivity. Qed.

(** Bit [n] of the result is the bit of the same rank in the mirrored
    byte. *)
Lemma bswap_32_bits (x n : Z) :
  0 <= n < 32 ->
  Z.testbit (bswap_32 x) n = Z.testbit x (24 - 8 * (n / 8) + n mod 8).
Proof.
  intros Hn. rewrite bswap_32_fields.
  rewrite !Z.lor_spec, !testbit_byte_field by lia.
  destruct (Z.lt_ge_cases n 8); [|destruct (Z.lt_ge_cases n 16);
    [|destruct (Z.lt_ge_cases n 24)]];
  repeat match goal with
         | |- context [?a <=? ?b] => destruct (Z.leb_spec a b); try lia
         | |- context [?a <? ?b] => destruct (Z.ltb_spec a b); try lia
         end;
  cbn [andb orb]; rewrite ?orb_false_r; f_equal;
  Z.div_mod_to_equations; lia.
Qed.

Lemma is_u32_bswap_32 (x : Z) : 0 <= x -> is_u32 (bswap_32 x).
Proof.
  intros Hx. apply is_u32_bits.
  - unfold bswap_32.
    repeat (apply Z.lor_nonneg; split);
      try (apply Z.shiftl_nonneg); apply Z.land_nonneg; right; lia.
  - intros n Hn. rewrite bswap_32_fields.
    rewrite !Z.lor_spec, !testbit_byte_field by lia.
    repeat match goal with
           | |- context [?a <? ?b] => destruct (Z.ltb_spec a b); try lia
           end;
    rewrite !andb_false_r; reflexivity.
Qed.

(** X3 ([bswap_32], [reg_bswap]).  [bswap] reverses the four bytes of a
    word: byte [k] of the result is byte [3 - k] of the operand, the result
    is a word, and swapping twice gives the operand back. *)
Theorem bswap_32_involutive (x : Z) :
  is_u32 x ->
  is_u32 (bswap_32 x) /\
  (forall k, 0 <= k < 4 ->
     Z.land (Z.shiftr (bswap_32 x) (8 * k)) 0xff
     = Z.land (Z.shiftr x (8 * (3 - k))) 0xff) /\
  bswap_32 (bswap_32 x) = x.
Proof.
  intros Hx. assert (Hb : is_u32 (bswap_32 x))
    by (apply is_u32_bswap_32, Hx).
  split; [exact Hb|]. split.
  - intros k Hk. apply Z.bits_inj'. intros n Hn.
    rewrite !Z.land_spec, !Z.shiftr_spec by lia.
    change 0xff with (Z.ones 8). rewrite Z.testbit_ones_nonneg by lia.
    destruct (Z.ltb_spec n 8); [|rewrite !andb_false_r; reflexivity].
    rewrite !andb_true_r, bswap_32_bits by lia.
    f_equal. Z.div_mod_to_equations. lia.
  - apply u32_ext; [apply is_u32_bswap_32, Hb|exact Hx|].
    intros n Hn. rewrite bswap_32_bits by exact Hn.
    rewrite bswap_32_bits by (Z.div_mod_to_equations; lia).
    f_equal. Z.div_mod_to_equations. lia.
Qed.

Lemma bswap_32_involutive_witness :
  is_u32 0x11223344 /\ bswap_32 (bswap_32 0x11223344) = 0x11223344.
Proof.
  assert (H : is_u32 0x11223344) by (unfold is_u32; lia).
  split; [exact H|]. apply (bswap_32_involutive 0x11223344 H).
Defined.

(** ** Multi-precision adder helpers *)

(** X4 ([u32_add], [u32_adc], [u32_sub], [u32_sbb]).  On words, with a
    carry or borrow of 0 or 1 coming in, each helper returns the exact
    result split into a word and a carry (borrow) out of 0 or 1. *)
Theorem mp_adders_exact (x y c : Z) :
  is_u32 x -> is_u32 y -> 0 <= c <= 1 ->
  fst (u32_add x y) + 2^32 * snd (u32_add x y) = x + y /\
  fst (u32_adc x y c) + 2^32 * snd (u32_adc x y c) = x + y + c /\
  fst (u32_sub x y) - 2^32 * snd (u32_sub x y) = x - y /\
  fst (u32_sbb x y c) - 2^32 * snd (u32_sbb x y c) = x - y - c /\
  (is_u32 (fst (u32_add x y)) /\ is_u32 (fst (u32_adc x y c)) /\
   is_u32 (fst (u32_sub x y)) /\ is_u32 (fst (u32_sbb x y c))) /\
  (0 <= snd (u32_add x y) <= 1 /\ 0 <= snd (u32_adc x y c) <= 1 /\
   0 <= snd (u32_sub x y) <= 1 /\ 0 <= snd (u32_sbb x y c) <= 1).
Proof.
  unfold is_u32. intros Hx Hy Hc.
  assert (Hadd : forall p q, 0 <= p < 2^32 -> 0 <= q < 2^32 ->
            fst (u32_add p q) + 2^32 * snd (u32_add p q) = p + q /\
            0 <= snd (u32_add p q) <= 1).
  { intros p q Hp Hq. unfold u32_add, u32. cbn [fst snd].
    destruct (Z.lt_ge_cases (p + q) (2^32)).
    - rewrite Z.mod_small by lia.
      destruct (Z.ltb_spec (p + q) p); simpl; lia.
    - replace (p + q) with (p + q - 2^32 + 1 * 2^32) by lia.
      rewrite Z.mod_add, Z.mod_small by lia.
      destruct (Z.ltb_spec (p + q - 2^32) p); simpl; lia. }
  assert (Hsub : forall p q, 0 <= p < 2^32 -> 0 <= q < 2^32 ->
            fst (u32_sub p q) - 2^32 * snd (u32_sub p q) = p - q /\
            0 <= snd (u32_sub p q) <= 1).
  { intros p q Hp Hq. unfold u32_sub, u32. cbn [fst snd].
    destruct (Z.lt_ge_cases p q).
    - replace (p - q) with (p - q + 2^32 + (-1) * 2^32) by lia.
      rewrite Z.mod_add, Z.mod_small by lia.
      destruct (Z.gtb_spec (p - q + 2^32) p); simpl; lia.
    - rewrite Z.mod_small by lia.
      destruct (Z.gtb_spec (p - q) p); simpl; lia. }
  assert (Hin : fst (u32_add y c) + 2^32 * snd (u32_add y c) = y + c /\
                0 <= fst (u32_add y c) < 2^32 /\
                (snd (u32_add y c) = 1 -> fst (u32_add y c) = 0) /\
                0 <= snd (u32_add y c) <= 1).
  { unfold u32_add, u32. cbn [fst snd].
    pose proof (Z.mod_pos_bound (y + c) (2^32) ltac:(lia)).
    destruct (Z.lt_ge_cases (y + c) (2^32)).
    - rewrite Z.mod_small by lia.
      destruct (Z.ltb_spec (y + c) y); simpl; lia.
    - assert (E : y + c = 2^32) by lia. rewrite E.
      change (2^32 mod 2^32) with 0.
      destruct (Z.ltb_spec 0 y); simpl; lia. }
  destruct Hin as (Hin1 & Hin2 & Hin3 & Hin4).
  pose proof (Hadd x y Hx Hy) as [A1 A2].
  pose proof (Hsub x y Hx Hy) as [S1 S2].
  pose proof (Hadd x _ Hx Hin2) as [A3 A4].
  pose proof (Hsub x _ Hx Hin2) as [S3 S4].
  assert (Hadc : fst (u32_adc x y c) = fst (u32_add x (fst (u32_add y c))) /\
                 snd (u32_adc x y c)
                 = snd (u32_add y c) + snd (u32_add x (fst (u32_add y c)))).
  { unfold u32_adc. destruct (u32_add y c) as [a' c1].
    cbn [fst snd]. destruct (u32_add x a'). split; reflexivity. }
  assert (Hsbb : fst (u32_sbb x y c) = fst (u32_sub x (fst (u32_add y c))) /\
                 snd (u32_sbb x y c)
                 = snd (u32_add y c) + snd (u32_sub x (fst (u32_add y c)))).
  { unfold u32_sbb. destruct (u32_add y c) as [a' c1].
    cbn [fst snd]. destruct (u32_sub x a'). split; reflexivity. }
  destruct Hadc as [E1 E2]. destruct Hsbb as [E3 E4].
  rewrite E1, E2, E3, E4.
  assert (R : forall p q, 0 <= fst (u32_add p q) < 2^32 /\
                          0 <= fst (u32_sub p q) < 2^32).
  { intros p q. split; apply u32_range. }
  pose proof (R x y) as [R1 R2].
  pose proof (R x (fst (u32_add y c))) as [R3 R4].
  assert (Z1 : snd (u32_add y c) = 1 ->
               snd (u32_add x (fst (u32_add y c))) = 0) by lia.
  assert (Z2 : snd (u32_add y c) = 1 ->
               snd (u32_sub x (fst (u32_add y c))) = 0) by lia.
  repeat split; try lia.
Qed.

Lemma mp_adders_exact_witness :
  (is_u32 0xFFFFFFFF /\ is_u32 0xFFFFFFFF /\ 0 <= 1 <= 1) /\
  fst (u32_adc 0xFFFFFFFF 0xFFFFFFFF 1)
  + 2^32 * snd (u32_adc 0xFFFFFFFF 0xFFFFFFFF 1)
  = 0xFFFFFFFF + 0xFFFFFFFF + 1.
Proof.
  assert (H : is_u32 0xFFFFFFFF) by (unfold is_u32; lia).
  split; [split; [exact H|split; [exact H|lia]]|].
  apply (mp_adders_exact 0xFFFFFFFF 0xFFFFFFFF 1 H H). lia.
Defined.

(** ** Compare *)

Lemma sext_range (w x : Z) : 0 < w -> - 2^(w - 1) <= sext w x < 2^(w - 1).
Proof.
  intros Hw. unfold sext.
  assert (Hp : 2^w = 2 * 2^(w - 1)).
  { replace w with (1 + (w - 1)) at 1 by lia.
    rewrite Z.pow_add_r by lia. reflexivity. }
  assert (0 < 2^(w - 1)) by (apply Z.pow_pos_nonneg; lia).
  pose proof (Z.mod_pos_bound x (2^w) ltac:(lia)).
  destruct (Z.ltb_spec (x mod 2^w) (2^(w - 1))); lia.
Qed.

Lemma i32_signed (v : Z) : - 2^31 <= v < 2^31 -> i32 v = v.
Proof.
  intros Hv. destruct (Z.lt_ge_cases v 0).
  - unfold i32, sext. change (2^(32 - 1)) with (2^31).
    assert (E : v mod 2^32 = v + 2^32).
    { replace v with (v + 2^32 + (-1) * 2^32) at 1 by lia.
      rewrite Z.mod_add by lia. apply Z.mod_small. lia. }
    rewrite E. cbv zeta.
    destruct (Z.ltb_spec (v + 2^32) (2^31)); lia.
  - apply i32_nonneg. lia.
Qed.

Lemma i32_u32 (x : Z) : i32 (u32 x) = i32 x.
Proof. unfold i32, sext, u32. rewrite Z.mod_mod by lia. reflexivity. Qed.

Lemma i32_inj (a b : Z) : is_u32 a -> is_u32 b -> i32 a = i32 b -> a = b.
Proof.
  intros Ha Hb H. destruct (i32_cases a Ha) as [Ea|Ea],
    (i32_cases b Hb) as [Eb|Eb]; pose proof (i32_range a);
    pose proof (i32_range b); unfold is_u32 in *; lia.
Qed.

Lemma u32_inj_signed (v w : Z) :
  - 2^31 <= v < 2^31 -> - 2^31 <= w < 2^31 -> u32 v = u32 w -> v = w.
Proof.
  intros Hv Hw H. rewrite <- (i32_signed v Hv), <- (i32_signed w Hw).
  rewrite <- (i32_u32 v), <- (i32_u32 w), H. reflexivity.
Qed.

Lemma cond_code_i960_cmp (o : i960) (a b : Z) (I : bool) :
  cond_code (i960_cmp o a b I)
  = if (if I then i32 a <? i32 b else a <? b) then 4
    else if a =? b then 2 else 1.
Proof.
  unfold i960_cmp. cbv zeta. apply cond_code_set_cond.
  destruct (if I then i32 a <? i32 b else a <? b); [lia|].
  destruct (a =? b); lia.
Qed.

(** X5 ([i960_cmp], [reg_cmpe]).  A compare leaves exactly the code of the
    ordering of its operands: 4 when the first is less, 2 when they are
    equal, 1 when it is greater; the operands are read as unsigned words
    or, for the integer forms, as signed ones.  The byte and short
    compares ([cmpob], [cmpib], [cmpos], [cmpis]) order the low 8 or 16
    bits, zero- or sign-extended. *)
Theorem compare_orders_operands (o : i960) (op a b c : Z) (I : bool) :
  is_u32 a -> is_u32 b ->
  (let va := if I then i32 a else a in
   let vb := if I then i32 b else b in
   let cc := cond_code (i960_cmp o a b I) in
   (cc = 4 <-> va < vb) /\ (cc = 2 <-> va = vb) /\ (cc = 1 <-> va > vb)) /\
  (let F0 := truthy (u32_bit_select op (7 + 0)) in
   let F1 := truthy (u32_bit_select op (7 + 1)) in
   let narrow x := if F1 then (if F0 then i16 x else u16 x)
                   else (if F0 then i8 x else u8 x) in
   let cc := cond_code (reg_cmpe o op a b c) in
   (cc = 4 <-> narrow a < narrow b) /\ (cc = 2 <-> narrow a = narrow b) /\
   (cc = 1 <-> narrow a > narrow b)).
Proof.
  intros Ha Hb. split.
  - cbv zeta. rewrite cond_code_i960_cmp.
    destruct I.
    + destruct (Z.ltb_spec (i32 a) (i32 b)); [lia|].
      destruct (Z.eqb_spec a b) as [E|E].
      * subst. lia.
      * assert (i32 a <> i32 b) by (intros H'; apply E, i32_inj; assumption).
        lia.
    + destruct (Z.ltb_spec a b); [lia|].
      destruct (Z.eqb_spec a b); lia.
  - cbv zeta. unfold reg_cmpe. cbv zeta. rewrite cond_code_i960_cmp.
    set (F0 := truthy (u32_bit_select op (7 + 0))).
    set (F1 := truthy (u32_bit_select op (7 + 1))).
    set (na := if F1 then if F0 then i16 a else u16 a
               else if F0 then i8 a else u8 a).
    set (nb := if F1 then if F0 then i16 b else u16 b
               else if F0 then i8 b else u8 b).
    assert (R : forall x, - 2^31 <= (if F1 then if F0 then i16 x else u16 x
                                     else if F0 then i8 x else u8 x) < 2^31 /\
                (F0 = false -> 0 <= (if F1 then if F0 then i16 x else u16 x
                                     else if F0 then i8 x else u8 x))).
    { intros x. unfold i16, i8, u16, u8.
      pose proof (sext_range 16 x ltac:(lia)) as H16.
      pose proof (sext_range 8 x ltac:(lia)) as H8.
      change (2^(16 - 1)) with 32768 in H16.
      change (2^(8 - 1)) with 128 in H8.
      pose proof (Z.mod_pos_bound x (2^16) ltac:(lia)).
      pose proof (Z.mod_pos_bound x (2^8) ltac:(lia)).
      destruct F1, F0; split; intros; try discriminate; lia. }
    pose proof (R a) as [Ra Ra']. pose proof (R b) as [Rb Rb'].
    fold na in Ra, Ra'. fold nb in Rb, Rb'.
    assert (Eq : (u32 na =? u32 nb) = (na =? nb)).
    { destruct (Z.eqb_spec na nb) as [E|E].
      - rewrite E. apply Z.eqb_refl.
      - apply Z.eqb_neq. intros H'. apply E, u32_inj_signed; assumption. }
    rewrite Eq.
    destruct F0.
    + rewrite !i32_u32, !i32_signed by assumption.
      destruct (Z.ltb_spec na nb); [lia|].
      destruct (Z.eqb_spec na nb); lia.
    + rewrite !u32_small by (unfold is_u32; lia).
      destruct (Z.ltb_spec na nb); [lia|].
      destruct (Z.eqb_spec na nb); lia.
Qed.

Lemma compare_orders_operands_witness :
  (is_u32 0xFFFFFFFF /\ is_u32 1) /\
  (cond_code (i960_cmp i960_zero 0xFFFFFFFF 1 true) = 4
   <-> i32 0xFFFFFFFF < i32 1).
Proof.
  assert (H : is_u32 0xFFFFFFFF) by (unfold is_u32; lia).
  assert (H1 : is_u32 1) by (unfold is_u32; lia).
  split; [split; assumption|].
  apply (compare_orders_operands i960_zero 0 0xFFFFFFFF 1 0 true H H1).
Defined.

Lemma land_4_set_cond (o : i960) (cc : Z) :
  0 <= cc <= 7 -> Z.land (ac (i960_set_cond o cc)) 4 = Z.land cc 4.
Proof.
  intros Hcc. unfold i960_set_cond, set_ac. cbn [ac].
  rewrite Z.land_lor_distr_l, <- Z.land_assoc.
  change (Z.land (u32_not I960_CC_MASK) 4) with 0.
  rewrite Z.land_0_r. apply Z.lor_0_l.
Qed.

(** X6 ([i960_concmp] after [i960_cmp]).  A conditional compare changes
    nothing when the "less" bit of the condition code is set.  After a
    compare the pair therefore leaves code 4 when the first compare found
    "less", and otherwise 2 or 1 as the second pair is ordered "less or
    equal" or "greater". *)
Theorem concmp_after_cmp (o : i960) (a0 b0 a b : Z) (I0 I : bool) :
  (Z.land (ac o) 4 <> 0 -> i960_concmp o a b I = o) /\
  cond_code (i960_concmp (i960_cmp o a0 b0 I0) a b I)
  = if (if I0 then i32 a0 <? i32 b0 else a0 <? b0) then 4
    else if (if I then i32 a <=? i32 b else a <=? b) then 2 else 1.
Proof.
  split.
  - intros H. unfold i960_concmp. cbv zeta.
    destruct (Z.eqb_spec (Z.land (ac o) 4) 0); [contradiction|reflexivity].
  - unfold i960_concmp. cbv zeta.
    pose proof (cond_code_i960_cmp o a0 b0 I0) as Hcc.
    unfold i960_cmp in *. cbv zeta in *.
    set (lt0 := if I0 then i32 a0 <? i32 b0 else a0 <? b0) in *.
    set (le := if I then i32 a <=? i32 b else a <=? b).
    set (cc0 := if lt0 then 4 else if a0 =? b0 then 2 else 1) in *.
    assert (Hr : 0 <= cc0 <= 7)
      by (unfold cc0; destruct lt0; [lia|]; destruct (a0 =? b0); lia).
    rewrite land_4_set_cond by exact Hr.
    destruct lt0.
    + change (Z.land cc0 4 =? 0) with false. cbv iota. exact Hcc.
    + assert (E : Z.land cc0 4 = 0)
        by (unfold cc0; destruct (a0 =? b0); reflexivity).
      rewrite E. change (0 =? 0) with true. cbv iota.
      apply cond_code_set_cond. destruct le; lia.
Qed.

Lemma concmp_after_cmp_witness :
  Z.land (ac (set_ac i960_zero 4)) 4 <> 0 /\
  i960_concmp (set_ac i960_zero 4) 1 2 false = set_ac i960_zero 4.
Proof.
  assert (H : Z.land (ac (set_ac i960_zero 4)) 4 <> 0)
    by (vm_compute; discriminate).
  split; [exact H|].
  apply (concmp_after_cmp (set_ac i960_zero 4) 0 0 1 2 false false), H.
Defined.

(** ** Integer add *)

Lemma i32_congr (x : Z) : exists k, i32 x = x + k * 2^32.
Proof.
  unfold i32, sext. cbv zeta.
  pose proof (Z.div_mod x (2^32) ltac:(lia)) as H.
  destruct (x mod 2^32 <? 2^(32 - 1)).
  - exists (- (x / 2^32)). lia.
  - exists (- (x / 2^32) - 1). lia.
Qed.

(** The sign test of [i32_check_overflow], spelled out. *)
Lemma i32_check_overflow_signs (a b res : Z) :
  i32_check_overflow a b res = true <->
  ((0 <= a <-> 0 <= b) /\ ~ (0 <= b <-> 0 <= res)).
Proof.
  unfold i32_check_overflow. rewrite Z.ltb_lt, Z.land_neg, Z.lnot_neg.
  rewrite Z.lxor_nonneg.
  pose proof (Z.lxor_nonneg b res). split.
  - intros [H1 H2]. split; [exact H1|]. lia.
  - intros [H1 H2]. split; [exact H1|]. lia.
Qed.

(** X7 ([reg_add], the [addo] / [addi] / [subo] forms).  The ordinal forms
    write the wrapped sum or difference and never signal.  [addi] writes
    the low 32 bits of the signed sum and takes the integer-overflow path
    exactly when that sum does not fit in 32 bits. *)
Theorem reg_add_overflow (o : i960) (op a b c : Z) :
  length (r o) = 32%nat -> 0 <= c < 32 ->
  is_u32 a -> is_u32 b ->
  (truthy (u32_bit_select op (7 + 0)) = false ->
   reg_add o op a b c =
     set_r o c (if truthy (u32_bit_select op (7 + 1))
                then u32 (b - a) else u32 (b + a))) /\
  (truthy (u32_bit_select op (7 + 0)) = true ->
   truthy (u32_bit_select op (7 + 1)) = false ->
   reg_add o op a b c =
     (if (i32 a + i32 b <? INT32_MIN) || (i32 a + i32 b >? INT32_MAX)
      then i960_on_overflow (set_r o c (u32 (i32 a + i32 b)))
      else set_r o c (u32 (i32 a + i32 b)))).
Proof.
  intros Hlen Hc Ha Hb. split.
  - intros HF0. unfold reg_add. cbv zeta. rewrite HF0. reflexivity.
  - intros HF0 HF1. unfold reg_add. cbv zeta. rewrite HF0, HF1.
    cbn [andb].
    assert (Ew : u32 (b + a) = u32 (i32 a + i32 b)).
    { destruct (i32_congr a) as [ka Ea], (i32_congr b) as [kb Eb].
      rewrite Ea, Eb. unfold u32.
      replace (a + ka * 2^32 + (b + kb * 2^32))
        with (b + a + (ka + kb) * 2^32) by lia.
      rewrite Z.mod_add by lia. reflexivity. }
    rewrite Ew, get_set_r_same by (rewrite Hlen; lia).
    set (s := i32 a + i32 b).
    assert (Hchk : i32_check_overflow (i32 a) (i32 b) (i32 (u32 s))
                   = ((s <? INT32_MIN) || (s >? INT32_MAX))).
    { pose proof (i32_range a) as Ra. pose proof (i32_range b) as Rb.
      pose proof (i32_range (u32 s)) as Rr.
      rewrite i32_u32 in *.
      destruct (i32_congr s) as [k Ek].
      unfold INT32_MIN, INT32_MAX.
      destruct (i32_check_overflow (i32 a) (i32 b) (i32 s)) eqn:E.
      - apply i32_check_overflow_signs in E. unfold s in *. lia.
      - assert (Hn : ~ ((0 <= i32 a <-> 0 <= i32 b) /\
                        ~ (0 <= i32 b <-> 0 <= i32 s)))
          by (intros H'; apply i32_check_overflow_signs in H'; congruence).
        unfold s in *. lia. }
    rewrite Hchk. reflexivity.
Qed.

Lemma reg_add_overflow_witness :
  (length (r i960_zero) = 32%nat /\ 0 <= 6 < 32 /\
   is_u32 1 /\ is_u32 0x7FFFFFFF /\
   truthy (u32_bit_select 0x59000080 (7 + 0)) = true /\
   truthy (u32_bit_select 0x59000080 (7 + 1)) = false) /\
  reg_add i960_zero 0x59000080 1 0x7FFFFFFF 6 =
    i960_on_overflow (set_r i960_zero 6 0x80000000).
Proof.
  assert (H1 : is_u32 1) by (unfold is_u32; lia).
  assert (H2 : is_u32 0x7FFFFFFF) by (unfold is_u32; lia).
  split; [repeat split; try lia; reflexivity|].
  destruct (reg_add_overflow i960_zero 0x59000080 1 0x7FFFFFFF 6
              eq_refl ltac:(lia) H1 H2) as [_ H].
  rewrite (H eq_refl eq_refl). reflexivity.
Defined.

(** ** Shifts and rotate *)

(** X8 ([reg_shro], [reg_shlo], [reg_shri]).  With a count below 32,
    [shro] divides by the power of two, [shlo] multiplies modulo 2^32 and
    [shri] leaves the word whose signed reading is the signed operand
    divided by the power of two, rounded down.  With a count of 32 or
    more, [shro] and [shlo] write 0 and [shri] shifts by 31: it writes 0
    for a non-negative operand and 0xFFFFFFFF for a negative one. *)
Theorem shift_counts (o : i960) (op a b c : Z) :
  is_u32 b -> 0 <= a ->
  (a < 32 ->
   reg_shro o op a b c = set_r o c (b / 2^a) /\
   reg_shlo o op a b c = set_r o c ((b * 2^a) mod 2^32) /\
   (exists v, reg_shri o op a b c = set_r o c v /\ is_u32 v /\
              i32 v = i32 b / 2^a)) /\
  (32 <= a ->
   reg_shro o op a b c = set_r o c 0 /\
   reg_shlo o op a b c = set_r o c 0 /\
   reg_shri o op a b c
   = set_r o c (if i32 b <? 0 then 0xFFFFFFFF else 0)).
Proof.
  intros Hb Ha. split.
  - intros Hlt. unfold reg_shro, reg_shlo, reg_shri, u32_shl, i32_sar, u32.
    destruct (Z.ltb_spec a 32); [|lia].
    rewrite Z.shiftr_div_pow2, Z.shiftl_mul_pow2 by lia.
    split; [reflexivity|]. split; [reflexivity|].
    exists ((Z.shiftr (i32 b) a) mod 2^32).
    split; [reflexivity|]. split; [apply (u32_range (Z.shiftr (i32 b) a))|].
    rewrite Z.shiftr_div_pow2 by lia.
    change (i32 (u32 (i32 b / 2^a)) = i32 b / 2^a).
    rewrite i32_u32. apply i32_signed.
    pose proof (i32_range b) as Rb.
    assert (Hp : 0 < 2^a) by (apply Z.pow_pos_nonneg; lia).
    split.
    + apply Z.div_le_lower_bound; [lia|]. nia.
    + apply Z.div_lt_upper_bound; [lia|]. nia.
  - intros Hge. unfold reg_shro, reg_shlo, reg_shri, i32_sar.
    destruct (Z.ltb_spec a 32); [lia|].
    split; [reflexivity|]. split; [reflexivity|]. f_equal.
    rewrite Z.shiftr_div_pow2 by lia.
    pose proof (i32_range b) as Rb.
    destruct (Z.ltb_spec (i32 b) 0).
    + replace (i32 b / 2^31) with (-1); [reflexivity|].
      apply Z.div_unique with (r := i32 b + 2^31); lia.
    + rewrite Z.div_small by lia. reflexivity.
Qed.

Lemma shift_counts_witness :
  (is_u32 0x80000000 /\ 0 <= 40 /\ 32 <= 40) /\
  reg_shri i960_zero 0 40 0x80000000 3 = set_r i960_zero 3 0xFFFFFFFF.
Proof.
  assert (H : is_u32 0x80000000) by (unfold is_u32; lia).
  split; [repeat split; lia|].
  destruct (shift_counts i960_zero 0 40 0x80000000 3 H ltac:(lia))
    as [_ H2].
  destruct (H2 ltac:(lia)) as (_ & _ & H3). exact H3.
Defined.

Lemma rotate_count_neg (a : Z) :
  Z.land (u32 (- a)) 31 = (- a) mod 32.
Proof.
  rewrite land_31. unfold u32. apply Z.mod_mod_divide.
  exists (2^27). reflexivity.
Qed.

(** Bit [n] of the rotated word is bit [n - a] of the operand, the index
    taken modulo 32. *)
Lemma rotate_bits (a b n : Z) :
  is_u32 b -> 0 <= n < 32 ->
  Z.testbit (Z.lor (u32_shl b (Z.land a 31))
                   (Z.shiftr b (Z.land (u32 (- a)) 31))) n
  = Z.testbit b ((n - a) mod 32).
Proof.
  intros Hb Hn. rewrite rotate_count_neg, land_31.
  pose proof (Z.mod_pos_bound a 32 ltac:(lia)) as Hk.
  pose proof (Z.mod_pos_bound (- a) 32 ltac:(lia)) as Hk'.
  unfold u32_shl. rewrite Z.lor_spec, testbit_u32 by lia.
  rewrite Z.shiftl_spec, Z.shiftr_spec by lia.
  destruct (Z.eq_dec (a mod 32) 0) as [E0|E0].
  - assert (E1 : (- a) mod 32 = 0)
      by (Z.div_mod_to_equations; lia).
    rewrite E0, E1, Z.sub_0_r, Z.add_0_r, orb_diag.
    f_equal. Z.div_mod_to_equations. lia.
  - assert (E1 : (- a) mod 32 = 32 - a mod 32)
      by (Z.div_mod_to_equations; lia).
    rewrite E1.
    destruct (Z.lt_ge_cases n (a mod 32)).
    + rewrite (Z.testbit_neg_r b (n - a mod 32)) by lia. cbn [orb].
      f_equal. Z.div_mod_to_equations. lia.
    + rewrite (testbit_is_u32_high b (n + (32 - a mod 32))) by (auto; lia).
      rewrite orb_false_r. f_equal. Z.div_mod_to_equations. lia.
Qed.

Lemma is_u32_rotate (a b : Z) :
  is_u32 b ->
  is_u32 (Z.lor (u32_shl b (Z.land a 31))
                (Z.shiftr b (Z.land (u32 (- a)) 31))).
Proof.
  intros Hb. apply is_u32_lor; [apply is_u32_u32|].
  apply is_u32_shiftr; [exact Hb|].
  rewrite rotate_count_neg. apply Z.mod_pos_bound. lia.
Qed.

(** X9 ([reg_rotate]).  [rotate] moves bit [n - a] of the operand to bit
    [n], indices modulo 32, so a count that is a multiple of 32 changes
    nothing, and rotating the result by the negated count brings the
    operand back into the destination register. *)
Theorem reg_rotate_inverse (o : i960) (op a b c : Z) :
  is_u32 b -> length (r o) = 32%nat -> 0 <= c < 32 ->
  let o1 := reg_rotate o op a b c in
  is_u32 (get_r o1 c) /\
  (forall n, 0 <= n < 32 ->
     Z.testbit (get_r o1 c) n = Z.testbit b ((n - a) mod 32)) /\
  (a mod 32 = 0 -> get_r o1 c = b) /\
  get_r (reg_rotate o1 op (u32 (- a)) (get_r o1 c) c) c = b.
Proof.
  intros Hb Hlen Hc. cbv zeta. unfold reg_rotate.
  rewrite get_set_r_same by (rewrite Hlen; lia).
  rewrite get_set_r_same by (rewrite length_set_r, Hlen; lia).
  set (v := Z.lor (u32_shl b (Z.land a 31))
                  (Z.shiftr b (Z.land (u32 (- a)) 31))).
  assert (Hv : is_u32 v) by (apply is_u32_rotate, Hb).
  assert (Hbits : forall n, 0 <= n < 32 ->
            Z.testbit v n = Z.testbit b ((n - a) mod 32))
    by (intros n Hn; apply rotate_bits; assumption).
  split; [exact Hv|]. split; [exact Hbits|]. split.
  - intros H0. apply u32_ext; [exact Hv|exact Hb|].
    intros n Hn. rewrite Hbits by exact Hn.
    f_equal. Z.div_mod_to_equations. lia.
  - apply u32_ext; [apply is_u32_rotate, Hv|exact Hb|].
    intros n Hn. rewrite rotate_bits by assumption.
    rewrite Hbits by (apply Z.mod_pos_bound; lia).
    f_equal. unfold u32.
    assert (E : (- a) mod 2^32 mod 32 = (- a) mod 32)
      by (apply Z.mod_mod_divide; exists (2^27); reflexivity).
    Z.div_mod_to_equations. lia.
Qed.

Lemma reg_rotate_inverse_witness :
  (is_u32 0x80000001 /\ length (r i960_zero) = 32%nat /\ 0 <= 5 < 32) /\
  get_r (reg_rotate (reg_rotate i960_zero 0 4 0x80000001 5) 0 (u32 (- 4))
           (get_r (reg_rotate i960_zero 0 4 0x80000001 5) 5) 5) 5
  = 0x80000001.
Proof.
  assert (H : is_u32 0x80000001) by (unfold is_u32; lia).
  split; [repeat split; try lia; reflexivity|].
  apply (reg_rotate_inverse i960_zero 0 4 0x80000001 5 H eq_refl). lia.
Defined.

(** X10 ([reg_shli]).  [shli] multiplies the signed operand by
    2^min(a, 32), writes the low 32 bits of the product and takes the
    integer-overflow path exactly when the product does not fit in 32
    bits. *)
Theorem reg_shli_overflow (o : i960) (op a b c : Z) :
  is_u32 b -> 0 <= a ->
  let y := i32 b * 2^(Z.min a 32) in
  reg_shli o op a b c =
    if (y <? INT32_MIN) || (y >? INT32_MAX)
    then i960_on_overflow (set_r o c (u32 y))
    else set_r o c (u32 y).
Proof.
  intros Hb Ha. cbv zeta. unfold reg_shli. cbv zeta.
  assert (En : (if a <? 32 then a else 32) = Z.min a 32)
    by (destruct (Z.ltb_spec a 32); lia).
  rewrite En. set (n := Z.min a 32).
  assert (Hn : 0 <= n <= 32) by (unfold n; lia).
  rewrite Z.shiftl_mul_pow2 by lia.
  set (x := i32 b). pose proof (i32_range b) as Rx. fold x in Rx.
  assert (HP : 1 <= 2^n <= 2^32).
  { split; [apply (Z.pow_le_mono_r 2 0 n); lia|].
    apply Z.pow_le_mono_r; lia. }
  set (y := x * 2^n).
  assert (Ry : - 2^63 <= y < 2^63) by (unfold y; nia).
  assert (Sy : (0 <= x -> 0 <= y) /\ (x < 0 -> y <= x)) by (unfold y; nia).
  assert (Ew : u32 (u64 y) = u32 y).
  { unfold u32, u64. apply Z.mod_mod_divide. exists (2^32). reflexivity. }
  rewrite Ew.
  assert (Ec : truthy (Z.shiftr (Z.lxor (u64 y) (u64 x)) 31)
               = ((y <? INT32_MIN) || (y >? INT32_MAX))).
  { unfold truthy. rewrite Z.shiftr_lxor, !Z.shiftr_div_pow2 by lia.
    unfold u64, INT32_MIN, INT32_MAX.
    clearbody y. clear HP En Ew.
    assert (Qx : x mod 2^64 / 2^31 = if x <? 0 then 2^33 - 1 else 0).
    { destruct (Z.ltb_spec x 0).
      - replace x with (x + 2^64 + (-1) * 2^64) at 1 by lia.
        rewrite Z.mod_add, Z.mod_small by lia.
        symmetry. apply Z.div_unique with (r := x + 2^31); lia.
      - rewrite Z.mod_small by lia. apply Z.div_small. lia. }
    assert (Qy : y mod 2^64 / 2^31
                 = if y <? 0 then (y + 2^64) / 2^31 else y / 2^31).
    { destruct (Z.ltb_spec y 0).
      - replace y with (y + 2^64 + (-1) * 2^64) at 1 by lia.
        rewrite Z.mod_add, Z.mod_small by lia. reflexivity.
      - rewrite Z.mod_small by lia. reflexivity. }
    rewrite Qx, Qy.
    destruct (Z.ltb_spec x 0), (Z.ltb_spec y 0); try lia.
    - destruct (Z.eqb_spec (Z.lxor ((y + 2^64) / 2^31) (2^33 - 1)) 0)
        as [E|E]; cbn [negb].
      + apply (proj1 (Z.lxor_eq_0_iff _ _)) in E.
        pose proof (Z.div_mod (y + 2^64) (2^31) ltac:(lia)).
        pose proof (Z.mod_pos_bound (y + 2^64) (2^31) ltac:(lia)). lia.
      + assert (E' : (y + 2^64) / 2^31 <> 2^33 - 1)
          by (intros H'; apply E, Z.lxor_eq_0_iff, H').
        assert (Hq : (y + 2^64) / 2^31 < 2^33)
          by (apply Z.div_lt_upper_bound; lia).
        pose proof (Z.div_mod (y + 2^64) (2^31) ltac:(lia)).
        pose proof (Z.mod_pos_bound (y + 2^64) (2^31) ltac:(lia)). lia.
    - destruct (Z.eqb_spec (Z.lxor (y / 2^31) 0) 0) as [E|E]; cbn [negb].
      + apply (proj1 (Z.lxor_eq_0_iff _ _)) in E.
        pose proof (Z.div_mod y (2^31) ltac:(lia)).
        pose proof (Z.mod_pos_bound y (2^31) ltac:(lia)). lia.
      + assert (E' : y / 2^31 <> 0)
          by (intros H'; apply E, Z.lxor_eq_0_iff, H').
        assert (2^31 <= y); [|lia].
        destruct (Z.lt_ge_cases y (2^31)); [|assumption].
        exfalso. apply E'. apply Z.div_small. lia. }
  rewrite Ec. reflexivity.
Qed.

Lemma reg_shli_overflow_witness :
  (is_u32 0x40000000 /\ 0 <= 1) /\
  reg_shli i960_zero 0 1 0x40000000 6
  = i960_on_overflow (set_r i960_zero 6 0x80000000).
Proof.
  assert (H : is_u32 0x40000000) by (unfold is_u32; lia).
  split; [split; [exact H|lia]|].
  rewrite (reg_shli_overflow i960_zero 0 1 0x40000000 6 H ltac:(lia)).
  reflexivity.
Defined.

(** ** Multiply and divide *)

Lemma lor_even_1 (c : Z) : Z.even c = true -> Z.lor c 1 = c + 1.
Proof.
  intros H. pose proof (Z.add_lor_land c 1) as E.
  assert (L : Z.land c 1 = 0).
  { replace (Z.land c 1) with (Z.land c (Z.ones 1)) by reflexivity.
    rewrite Z.land_ones by lia. change (2^1) with 2.
    rewrite Zmod_even, H. reflexivity. }
  lia.
Qed.

Lemma lor_high_low (h l : Z) :
  is_u32 l -> Z.lor (Z.shiftl h 32) l = h * 2^32 + l.
Proof.
  intros Hl. rewrite <- Z.shiftl_mul_pow2 by lia.
  pose proof (Z.add_lor_land (Z.shiftl h 32) l) as E.
  assert (L : Z.land (Z.shiftl h 32) l = 0).
  { apply Z.bits_inj'. intros n Hn. rewrite Z.land_spec, Z.bits_0.
    destruct (Z.lt_ge_cases n 32).
    - rewrite Z.shiftl_spec_low by lia. reflexivity.
    - rewrite (testbit_is_u32_high l n Hl) by lia. apply andb_false_r. }
  lia.
Qed.

Lemma set_r_set_r (o : i960) (c v w : Z) :
  set_r (set_r o c v) c w = set_r o c w.
Proof. unfold set_r. cbn [r ip ac pc tc mem faults calls]. f_equal.
  apply list_insert_insert_eq. Qed.

(** X11 ([reg_emul], [reg_mulo]).  [emul] into an even register pair
    leaves the exact 64-bit product of the two words, low word in [r[c]]
    and high word in [r[c + 1]]; the low word is what [mulo] writes. *)
Theorem reg_emul_product (o : i960) (op a b c : Z) :
  is_u32 a -> is_u32 b ->
  length (r o) = 32%nat -> 0 <= c < 31 -> Z.even c = true ->
  let o' := reg_emul o op a b c in
  get_r o' c + 2^32 * get_r o' (c + 1) = a * b /\
  is_u32 (get_r o' c) /\ is_u32 (get_r o' (c + 1)) /\
  get_r o' c = get_r (reg_mulo o op a b c) c.
Proof.
  unfold is_u32. intros Ha Hb Hlen Hc Hev. cbv zeta.
  unfold reg_emul, reg_mulo. cbv zeta.
  rewrite Z.lor_0_r, (lor_even_1 c Hev).
  assert (Hab : 0 <= a * b < 2^64) by nia.
  assert (E64 : u64 (a * b) = a * b) by (apply Z.mod_small; lia).
  rewrite E64, Z.shiftr_div_pow2 by lia.
  rewrite get_set_r_other by lia.
  rewrite !get_set_r_same by (rewrite ?length_set_r, Hlen; lia).
  assert (Hq : 0 <= a * b / 2^32 < 2^32).
  { split; [apply Z.div_pos; lia|].
    apply Z.div_lt_upper_bound; lia. }
  rewrite (u32_small (a * b / 2^32)) by exact Hq.
  pose proof (Z.div_mod (a * b) (2^32) ltac:(lia)).
  pose proof (u32_range (a * b)).
  unfold u32 in *. repeat split; try lia.
Qed.

Lemma reg_emul_product_witness :
  (is_u32 0xFFFFFFFF /\ length (r i960_zero) = 32%nat /\ 0 <= 4 < 31 /\
   Z.even 4 = true) /\
  get_r (reg_emul i960_zero 0 0xFFFFFFFF 0xFFFFFFFF 4) 4
  + 2^32 * get_r (reg_emul i960_zero 0 0xFFFFFFFF 0xFFFFFFFF 4) (4 + 1)
  = 0xFFFFFFFF * 0xFFFFFFFF.
Proof.
  assert (H : is_u32 0xFFFFFFFF) by (unfold is_u32; lia).
  split; [repeat split; try lia; reflexivity|].
  apply (reg_emul_product i960_zero 0 0xFFFFFFFF 0xFFFFFFFF 4 H H eq_refl
           ltac:(lia) eq_refl).
Defined.

(** X12 ([reg_ediv], and [reg_ediv] after [reg_emul]).  With a non-zero
    divisor, [ediv] into an even pair divides the 64-bit value made of
    [r[src | 1]] (high) and operand [b] (low): the remainder goes to
    [r[c]], the low 32 bits of the quotient to [r[c + 1]], and nothing is
    signalled.  Dividing the pair written by [emul a b] by [a] gives
    quotient [b] and remainder 0. *)
Theorem reg_ediv_divides (o : i960) (op a b c : Z) :
  is_u32 a -> is_u32 b -> a <> 0 ->
  length (r o) = 32%nat -> 0 <= c < 31 -> Z.even c = true ->
  (let bl := get_r o (Z.lor (u32_extract op 14 5) 1) * 2^32 + b in
   let o' := reg_ediv o op a b c in
   get_r o' c = bl mod a /\
   get_r o' (c + 1) = (bl / a) mod 2^32 /\
   faults o' = faults o) /\
  (u32_extract op 14 5 = c ->
   let o1 := reg_emul o op a b c in
   let o2 := reg_ediv o1 op a (get_r o1 c) c in
   get_r o2 c = 0 /\ get_r o2 (c + 1) = b).
Proof.
  intros Ha Hb Hnz Hlen Hc Hev.
  assert (Hdiv : forall o0 b0, length (r o0) = 32%nat -> is_u32 b0 ->
            let bl := get_r o0 (Z.lor (u32_extract op 14 5) 1) * 2^32 + b0 in
            let o' := reg_ediv o0 op a b0 c in
            get_r o' c = bl mod a /\
            get_r o' (c + 1) = (bl / a) mod 2^32 /\
            faults o' = faults o0).
  { intros o0 b0 Hl0 Hb0. cbv zeta. unfold reg_ediv, i960_div_check.
    cbv zeta. destruct (Z.eqb_spec a 0) as [E|_]; [contradiction|].
    cbn [negb]. rewrite Z.lor_0_r, (lor_even_1 c Hev).
    rewrite (lor_high_low _ b0 Hb0).
    set (bl := get_r o0 (Z.lor (u32_extract op 14 5) 1) * 2^32 + b0).
    rewrite get_set_r_other by lia.
    rewrite !get_set_r_same by (rewrite ?length_set_r, Hl0; lia).
    split; [|split; reflexivity].
    apply u32_small. unfold is_u32 in *.
    pose proof (Z.mod_pos_bound bl a ltac:(lia)). lia. }
  split; [apply Hdiv; assumption|].
  intros Hsrc. cbv zeta.
  destruct (reg_emul_product o op a b c Ha Hb Hlen Hc Hev)
    as (Hprod & Hlo & Hhi & _).
  set (o1 := reg_emul o op a b c) in *.
  assert (Hl1 : length (r o1) = 32%nat)
    by (unfold o1, reg_emul; rewrite !length_set_r; exact Hlen).
  destruct (Hdiv o1 (get_r o1 c) Hl1 Hlo) as (H1 & H2 & _).
  rewrite Hsrc, (lor_even_1 c Hev) in H1, H2.
  replace (get_r o1 (c + 1) * 2^32 + get_r o1 c) with (b * a) in H1, H2
    by lia.
  rewrite H1, H2. unfold is_u32 in *.
  rewrite Z.mod_mul, Z.div_mul by lia.
  split; [reflexivity|]. apply Z.mod_small. lia.
Qed.

Lemma reg_ediv_divides_witness :
  (is_u32 7 /\ is_u32 100 /\ 7 <> 0 /\ length (r i960_zero) = 32%nat /\
   0 <= 4 < 31 /\ Z.even 4 = true /\ u32_extract 0x67010080 14 5 = 4) /\
  get_r (reg_ediv (reg_emul i960_zero 0x67010080 7 100 4) 0x67010080 7
           (get_r (reg_emul i960_zero 0x67010080 7 100 4) 4) 4) (4 + 1)
  = 100.
Proof.
  assert (H7 : is_u32 7) by (unfold is_u32; lia).
  assert (H100 : is_u32 100) by (unfold is_u32; lia).
  split; [repeat split; try lia; reflexivity|].
  destruct (reg_ediv_divides i960_zero 0x67010080 7 100 4 H7 H100
              ltac:(lia) eq_refl ltac:(lia) eq_refl) as [_ H].
  apply (H eq_refl).
Defined.

Lemma i32_u32_signed (v : Z) : - 2^31 <= v < 2^31 -> i32 (u32 v) = v.
Proof. intros Hv. rewrite i32_u32. apply i32_signed, Hv. Qed.

(** X13 ([reg_divo], [reg_divi], [reg_remi]).  With a non-zero divisor
    nothing is signalled by [divo]/[remo], whose quotient and remainder
    satisfy [b = q * a + rem] with [rem < a].  [divi] and [remi] divide
    the signed readings, truncating toward zero: unless the division is
    INT32_MIN / -1, the signed readings of their results satisfy
    [b = q * a + rem], the remainder being smaller than the divisor in
    magnitude and of the sign of the dividend. *)
Theorem division_identity (o : i960) (op1 op2 op3 a b c : Z) :
  is_u32 a -> is_u32 b -> a <> 0 ->
  length (r o) = 32%nat -> 0 <= c < 32 ->
  truthy (u32_bit_select op1 (7 + 1)) = true ->
  truthy (u32_bit_select op2 (7 + 1)) = false ->
  truthy (u32_bit_select op3 (7 + 0)) = false ->
  (let q := get_r (reg_divo o op1 a b c) c in
   let rm := get_r (reg_divo o op2 a b c) c in
   b = q * a + rm /\ 0 <= rm < a /\ is_u32 q /\
   faults (reg_divo o op1 a b c) = faults o /\
   faults (reg_divo o op2 a b c) = faults o) /\
  (~ (i32 b = INT32_MIN /\ i32 a = -1) ->
   let q := i32 (get_r (reg_divi o op1 a b c) c) in
   let rm := i32 (get_r (reg_remi o op3 a b c) c) in
   i32 b = q * i32 a + rm /\ Z.abs rm < Z.abs (i32 a) /\
   (0 <= i32 b -> 0 <= rm) /\ (i32 b <= 0 -> rm <= 0) /\
   faults (reg_remi o op3 a b c) = faults o).
Proof.
  intros Ha Hb Hnz Hlen Hc HF1 HF1' HF0.
  assert (Hin : (Z.to_nat c < length (r o))%nat) by (rewrite Hlen; lia).
  split.
  - cbv zeta. unfold reg_divo, i960_div_check. cbv zeta.
    destruct (Z.eqb_spec a 0) as [E|_]; [contradiction|]. cbn [negb].
    rewrite HF1, HF1', !get_set_r_same by exact Hin.
    unfold is_u32 in *.
    pose proof (Z.div_mod b a Hnz).
    pose proof (Z.mod_pos_bound b a ltac:(lia)).
    assert (0 <= b / a <= b).
    { split; [apply Z.div_pos; lia|].
      apply Z.div_le_upper_bound; [lia|]. nia. }
    repeat split; try lia.
  - intros Hmin. cbv zeta. unfold reg_divi, reg_remi, i960_div_check.
    cbv zeta. destruct (Z.eqb_spec a 0) as [E|_]; [contradiction|].
    cbn [negb]. rewrite HF0. cbn [andb].
    pose proof (i32_range a) as Ra. pose proof (i32_range b) as Rb.
    assert (Hnz' : i32 a <> 0).
    { intros E. destruct (i32_cases a Ha) as [E'|E'];
        unfold is_u32 in *; lia. }
    set (A := i32 a) in *. set (B := i32 b) in *.
    assert (Hq : - 2^31 <= Z.quot B A < 2^31).
    { unfold INT32_MIN in Hmin. Z.quot_rem_to_equations. nia. }
    assert (Hr : - 2^31 <= Z.rem B A < 2^31).
    { Z.quot_rem_to_equations. nia. }
    assert (Gq : i32 (get_r
                (let o2 := set_r o c (u32 (Z.quot B A)) in
                 if i32 (Z.lxor (Z.lxor a b) (get_r o2 c)) <? 0
                 then i960_on_overflow o2 else o2) c) = Z.quot B A).
    { cbv zeta.
      destruct (i32 (Z.lxor (Z.lxor a b)
                      (get_r (set_r o c (u32 (Z.quot B A))) c)) <? 0);
        [unfold i960_on_overflow;
         destruct (truthy (u32_bit_select _ I960_OM_POS))|];
        (etransitivity; [|apply (i32_u32_signed _ Hq)]); f_equal;
        apply get_set_r_same, Hin. }
    cbv zeta in Gq. rewrite Gq.
    rewrite get_set_r_same, (i32_u32_signed _ Hr) by exact Hin.
    Z.quot_rem_to_equations. repeat split; try nia; try lia.
Qed.

Lemma division_identity_witness :
  (is_u32 0xFFFFFFFE /\ is_u32 7 /\ 0xFFFFFFFE <> 0 /\
   length (r i960_zero) = 32%nat /\ 0 <= 3 < 32 /\
   ~ (i32 7 = INT32_MIN /\ i32 0xFFFFFFFE = -1)) /\
  i32 7 = i32 (get_r (reg_divi i960_zero 0x74000580 0xFFFFFFFE 7 3) 3)
          * i32 0xFFFFFFFE
          + i32 (get_r (reg_remi i960_zero 0x74000400 0xFFFFFFFE 7 3) 3).
Proof.
  assert (Ha : is_u32 0xFFFFFFFE) by (unfold is_u32; lia).
  assert (Hb : is_u32 7) by (unfold is_u32; lia).
  assert (Hm : ~ (i32 7 = INT32_MIN /\ i32 0xFFFFFFFE = -1))
    by (intros [H _]; vm_compute in H; discriminate).
  split; [repeat split; try lia; try reflexivity; exact Hm|].
  destruct (division_identity i960_zero 0x74000580 0x74000400 0x74000400
              0xFFFFFFFE 7 3 Ha Hb ltac:(lia) eq_refl ltac:(lia)
              eq_refl eq_refl eq_refl) as [_ H].
  apply (H Hm).
Defined.

(** X14 ([reg_remi] with F0 set, [modi]).  With a non-zero divisor, and
    INT32_MIN with divisor -1 left out (the C remainder is undefined
    there), [modi] writes the modulo of the signed readings that takes the
    sign of the divisor (the remainder of the division rounded down), as a
    word, and signals nothing. *)
Theorem reg_modi_floor (o : i960) (op a b c : Z) :
  is_u32 a -> is_u32 b -> a <> 0 ->
  ~ (i32 b = INT32_MIN /\ i32 a = -1) ->
  length (r o) = 32%nat -> 0 <= c < 32 ->
  truthy (u32_bit_select op (7 + 0)) = true ->
  reg_remi o op a b c = set_r o c (u32 (i32 b mod i32 a)).
Proof.
  intros Ha Hb Hnz Hdef Hlen Hc HF0.
  assert (Hin : (Z.to_nat c < length (r o))%nat) by (rewrite Hlen; lia).
  unfold reg_remi, i960_div_check. cbv zeta.
  destruct (Z.eqb_spec a 0) as [E|_]; [contradiction|]. cbn [negb].
  rewrite HF0, !get_set_r_same by exact Hin. cbn [andb].
  pose proof (i32_range a) as Ra. pose proof (i32_range b) as Rb.
  assert (Hnz' : i32 a <> 0).
  { intros E. destruct (i32_cases a Ha) as [E'|E'];
      unfold is_u32 in *; lia. }
  assert (Hs : (i32 (Z.lxor a b) <? 0)
               = negb (Bool.eqb (i32 a <? 0) (i32 b <? 0))).
  { rewrite !i32_sign_bit by (try apply is_u32_lxor; assumption).
    rewrite Z.lxor_spec.
    destruct (Z.testbit a 31), (Z.testbit b 31); reflexivity. }
  rewrite Hs.
  set (A := i32 a) in *. set (B := i32 b) in *.
  assert (Hr : - 2^31 <= Z.rem B A < 2^31)
    by (Z.quot_rem_to_equations; nia).
  assert (Ez : (u32 (Z.rem B A) =? 0) = (Z.rem B A =? 0)).
  { destruct (Z.eqb_spec (Z.rem B A) 0) as [E|E].
    - rewrite E. reflexivity.
    - apply Z.eqb_neq. intros H'. apply E.
      apply (u32_inj_signed _ 0 Hr); [lia|exact H']. }
  rewrite Ez.
  destruct (Z.eqb_spec (Z.rem B A) 0) as [E0|E0]; cbn [negb andb].
  - f_equal. f_equal.
    apply Z.mod_unique with (q := Z.quot B A).
    + rewrite E0. lia.
    + Z.quot_rem_to_equations. lia.
  - destruct (Z.ltb_spec A 0), (Z.ltb_spec B 0); cbn [Bool.eqb negb].
    + f_equal. f_equal.
      apply Z.mod_unique with (q := Z.quot B A);
        Z.quot_rem_to_equations; lia.
    + rewrite set_r_set_r. f_equal.
      destruct (i32_congr a) as [k Ek]. fold A in Ek.
      transitivity (u32 (Z.rem B A + A)).
      * unfold u32. rewrite Zplus_mod_idemp_l.
        replace (Z.rem B A + a) with (Z.rem B A + A + (- k) * 2^32) by lia.
        apply Z.mod_add. lia.
      * f_equal.
        apply Z.mod_unique with (q := Z.quot B A - 1);
          Z.quot_rem_to_equations; nia.
    + rewrite set_r_set_r. f_equal.
      destruct (i32_congr a) as [k Ek]. fold A in Ek.
      transitivity (u32 (Z.rem B A + A)).
      * unfold u32. rewrite Zplus_mod_idemp_l.
        replace (Z.rem B A + a) with (Z.rem B A + A + (- k) * 2^32) by lia.
        apply Z.mod_add. lia.
      * f_equal.
        apply Z.mod_unique with (q := Z.quot B A - 1);
          Z.quot_rem_to_equations; nia.
    + f_equal. f_equal.
      apply Z.mod_unique with (q := Z.quot B A);
        Z.quot_rem_to_equations; lia.
Qed.

Lemma reg_modi_floor_witness :
  (is_u32 3 /\ is_u32 0xFFFFFFF9 /\ 3 <> 0 /\
   ~ (i32 0xFFFFFFF9 = INT32_MIN /\ i32 3 = -1) /\
   length (r i960_zero) = 32%nat /\ 0 <= 5 < 32 /\
   truthy (u32_bit_select 0x74000480 (7 + 0)) = true) /\
  reg_remi i960_zero 0x74000480 3 0xFFFFFFF9 5 = set_r i960_zero 5 2.
Proof.
  assert (Ha : is_u32 3) by (unfold is_u32; lia).
  assert (Hb : is_u32 0xFFFFFFF9) by (unfold is_u32; lia).
  assert (Hd : ~ (i32 0xFFFFFFF9 = INT32_MIN /\ i32 3 = -1))
    by (intros [H _]; vm_compute in H; discriminate).
  split.
  - split; [exact Ha|]. split; [exact Hb|]. split; [lia|].
    split; [exact Hd|]. split; [reflexivity|]. split; [lia|reflexivity].
  - rewrite (reg_modi_floor i960_zero 0x74000480 3 0xFFFFFFF9 5 Ha Hb
               ltac:(lia) Hd eq_refl ltac:(lia) eq_refl).
    reflexivity.
Defined.

(** ** Faults that guard an operation *)

(** X15 ([i960_check_em], [reg_intdis], [reg_inten], [reg_modpc]).  In
    user mode (PC bit 1 clear) [intdis], [inten] and [modpc] with a
    non-zero mask signal the type-mismatch fault 0xa0001 and change
    nothing else: no write to the interrupt-control register, no change
    of PC or of the destination.  [modpc] with a zero mask is not checked:
    it copies PC to [r[c]] and leaves PC, when a word, as it was.  In
    supervisor mode [intdis] stores the control word with bit 10 set and
    [inten] with bit 10 clear, and [modpc] signals nothing. *)
Theorem supervisor_only (o : i960) (op a b c : Z) :
  (truthy (u32_bit_select (pc o) I960_EM_POS) = false ->
   reg_intdis o op a b c = i960_fault o 0xa0001 /\
   reg_inten o op a b c = i960_fault o 0xa0001 /\
   (b <> 0 -> reg_modpc o op a b c = i960_fault o 0xa0001)) /\
  (is_u32 (pc o) -> reg_modpc o op a 0 c = set_r o c (pc o)) /\
  (truthy (u32_bit_select (pc o) I960_EM_POS) = true ->
   reg_intdis o op a b c
   = i960_write_w o I960_ICON
       (Z.lor (i960_read_w o I960_ICON) (2^10)) /\
   reg_inten o op a b c
   = i960_write_w o I960_ICON
       (Z.land (i960_read_w o I960_ICON) (u32_not (2^10))) /\
   faults (reg_modpc o op a b c) = faults o /\
   pc (reg_modpc o op a b c) = u32_modify (pc o) (get_r o c) b).
Proof.
  split; [|split].
  - intros Hu. unfold reg_intdis, reg_inten, reg_modpc, i960_check_em.
    cbv zeta. unfold truthy in Hu. apply negb_false_iff in Hu.
    rewrite Hu. cbn [truthy negb]. change (truthy 0) with false.
    assert (Ht : truthy (u32_bit_select (pc o) I960_EM_POS) = false)
      by (unfold truthy; rewrite Hu; reflexivity).
    rewrite Ht. split; [reflexivity|]. split; [reflexivity|].
    intros Hb. destruct (Z.eqb_spec b 0); [contradiction|]. reflexivity.
  - intros Hpc. unfold reg_modpc. cbv zeta. change (0 =? 0) with true.
    cbn [negb].
    assert (E : u32_modify (pc o) (get_r o c) 0 = pc o).
    { unfold u32_modify. rewrite Z.land_0_r, Z.lor_0_r.
      change (u32_not 0) with (Z.ones 32). rewrite Z.land_ones by lia.
      apply Z.mod_small. apply Hpc. }
    rewrite E. unfold set_pc, set_r. cbn [r ip ac pc tc mem faults calls].
    reflexivity.
  - intros Hs. unfold reg_intdis, reg_inten, reg_modpc, i960_check_em.
    cbv zeta.
    assert (Hz : (u32_bit_select (pc o) I960_EM_POS =? 0) = false)
      by (unfold truthy in Hs; apply negb_true_iff in Hs; exact Hs).
    rewrite Hz, Hs. cbn [negb].
    change (u32_setbit (i960_read_w o I960_ICON) I960_ICON_GIE)
      with (Z.lor (i960_read_w o I960_ICON) (2^10)).
    change (u32_clrbit (i960_read_w o I960_ICON) I960_ICON_GIE)
      with (Z.land (i960_read_w o I960_ICON) (u32_not (2^10))).
    split; [reflexivity|]. split; [reflexivity|].
    destruct (b =? 0); split; reflexivity.
Qed.

Lemma supervisor_only_witness :
  truthy (u32_bit_select (pc i960_zero) I960_EM_POS) = false /\
  reg_intdis i960_zero 0x5B000200 0 0 0 = i960_fault i960_zero 0xa0001.
Proof.
  split; [reflexivity|].
  apply (supervisor_only i960_zero 0x5B000200 0 0 0). reflexivity.
Defined.

(** X16 ([i960_on_undef], [i960_fpu], [reg_fpu], [reg_synmov], [reg_67],
    [reg_cond]).  Every encoding routed to the floating-point unit, and
    the [synmov] group, only signals the invalid-opcode fault 0x20001:
    block 0x68..0x6F, block 0x67 with F2 set, block 0x78..0x7F with F3
    set, and blocks 0x60 and 0x62. *)
Theorem invalid_opcode_only_faults (o : i960) (op a b c : Z) :
  reg_fpu o op a b c = i960_fault o 0x20001 /\
  (truthy (u32_bit_select op (7 + 3)) = true ->
   reg_cond o op a b c = i960_fault o 0x20001) /\
  (u32_extract op (24 + 0) 3 = 7 ->
   truthy (u32_bit_select op (7 + 2)) = true ->
   reg_supp o op a b c = i960_fault o 0x20001) /\
  (u32_extract op (24 + 0) 3 = 0 \/ u32_extract op (24 + 0) 3 = 2 ->
   reg_supp o op a b c = i960_fault o 0x20001).
Proof.
  split; [reflexivity|]. split; [|split].
  - intros H. unfold reg_cond. cbv zeta. rewrite H. reflexivity.
  - intros H7 H. unfold reg_supp, reg_67. rewrite H7. cbv zeta.
    rewrite H. reflexivity.
  - intros [H|H]; unfold reg_supp; rewrite H; reflexivity.
Qed.

Lemma invalid_opcode_only_faults_witness :
  truthy (u32_bit_select 0x78000400 (7 + 3)) = true /\
  reg_cond i960_zero 0x78000400 1 2 3 = i960_fault i960_zero 0x20001.
Proof.
  split; [reflexivity|].
  destruct (invalid_opcode_only_faults i960_zero 0x78000400 1 2 3)
    as (_ & H & _).
  apply H. reflexivity.
Defined.

(** ** Memory accesses *)

Lemma mem_byte_range (m : gmap Z Z) (addr : Z) :
  mem_ok m -> 0 <= mem_byte m addr < 2^8.
Proof.
  intros Hm. unfold mem_byte.
  destruct (m !! u32 addr) as [v|] eqn:E; cbn [default].
  - apply (Hm _ _ E).
  - lia.
Qed.

Lemma mem_ok_put_byte (m : gmap Z Z) (addr x : Z) :
  mem_ok m -> mem_ok (put_byte m addr x).
Proof.
  intros Hm k v. unfold put_byte. rewrite lookup_insert.
  case_decide.
  - intros E. injection E as <-. unfold u8. apply Z.mod_pos_bound. lia.
  - apply Hm.
Qed.

Lemma is_u32_shiftl_byte (v s : Z) :
  0 <= v < 2^8 -> 0 <= s <= 24 -> is_u32 (Z.shiftl v s).
Proof.
  intros Hv Hs. unfold is_u32. rewrite Z.shiftl_mul_pow2 by lia.
  assert (0 < 2^s <= 2^24).
  { split; [apply Z.pow_pos_nonneg; lia|apply Z.pow_le_mono_r; lia]. }
  nia.
Qed.

Lemma is_u32_read_w (o : i960) (addr : Z) :
  mem_ok (mem o) -> is_u32 (i960_read_w o addr).
Proof.
  intros Hm. unfold i960_read_w.
  pose proof (mem_byte_range _ addr Hm).
  pose proof (mem_byte_range _ (addr + 1) Hm).
  pose proof (mem_byte_range _ (addr + 2) Hm).
  pose proof (mem_byte_range _ (addr + 3) Hm).
  repeat apply is_u32_lor; try (apply is_u32_shiftl_byte; lia).
  unfold is_u32. lia.
Qed.

Lemma mem_byte_put_byte_ne (m : gmap Z Z) (a a' x : Z) :
  u32 a <> u32 a' -> mem_byte (put_byte m a x) a' = mem_byte m a'.
Proof.
  intros H. unfold mem_byte, put_byte.
  rewrite lookup_insert_ne by exact H. reflexivity.
Qed.

Lemma u32_far_apart (a a' i j : Z) :
  4 <= (a' - a) mod 2^32 <= 2^32 - 4 ->
  0 <= i < 4 -> 0 <= j < 4 -> u32 (a + i) <> u32 (a' + j).
Proof.
  intros Hd Hi Hj E. unfold u32 in E.
  Z.div_mod_to_equations. lia.
Qed.

(** A word written four or more bytes away is not seen. *)
Lemma i960_read_w_write_w_far (o : i960) (a a' x : Z) :
  4 <= (a' - a) mod 2^32 <= 2^32 - 4 ->
  i960_read_w (i960_write_w o a x) a' = i960_read_w o a'.
Proof.
  intros Hd. unfold i960_read_w, i960_write_w, set_mem. cbn [mem].
  pose proof (fun i j Hi Hj => u32_far_apart a a' i j Hd Hi Hj) as N.
  assert (N0 : forall i j, 0 <= i < 4 -> 0 <= j < 4 ->
                 u32 (a + i) <> u32 (a' + j)) by exact N.
  pose proof (N0 0) as Na. rewrite Z.add_0_r in Na.
  assert (B : forall j m, 0 <= j < 4 ->
            mem_byte (put_byte (put_byte (put_byte (put_byte m a x)
                        (a + 1) (Z.shiftr x 8)) (a + 2) (Z.shiftr x 16))
                        (a + 3) (Z.shiftr x 24)) (a' + j)
            = mem_byte m (a' + j)).
  { intros j m Hj.
    rewrite !mem_byte_put_byte_ne; [reflexivity|apply Na; lia
      |apply N0; lia|apply N0; lia|apply N0; lia]. }
  pose proof (B 0 (mem o) ltac:(lia)) as B0. rewrite Z.add_0_r in B0.
  rewrite B0, !B by lia. reflexivity.
Qed.

Lemma mem_ok_write_w (o : i960) (addr x : Z) :
  mem_ok (mem o) -> mem_ok (mem (i960_write_w o addr x)).
Proof.
  intros H. unfold i960_write_w, set_mem. cbn [mem].
  repeat apply mem_ok_put_byte. exact H.
Qed.

Lemma land_not_3_aligned (a : Z) : Z.land a (u32_not 3) mod 4 = 0.
Proof.
  change 4 with (2^2). rewrite <- Z.land_ones by lia.
  rewrite <- Z.land_assoc.
  change (Z.land (u32_not 3) (Z.ones 2)) with 0. apply Z.land_0_r.
Qed.

Lemma u32_modify_bits (old new mask n : Z) :
  0 <= n < 32 ->
  Z.testbit (u32_modify old new mask) n
  = if Z.testbit mask n then Z.testbit new n else Z.testbit old n.
Proof.
  intros Hn. unfold u32_modify.
  rewrite Z.lor_spec, !Z.land_spec, testbit_u32_not by lia.
  destruct (Z.testbit mask n), (Z.testbit new n), (Z.testbit old n);
    reflexivity.
Qed.

Lemma is_u32_u32_modify (old new mask : Z) :
  is_u32 old -> is_u32 mask -> is_u32 (u32_modify old new mask).
Proof.
  intros Ho Hm. unfold u32_modify.
  apply is_u32_lor; [apply is_u32_land_l|apply is_u32_land_r]; assumption.
Qed.

(** X17 ([reg_atomic], [i960_read_lock], [i960_write_unlock]).  [atadd]
    and [atmod] work on the word at the operand address with its two low
    bits cleared.  Afterwards the destination register holds the old
    word and memory holds, for [atadd], the old word plus [b] modulo
    2^32 and, for [atmod], the old word with the bits selected by the
    mask [b] replaced from the old [r[c]].  Nothing is signalled. *)
Theorem reg_atomic_rmw (o : i960) (op a b c : Z) :
  mem_ok (mem o) -> is_u32 b ->
  length (r o) = 32%nat -> 0 <= c < 32 ->
  let src := Z.land a (u32_not 3) in
  let old := i960_read_w o src in
  let o' := reg_atomic o op a b c in
  src mod 4 = 0 /\
  get_r o' c = old /\
  i960_read_w o' src =
    (if truthy (u32_bit_select op (7 + 1)) then u32 (old + b)
     else u32_modify old (get_r o c) b) /\
  (forall n, 0 <= n < 32 ->
     Z.testbit (u32_modify old (get_r o c) b) n
     = if Z.testbit b n then Z.testbit (get_r o c) n
       else Z.testbit old n) /\
  faults o' = faults o.
Proof.
  intros Hm Hb Hlen Hc. cbv zeta.
  split; [apply land_not_3_aligned|].
  unfold reg_atomic, i960_read_lock, i960_write_unlock, i960_lock,
    i960_unlock. cbv zeta.
  set (src := Z.land a (u32_not 3)).
  set (old := i960_read_w o src).
  assert (Hold : is_u32 old) by (apply is_u32_read_w, Hm).
  set (new := if truthy (u32_bit_select op (7 + 1)) then u32 (old + b)
              else u32_modify old (get_r o c) b).
  assert (Hnew : is_u32 new).
  { unfold new. destruct (truthy _); [apply is_u32_u32|].
    apply is_u32_u32_modify; assumption. }
  split; [|split; [|split]].
  - apply get_set_r_same. unfold i960_write_w, set_mem. cbn [r].
    rewrite Hlen. lia.
  - change (i960_read_w (set_r (i960_write_w o src new) c old) src)
      with (i960_read_w (i960_write_w o src new) src).
    apply i960_read_w_write_w, Hnew.
  - intros n Hn. apply u32_modify_bits, Hn.
  - reflexivity.
Qed.

Lemma reg_atomic_rmw_witness :
  let o := set_r (i960_write_w i960_zero 0x2000 0xAAAAAAAA) 5 0x12345678 in
  (mem_ok (mem o) /\ is_u32 0x0F0F0F0F /\ length (r o) = 32%nat /\
   0 <= 5 < 32) /\
  get_r (reg_atomic o 0x61000000 0x2000 0x0F0F0F0F 5) 5 = 0xAAAAAAAA /\
  i960_read_w (reg_atomic o 0x61000000 0x2000 0x0F0F0F0F 5) 0x2000
  = 0xA2A4A6A8.
Proof.
  cbv zeta.
  set (o := set_r (i960_write_w i960_zero 0x2000 0xAAAAAAAA) 5 0x12345678).
  assert (Hm : mem_ok (mem o)).
  { unfold o. apply (mem_ok_write_w i960_zero).
    intros k v E. discriminate E. }
  assert (Hb : is_u32 0x0F0F0F0F) by (unfold is_u32; lia).
  assert (Hl : length (r o) = 32%nat) by reflexivity.
  split; [split; [exact Hm|split; [exact Hb|split; [exact Hl|lia]]]|].
  destruct (reg_atomic_rmw o 0x61000000 0x2000 0x0F0F0F0F 5 Hm Hb Hl
              ltac:(lia)) as (_ & H1 & H2 & _).
  split.
  - etransitivity; [exact H1|vm_compute; reflexivity].
  - etransitivity; [exact H2|vm_compute; reflexivity].
Defined.

(** ** Bit fields *)

Lemma set_r_get_r (o : i960) (c : Z) :
  (Z.to_nat c < length (r o))%nat -> set_r o c (get_r o c) = o.
Proof.
  intros H. destruct (lookup_lt_is_Some_2 _ _ H) as [x Hx].
  unfold set_r, get_r. rewrite nth_lookup, Hx. cbn [default].
  rewrite list_insert_id by exact Hx. destruct o. reflexivity.
Qed.

(** X18 ([reg_modify], [reg_extract], [reg_modac], [reg_modtc],
    [u32_modify]).  [modify] replaces in [r[c]] exactly the bits selected
    by the mask [a], taking them from [b].  [extract] with a length below
    32 leaves in [r[c]] the field of that length found [a mod 32] bits
    up, and with a longer length changes nothing at all.  [modac] and
    [modtc] hand the old control word to [r[c]]; [modac] replaces the
    bits of AC selected by the mask, [modtc] those of TC that the mask
    selects inside 0x00ff00ff and no other. *)
Theorem field_updates (o : i960) (op a b c : Z) :
  length (r o) = 32%nat -> 0 <= c < 32 ->
  (forall n, 0 <= n < 32 ->
     Z.testbit (get_r (reg_modify o op a b c) c) n
     = if Z.testbit a n then Z.testbit b n
       else Z.testbit (get_r o c) n) /\
  (0 <= b < 32 ->
     get_r (reg_extract o op a b c) c
     = (get_r o c / 2^(a mod 32)) mod 2^b) /\
  (31 < b -> reg_extract o op a b c = o) /\
  get_r (reg_modac o op a b c) c = ac o /\
  (forall n, 0 <= n < 32 ->
     Z.testbit (ac (reg_modac o op a b c)) n
     = if Z.testbit a n then Z.testbit b n else Z.testbit (ac o) n) /\
  get_r (reg_modtc o op a b c) c = tc o /\
  (forall n, 0 <= n < 32 ->
     Z.testbit (tc (reg_modtc o op a b c)) n
     = if Z.testbit a n && Z.testbit 0x00ff00ff n then Z.testbit b n
       else Z.testbit (tc o) n).
Proof.
  intros Hlen Hc.
  assert (Hin : (Z.to_nat c < length (r o))%nat) by (rewrite Hlen; lia).
  split; [|split; [|split; [|split; [|split; [|split]]]]].
  - intros n Hn. unfold reg_modify. rewrite get_set_r_same by exact Hin.
    apply u32_modify_bits, Hn.
  - intros Hb. unfold reg_extract. rewrite get_set_r_same by exact Hin.
    replace (b >? 31) with false by lia.
    unfold u32_extract. rewrite low_mask_ones, land_31 by exact Hb.
    pose proof (Z.mod_pos_bound a 32 ltac:(lia)).
    rewrite Z.land_ones, Z.shiftr_div_pow2 by lia. reflexivity.
  - intros Hb. unfold reg_extract.
    replace (b >? 31) with true by lia. apply set_r_get_r, Hin.
  - unfold reg_modac. cbv zeta. apply get_set_r_same. exact Hin.
  - intros n Hn. unfold reg_modac. cbv zeta. rewrite ac_set_r.
    unfold set_ac. cbn [ac]. apply u32_modify_bits, Hn.
  - unfold reg_modtc. cbv zeta. apply get_set_r_same. exact Hin.
  - intros n Hn. unfold reg_modtc. cbv zeta.
    change (tc (set_r ?x c (tc o))) with (tc x).
    unfold set_tc. cbn [tc]. rewrite u32_modify_bits by exact Hn.
    rewrite Z.land_spec. reflexivity.
Qed.

Lemma field_updates_witness :
  (length (r i960_zero) = 32%nat /\ 0 <= 4 < 32 /\ 31 < 40) /\
  reg_extract i960_zero 0x65000080 3 40 4 = i960_zero.
Proof.
  split; [split; [reflexivity|lia]|].
  destruct (field_updates i960_zero 0x65000080 3 40 4 eq_refl
              ltac:(lia)) as (_ & _ & H & _).
  apply H. lia.
Defined.

Lemma get_r_set_cond (o : i960) (cc k : Z) :
  get_r (i960_set_cond o cc) k = get_r o k.
Proof. reflexivity. Qed.

Lemma u32_not_sub (a : Z) : is_u32 a -> u32_not a = 2^32 - 1 - a.
Proof.
  intros Ha. unfold u32_not, u32, Z.lnot, Z.pred, is_u32 in *.
  symmetry. apply (Z.mod_unique _ _ (-1)); lia.
Qed.

(** X19 ([reg_64], [reg_scanbit]).  [scanbit] looks for the most
    significant set bit of [a], [spanbit] for the most significant clear
    bit.  When there is one, [r[c]] is its position, every higher bit of
    the word is the other way, and the condition code is 2; when there is
    none, [r[c]] is all ones and the condition code is 0. *)
Theorem scan_span_bit (o : i960) (op a b c : Z) :
  is_u32 a -> length (r o) = 32%nat -> 0 <= c < 32 ->
  truthy (u32_bit_select op (7 + 2)) = false ->
  let want := truthy (u32_bit_select op (7 + 0)) in
  let none := if want then 0 else 0xFFFFFFFF in
  let o' := reg_64 o op a b c in
  let k := get_r o' c in
  (a = none -> k = 0xFFFFFFFF /\ cond_code o' = 0) /\
  (a <> none ->
     0 <= k < 32 /\ Z.testbit a k = want /\
     (forall n, k < n < 32 -> Z.testbit a n = negb want) /\
     cond_code o' = 2).
Proof.
  intros Ha Hlen Hc HF2. cbv zeta. unfold reg_64. cbv zeta.
  rewrite HF2. unfold reg_scanbit. cbv zeta.
  assert (Hin : (Z.to_nat c < length (r o))%nat) by (rewrite Hlen; lia).
  rewrite get_r_set_cond, get_set_r_same by exact Hin.
  set (want := truthy (u32_bit_select op (7 + 0))).
  set (x := if want then a else u32_not a).
  assert (Hx : is_u32 x).
  { unfold x. destruct want; [exact Ha|apply is_u32_u32_not]. }
  assert (Hbits : forall n, 0 <= n < 32 ->
            Z.testbit x n = if want then Z.testbit a n
                            else negb (Z.testbit a n)).
  { intros n Hn. unfold x. destruct want; [reflexivity|].
    apply testbit_u32_not, Hn. }
  assert (Hz : x = 0 <-> a = if want then 0 else 0xFFFFFFFF).
  { unfold x. destruct want; [reflexivity|].
    rewrite u32_not_sub by exact Ha. lia. }
  split.
  - intros E. apply Hz in E. rewrite E. change (0 =? 0) with true.
    cbv iota. split; [reflexivity|]. apply cond_code_set_cond. lia.
  - intros N. assert (Hnz : x <> 0) by (intros E; apply N, Hz, E).
    replace (x =? 0) with false by lia.
    assert (Hpos : 0 < x) by (unfold is_u32 in Hx; lia).
    assert (Hk : 0 <= Z.log2 x < 32).
    { split; [apply Z.log2_nonneg|].
      apply Z.log2_lt_pow2; [exact Hpos|apply Hx]. }
    split; [exact Hk|]. split; [|split].
    + pose proof (Z.bit_log2 x Hpos) as B. rewrite Hbits in B by exact Hk.
      destruct want; [exact B|]. destruct (Z.testbit a (Z.log2 x));
        [discriminate B|reflexivity].
    + intros n Hn.
      pose proof (Z.bits_above_log2 x n ltac:(lia) ltac:(lia)) as B.
      rewrite Hbits in B by lia.
      destruct want; [exact B|]. destruct (Z.testbit a n);
        [reflexivity|discriminate B].
    + apply cond_code_set_cond. lia.
Qed.

Lemma scan_span_bit_witness :
  (is_u32 0xFFF0FFFF /\ length (r i960_zero) = 32%nat /\ 0 <= 6 < 32 /\
   truthy (u32_bit_select 0x64000000 (7 + 2)) = false /\
   0xFFF0FFFF <> 0xFFFFFFFF) /\
  Z.testbit 0xFFF0FFFF (get_r (reg_64 i960_zero 0x64000000 0xFFF0FFFF 0 6) 6)
  = false /\
  cond_code (reg_64 i960_zero 0x64000000 0xFFF0FFFF 0 6) = 2.
Proof.
  assert (Ha : is_u32 0xFFF0FFFF) by (unfold is_u32; lia).
  assert (N : 0xFFF0FFFF <> 0xFFFFFFFF) by discriminate.
  split.
  - split; [exact Ha|]. split; [reflexivity|].
    split; [lia|]. split; [reflexivity|exact N].
  - destruct (scan_span_bit i960_zero 0x64000000 0xFFF0FFFF 0 6 Ha eq_refl
                ltac:(lia) eq_refl) as [_ H].
    destruct (H N) as (_ & Hb & _ & Hc). split; [exact Hb|exact Hc].
Defined.

(** ** Branch displacements *)

Lemma testbit_small (u k n : Z) :
  0 <= u < 2^k -> 0 <= k <= n -> Z.testbit u n = false.
Proof.
  intros Hu Hk. destruct (Z.eq_dec u 0) as [->|N].
  - apply Z.bits_0.
  - apply Z.bits_above_log2; [lia|].
    assert (Z.log2 u < k) by (apply Z.log2_lt_pow2; lia). lia.
Qed.

Lemma testbit_top (u k : Z) :
  0 < k -> 2^(k - 1) <= u < 2^k -> Z.testbit u (k - 1) = true.
Proof.
  intros Hk Hu. apply Z.testbit_true; [lia|].
  assert (E : 2^k = 2 * 2^(k - 1)).
  { replace k with (Z.succ (k - 1)) at 1 by lia.
    apply Z.pow_succ_r. lia. }
  assert (Q : u / 2^(k - 1) = 1).
  { symmetry. apply (Z.div_unique _ _ _ (u - 2^(k - 1))); lia. }
  rewrite Q. reflexivity.
Qed.

(** The bits of a sign-extended [w]-bit number: bit [w - 1] repeats. *)
Lemma testbit_sext (w x n : Z) :
  0 < w -> 0 <= n ->
  Z.testbit (sext w x) n = Z.testbit x (Z.min n (w - 1)).
Proof.
  intros Hw Hn. unfold sext. cbv zeta.
  pose proof (Z.mod_pos_bound x (2^w) ltac:(apply Z.pow_pos_nonneg; lia))
    as Hu.
  assert (Hlow : forall m, 0 <= m < w ->
            Z.testbit (x mod 2^w) m = Z.testbit x m).
  { intros m Hm. rewrite Z.testbit_mod_pow2 by lia.
    replace (m <? w) with true by lia. reflexivity. }
  destruct (x mod 2^w <? 2^(w - 1)) eqn:E.
  - apply Z.ltb_lt in E.
    destruct (Z.lt_ge_cases n (w - 1)) as [L|G].
    + rewrite Z.min_l by lia. apply Hlow. lia.
    + rewrite Z.min_r by lia. rewrite <- (Hlow (w - 1)) by lia.
      rewrite (testbit_small (x mod 2^w) (w - 1) n) by lia.
      rewrite (testbit_small (x mod 2^w) (w - 1) (w - 1)) by lia.
      reflexivity.
  - apply Z.ltb_ge in E.
    assert (Hneg : x mod 2^w - 2^w = Z.lxor (x mod 2^w) (Z.lnot (Z.ones w))).
    { rewrite <- Z.add_nocarry_lxor.
      - rewrite Z.ones_equiv. unfold Z.lnot. lia.
      - apply Z.bits_inj'. intros m Hm.
        rewrite Z.land_spec, Z.lnot_spec, Z.testbit_ones_nonneg, Z.bits_0
          by lia.
        destruct (Z.lt_ge_cases m w) as [L|G].
        + replace (m <? w) with true by lia. apply andb_false_r.
        + rewrite (testbit_small (x mod 2^w) w m) by lia. reflexivity. }
    rewrite Hneg, Z.lxor_spec, Z.lnot_spec, Z.testbit_ones_nonneg by lia.
    destruct (Z.lt_ge_cases n w) as [L|G].
    + replace (n <? w) with true by lia. cbn [negb].
      rewrite xorb_false_r.
      destruct (Z.lt_ge_cases n (w - 1)) as [L'|G'].
      * rewrite Z.min_l by lia. apply Hlow. lia.
      * replace n with (w - 1) by lia. rewrite Z.min_id.
        apply Hlow. lia.
    + replace (n <? w) with false by lia. cbn [negb].
      rewrite (testbit_small (x mod 2^w) w n) by lia.
      rewrite Z.min_r by lia. rewrite <- (Hlow (w - 1)) by lia.
      rewrite (testbit_top (x mod 2^w) w) by lia. reflexivity.
Qed.

Lemma testbit_lnot_3 (n : Z) : 0 <= n -> Z.testbit (Z.lnot 3) n = (2 <=? n).
Proof.
  intros Hn. rewrite Z.lnot_spec by exact Hn.
  change 3 with (Z.ones 2). rewrite Z.testbit_ones_nonneg by lia. lia.
Qed.

Lemma sdisp_bits (s op n : Z) :
  0 <= s < 32 -> 0 <= n ->
  Z.testbit (sdisp s op) n = (2 <=? n) && Z.testbit op (Z.min n (31 - s)).
Proof.
  intros Hs Hn. unfold sdisp, i32.
  rewrite Z.land_spec, testbit_lnot_3, Z.shiftr_spec by exact Hn.
  rewrite testbit_sext by lia.
  rewrite Z.shiftl_spec by lia.
  rewrite testbit_sext by lia.
  rewrite andb_comm. f_equal. f_equal. lia.
Qed.

Lemma field_mask_bits (k n : Z) :
  0 <= k -> 0 <= n ->
  Z.testbit (Z.shiftl (Z.ones k) 2) n = (2 <=? n) && (n <? k + 2).
Proof.
  intros Hk Hn. destruct (Z.lt_ge_cases n 2) as [L|G].
  - rewrite Z.shiftl_spec_low by lia.
    replace (2 <=? n) with false by lia. reflexivity.
  - rewrite Z.shiftl_spec, Z.testbit_ones_nonneg by lia. lia.
Qed.

(** [sdisp] is the sign-extended low field of the instruction word with
    its two low bits cleared. *)
Lemma sdisp_sext (s op : Z) :
  0 <= s < 30 ->
  sdisp s op = sext (32 - s) (Z.land op (Z.shiftl (Z.ones (30 - s)) 2)).
Proof.
  intros Hs. apply Z.bits_inj'. intros n Hn.
  rewrite sdisp_bits, testbit_sext by lia.
  rewrite Z.land_spec, field_mask_bits by lia.
  replace (32 - s - 1) with (31 - s) by lia.
  destruct (Z.testbit op (Z.min n (31 - s))); lia.
Qed.

Lemma sext_field_extend (w op n : Z) :
  2 < w < 32 -> 0 <= n ->
  let m := Z.shiftl (Z.ones (w - 2)) 2 in
  let disp := i32 (Z.land op m) in
  Z.testbit (if truthy (Z.land op (2^(w - 1)))
             then Z.lor disp (Z.lnot (Z.ones w)) else disp) n
  = Z.testbit (sext w (Z.land op m)) n.
Proof.
  intros Hw Hn. cbv zeta.
  set (m := Z.shiftl (Z.ones (w - 2)) 2).
  assert (Hm : forall k, 0 <= k ->
            Z.testbit (Z.land op m) k
            = Z.testbit op k && ((2 <=? k) && (k <? w))).
  { intros k Hk. unfold m. rewrite Z.land_spec, field_mask_bits by lia.
    replace (w - 2 + 2) with w by lia. reflexivity. }
  assert (Hr : 0 <= Z.land op m < 2^w).
  { assert (Hm0 : 0 <= m) by (unfold m; apply Z.shiftl_nonneg;
      rewrite Z.ones_equiv; pose proof (Z.pow_pos_nonneg 2 (w - 2)); lia).
    assert (Hl : 0 <= Z.land op m) by (apply Z.land_nonneg; right; lia).
    split; [exact Hl|].
    destruct (Z.eq_dec (Z.land op m) 0) as [->|N].
    - apply Z.pow_pos_nonneg; lia.
    - apply Z.log2_lt_pow2; [lia|].
      destruct (Z.lt_ge_cases (Z.log2 (Z.land op m)) w) as [L|G];
        [exact L|].
      pose proof (Z.bit_log2 (Z.land op m) ltac:(lia)) as B.
      rewrite Hm in B by lia.
      replace (Z.log2 (Z.land op m) <? w) with false in B by lia.
      rewrite !andb_false_r in B. discriminate B. }
  assert (Hi : i32 (Z.land op m) = Z.land op m).
  { apply i32_nonneg. split; [lia|].
    assert (2^w <= 2^31) by (apply Z.pow_le_mono_r; lia). lia. }
  rewrite Hi, testbit_sext by lia.
  assert (Ht : truthy (Z.land op (2^(w - 1))) = Z.testbit op (w - 1)).
  { unfold truthy.
    destruct (Z.testbit op (w - 1)) eqn:B.
    - assert (Z.testbit (Z.land op (2^(w - 1))) (w - 1) = true).
      { rewrite Z.land_spec, B, Z.pow2_bits_true by lia. reflexivity. }
      destruct (Z.eqb_spec (Z.land op (2^(w - 1))) 0) as [E|E];
        [|reflexivity].
      rewrite E, Z.bits_0 in H. discriminate H.
    - replace (Z.land op (2^(w - 1))) with 0; [reflexivity|].
      symmetry. apply Z.bits_inj'. intros k Hk.
      rewrite Z.land_spec, Z.bits_0, Z.pow2_bits_eqb by lia.
      destruct (Z.eqb_spec (w - 1) k) as [<-|_];
        [rewrite B; reflexivity|apply andb_false_r]. }
  rewrite Ht.
  destruct (Z.lt_ge_cases n w) as [L|G].
  - replace (Z.min n (w - 1)) with n by lia.
    destruct (Z.testbit op (w - 1)); [|reflexivity].
    rewrite Z.lor_spec, Z.lnot_spec, Z.testbit_ones_nonneg by lia.
    replace (n <? w) with true by lia. apply orb_false_r.
  - rewrite Z.min_r by lia. rewrite (Hm (w - 1)) by lia.
    replace (2 <=? w - 1) with true by lia.
    replace (w - 1 <? w) with true by lia. rewrite !andb_true_r.
    destruct (Z.testbit op (w - 1)).
    + rewrite Z.lor_spec, Z.lnot_spec, Z.testbit_ones_nonneg by lia.
      replace (n <? w) with false by lia. apply orb_true_r.
    + rewrite Hm by lia. replace (n <? w) with false by lia.
      rewrite !andb_false_r. reflexivity.
Qed.

(** X20 ([i960_ctrl], [i960_cobr], [i960_ctrl_disp], [i960_cobr_disp]).
    The branch displacement the executor derives with a shift pair is the
    signed 24-bit (CTRL) or 13-bit (COBR) field of the instruction word
    with its two low bits cleared, hence a multiple of four within the
    field's range; the disassembler's displacement helpers, written with
    masks, compute the same number for every instruction word. *)
Theorem branch_displacements (op : Z) :
  sdisp 8 op = sext 24 (Z.land op 0xfffffc) /\
  sdisp 19 op = sext 13 (Z.land op 0x1ffc) /\
  Dasm.i960_ctrl_disp op = sdisp 8 op /\
  Dasm.i960_cobr_disp op = sdisp 19 op /\
  (- 2^23 <= sdisp 8 op < 2^23 /\ sdisp 8 op mod 4 = 0) /\
  (- 2^12 <= sdisp 19 op < 2^12 /\ sdisp 19 op mod 4 = 0).
Proof.
  assert (A : sdisp 8 op = sext 24 (Z.land op 0xfffffc))
    by (apply (sdisp_sext 8); lia).
  assert (B : sdisp 19 op = sext 13 (Z.land op 0x1ffc))
    by (apply (sdisp_sext 19); lia).
  assert (M : forall s, sdisp s op mod 4 = 0).
  { intros s. unfold sdisp. change 4 with (2^2).
    rewrite <- Z.land_ones, <- Z.land_assoc by lia.
    change (Z.land (Z.lnot 3) (Z.ones 2)) with 0. apply Z.land_0_r. }
  split; [exact A|]. split; [exact B|]. split; [|split; [|split]].
  - rewrite A. apply Z.bits_inj'. intros n Hn.
    apply (sext_field_extend 24 op n); lia.
  - rewrite B. apply Z.bits_inj'. intros n Hn.
    apply (sext_field_extend 13 op n); lia.
  - split; [|apply M]. rewrite A. apply (sext_range 24). lia.
  - split; [|apply M]. rewrite B. apply (sext_range 13). lia.
Qed.

(** ** Block transfers and the call frame *)

Lemma u32_u32_add (a k : Z) : u32 (u32 a + k) = u32 (a + k).
Proof. unfold u32. apply Z.add_mod_idemp_l. lia. Qed.

Lemma u32_add_apart (a j k : Z) :
  0 < k - j < 2^32 -> u32 (a + j) <> u32 (a + k).
Proof.
  intros H E. unfold u32 in E. Z.div_mod_to_equations. lia.
Qed.

Lemma mem_byte_write_w_far (o : i960) (A x addr : Z) :
  (forall k, 0 <= k < 4 -> u32 (A + k) <> u32 addr) ->
  mem_byte (mem (i960_write_w o A x)) addr = mem_byte (mem o) addr.
Proof.
  intros N. unfold i960_write_w, set_mem. cbn [mem].
  pose proof (N 0 ltac:(lia)) as N0. rewrite Z.add_0_r in N0.
  rewrite !mem_byte_put_byte_ne; [reflexivity|exact N0|apply N; lia..].
Qed.

Lemma mem_byte_write_w_low (o : i960) (A x addr : Z) :
  u32 addr = u32 A -> mem_byte (mem (i960_write_w o A x)) addr = u8 x.
Proof.
  intros E. unfold i960_write_w, set_mem. cbn [mem].
  assert (N : forall k, 0 < k < 4 -> u32 (A + k) <> u32 addr).
  { intros k Hk. rewrite E. rewrite <- (Z.add_0_r A) at 2.
    apply not_eq_sym, u32_add_apart. lia. }
  rewrite !mem_byte_put_byte_ne by (apply N; lia).
  unfold mem_byte, put_byte. rewrite E, lookup_insert_eq. reflexivity.
Qed.

Lemma get_r_write_w (o : i960) (A x k : Z) :
  get_r (i960_write_w o A x) k = get_r o k.
Proof. reflexivity. Qed.

(** The store loop leaves alone every byte outside the [n + 3] bytes
    from [efa + i] on. *)
Lemma mem_byte_stx_loop_far (n : nat) (efa c addr : Z) :
  forall i o,
    (forall j, i <= j < i + Z.of_nat n + 3 -> u32 (efa + j) <> u32 addr) ->
    mem_byte (mem (i960_stx_loop n i o efa c)) addr = mem_byte (mem o) addr.
Proof.
  induction n as [|n IH]; intros i o N; [reflexivity|].
  cbn [i960_stx_loop]. rewrite IH by (intros j Hj; apply N; lia).
  apply mem_byte_write_w_far. intros k Hk.
  rewrite u32_u32_add, <- Z.add_assoc. apply N. lia.
Qed.

(** Iteration [k] of the store loop decides the byte at [efa + k]: the
    later words start above it. *)
Lemma mem_byte_stx_loop_at (n : nat) (efa c : Z) :
  forall i o k,
    i <= k < i + Z.of_nat n -> Z.of_nat n + 3 <= 2^32 ->
    mem_byte (mem (i960_stx_loop n i o efa c)) (efa + k)
    = u8 (get_r o (c + k)).
Proof.
  induction n as [|n IH]; intros i o k Hk Hn; [lia|].
  cbn [i960_stx_loop].
  destruct (Z.eq_dec k i) as [->|Hne].
  - rewrite mem_byte_stx_loop_far
      by (intros j Hj; apply not_eq_sym, u32_add_apart; lia).
    apply mem_byte_write_w_low. unfold u32. symmetry.
    apply Z.mod_mod. lia.
  - rewrite IH by lia. rewrite get_r_write_w. reflexivity.
Qed.

Lemma i960_stx_loop_last (n : nat) (efa c : Z) :
  forall i o,
    i960_stx_loop (S n) i o efa c
    = let o' := i960_stx_loop n i o efa c in
      i960_write_w o' (u32 (efa + (i + Z.of_nat n)))
                   (get_r o' (c + (i + Z.of_nat n))).
Proof.
  induction n as [|n IH]; intros i o.
  - cbn [i960_stx_loop Z.of_nat]. cbv zeta. rewrite !Z.add_0_r.
    reflexivity.
  - change (i960_stx_loop (S (S n)) i o efa c)
      with (i960_stx_loop (S n) (i + 1)
              (i960_write_w o (u32 (efa + i)) (get_r o (c + i))) efa c).
    rewrite IH. cbv zeta. cbn [i960_stx_loop].
    replace (i + 1 + Z.of_nat n) with (i + Z.of_nat (S n)) by lia.
    reflexivity.
Qed.

Lemma mem_i960_ldx_loop (n : nat) (efa c : Z) :
  forall i o, mem (i960_ldx_loop n i o efa c) = mem o.
Proof.
  induction n as [|n IH]; intros i o; [reflexivity|].
  cbn [i960_ldx_loop]. rewrite IH. reflexivity.
Qed.

Lemma length_i960_ldx_loop (n : nat) (efa c : Z) :
  forall i o, length (r (i960_ldx_loop n i o efa c)) = length (r o).
Proof.
  induction n as [|n IH]; intros i o; [reflexivity|].
  cbn [i960_ldx_loop]. rewrite IH. apply length_set_r.
Qed.

Lemma i960_read_w_mem (o1 o2 : i960) (addr : Z) :
  mem o1 = mem o2 -> i960_read_w o1 addr = i960_read_w o2 addr.
Proof. intros E. unfold i960_read_w. rewrite E. reflexivity. Qed.

(** Iteration [k] of the load loop decides [r[c + k]]. *)
Lemma get_r_i960_ldx_loop_at (n : nat) (efa c : Z) :
  forall i o k,
    0 <= c + i -> i <= k < i + Z.of_nat n ->
    (Z.to_nat (c + i) + n <= length (r o))%nat ->
    get_r (i960_ldx_loop n i o efa c) (c + k)
    = i960_read_w o (u32 (efa + k)).
Proof.
  induction n as [|n IH]; intros i o k Hc Hk Hlen; [lia|].
  cbn [i960_ldx_loop].
  destruct (Z.eq_dec k i) as [->|Hne].
  - rewrite get_r_i960_ldx_loop_below by lia.
    apply get_set_r_same. lia.
  - rewrite IH; [apply i960_read_w_mem; reflexivity|lia|lia|].
    rewrite length_set_r. lia.
Qed.

(** X21 ([i960_stx], [i960_ldx]).  The two block-transfer loops step the
    address by one byte per register, not by one word.  [i960_stx] leaves
    at [efa + k] the low byte of [r[c + k]] for each of the sixteen
    registers, the whole of the last register from [efa + 15] on, and
    touches no byte beyond these nineteen and no register; [i960_ldx]
    loads [r[c + k]] with the word found at [efa + k] and writes no
    memory. *)
Theorem block_transfer_stride (o : i960) (efa c : Z) :
  (forall k, 0 <= k < 16 ->
     i960_read_b (i960_stx o efa c) (efa + k) = u8 (get_r o (c + k))) /\
  (is_u32 (get_r o (c + 15)) ->
     i960_read_w (i960_stx o efa c) (u32 (efa + 15)) = get_r o (c + 15)) /\
  (forall addr, 19 <= (addr - efa) mod 2^32 ->
     i960_read_b (i960_stx o efa c) addr = i960_read_b o addr) /\
  r (i960_stx o efa c) = r o /\
  (0 <= c -> (Z.to_nat c + 16 <= length (r o))%nat ->
     forall k, 0 <= k < 16 ->
       get_r (i960_ldx o efa c) (c + k) = i960_read_w o (u32 (efa + k))) /\
  mem (i960_ldx o efa c) = mem o.
Proof.
  split; [|split; [|split; [|split; [|split]]]].
  - intros k Hk. unfold i960_read_b, i960_stx.
    apply mem_byte_stx_loop_at; cbn [Z.of_nat]; lia.
  - intros Hw. unfold i960_stx. rewrite (i960_stx_loop_last 15).
    cbv zeta. cbn [Z.of_nat Pos.of_succ_nat Pos.succ].
    rewrite i960_read_w_write_w.
    + unfold get_r. rewrite r_i960_stx_loop. reflexivity.
    + unfold get_r. rewrite r_i960_stx_loop. exact Hw.
  - intros addr Hd. unfold i960_read_b, i960_stx.
    apply mem_byte_stx_loop_far. cbn [Z.of_nat]. intros j Hj E.
    unfold u32 in E. Z.div_mod_to_equations. lia.
  - apply r_i960_stx_loop.
  - intros Hc Hlen k Hk. unfold i960_ldx.
    apply get_r_i960_ldx_loop_at; [lia|cbn [Z.of_nat]; lia|].
    rewrite Z.add_0_r. exact Hlen.
  - apply mem_i960_ldx_loop.
Qed.

Lemma block_transfer_stride_witness :
  let o := set_r i960_zero 20 0xAABBCCDD in
  0 <= 4 < 16 /\
  i960_read_b (i960_stx o 0x1000 16) (0x1000 + 4) = u8 (get_r o (16 + 4)).
Proof.
  cbv zeta. split; [lia|].
  destruct (block_transfer_stride (set_r i960_zero 20 0xAABBCCDD) 0x1000 16)
    as (H & _).
  apply H. lia.
Defined.

Lemma land_not_63 (x : Z) :
  is_u32 x -> Z.land x (u32_not 63) = 64 * (x / 64).
Proof.
  intros Hx. rewrite Z.mul_comm. change 64 with (2^6).
  rewrite <- Z.shiftr_div_pow2, <- Z.shiftl_mul_pow2 by lia.
  apply Z.bits_inj'. intros n Hn.
  rewrite Z.land_spec.
  destruct (Z.lt_ge_cases n 6) as [L|G].
  - rewrite Z.shiftl_spec_low by lia.
    rewrite testbit_u32_not by lia.
    change 63 with (Z.ones 6). rewrite Z.testbit_ones_nonneg by lia.
    replace (n <? 6) with true by lia. apply andb_false_r.
  - rewrite Z.shiftl_spec, Z.shiftr_spec by lia.
    replace (n - 6 + 6) with n by lia.
    destruct (Z.lt_ge_cases n 32) as [L|G'].
    + rewrite testbit_u32_not by lia.
      change 63 with (Z.ones 6). rewrite Z.testbit_ones_nonneg by lia.
      replace (n <? 6) with false by lia. apply andb_true_r.
    + rewrite (testbit_is_u32_high x n Hx G'). reflexivity.
Qed.

Lemma pc_set_r (o : i960) (c v : Z) : pc (set_r o c v) = pc o.
Proof. reflexivity. Qed.

Lemma pc_set_ip (o : i960) (v : Z) : pc (set_ip o v) = pc o.
Proof. reflexivity. Qed.

Lemma tc_set_r (o : i960) (c v : Z) : tc (set_r o c v) = tc o.
Proof. reflexivity. Qed.

Lemma tc_set_ip (o : i960) (v : Z) : tc (set_ip o v) = tc o.
Proof. reflexivity. Qed.

Lemma faults_set_r (o : i960) (c v : Z) : faults (set_r o c v) = faults o.
Proof. reflexivity. Qed.

Lemma faults_set_ip (o : i960) (v : Z) : faults (set_ip o v) = faults o.
Proof. reflexivity. Qed.

Lemma pc_i960_stx_loop (n : nat) (efa c : Z) :
  forall i o, pc (i960_stx_loop n i o efa c) = pc o.
Proof.
  induction n as [|n IH]; intros i o; [reflexivity|].
  cbn [i960_stx_loop]. rewrite IH. reflexivity.
Qed.

Lemma tc_i960_stx_loop (n : nat) (efa c : Z) :
  forall i o, tc (i960_stx_loop n i o efa c) = tc o.
Proof.
  induction n as [|n IH]; intros i o; [reflexivity|].
  cbn [i960_stx_loop]. rewrite IH. reflexivity.
Qed.

Lemma faults_i960_stx_loop (n : nat) (efa c : Z) :
  forall i o, faults (i960_stx_loop n i o efa c) = faults o.
Proof.
  induction n as [|n IH]; intros i o; [reflexivity|].
  cbn [i960_stx_loop]. rewrite IH. reflexivity.
Qed.

Lemma ctl_i960_call (o : i960) (efa : Z) :
  ac (i960_call o efa) = ac o /\ pc (i960_call o efa) = pc o /\
  tc (i960_call o efa) = tc o /\ faults (i960_call o efa) = faults o.
Proof.
  split; [apply ac_i960_call|].
  unfold i960_call, i960_b, i960_stx. cbv zeta.
  split; [|split].
  - rewrite pc_set_ip, !pc_set_r, pc_i960_stx_loop. apply pc_set_r.
  - rewrite tc_set_ip, !tc_set_r, tc_i960_stx_loop. apply tc_set_r.
  - rewrite faults_set_ip, !faults_set_r, faults_i960_stx_loop.
    apply faults_set_r.
Qed.

Lemma i960_call_registers (o : i960) (efa : Z) :
  length (r o) = 32%nat ->
  let o' := i960_call o efa in
  let fp := Z.land (u32 (get_r o I960_SP + 63)) (u32_not 63) in
  ip o' = efa /\
  get_r o' I960_RIP = ip o /\
  get_r o' I960_PFP = get_r o I960_FP /\
  get_r o' I960_FP = fp /\
  get_r o' I960_SP = u32 (fp + 64) /\
  (forall j, 3 <= j < 31 -> get_r o' j = get_r o j).
Proof.
  intros Hlen. cbv zeta.
  unfold i960_call, i960_b, i960_stx. cbv zeta.
  unfold I960_RIP, I960_PFP, I960_SP, I960_FP.
  set (fp := Z.land (u32 (get_r o 1 + 63)) (u32_not 63)).
  set (o1 := set_r o 2 (ip o)).
  set (o2 := i960_stx_loop 16 0 o1 (get_r o1 31) 16).
  assert (Hr2 : r o2 = r o1) by apply r_i960_stx_loop.
  assert (Hget2 : forall k, get_r o2 k = get_r o1 k)
    by (intros k; unfold get_r; rewrite Hr2; reflexivity).
  assert (Hlen1 : length (r o1) = 32%nat)
    by (unfold o1; rewrite length_set_r; exact Hlen).
  assert (Hlen2 : length (r o2) = 32%nat) by (rewrite Hr2; exact Hlen1).
  set (o3 := set_r o2 0 (get_r o2 31)).
  set (o4 := set_r o3 31 fp).
  set (o5 := set_r o4 1 (u32 (fp + 64))).
  assert (Hlen3 : length (r o3) = 32%nat)
    by (unfold o3; rewrite length_set_r; exact Hlen2).
  assert (Hlen4 : length (r o4) = 32%nat)
    by (unfold o4; rewrite length_set_r; exact Hlen3).
  split; [reflexivity|]. split; [|split; [|split; [|split]]].
  - rewrite get_r_set_ip. unfold o5, o4, o3.
    rewrite !get_set_r_other by lia. rewrite Hget2.
    unfold o1. apply get_set_r_same. rewrite Hlen. lia.
  - rewrite get_r_set_ip. unfold o5, o4.
    rewrite !get_set_r_other by lia. unfold o3.
    rewrite get_set_r_same by (rewrite Hlen2; lia).
    rewrite Hget2. unfold o1. apply get_set_r_other. lia.
  - rewrite get_r_set_ip. unfold o5. rewrite get_set_r_other by lia.
    unfold o4. apply get_set_r_same. rewrite Hlen3. lia.
  - rewrite get_r_set_ip. unfold o5.
    apply get_set_r_same. rewrite Hlen4. lia.
  - intros j Hj. rewrite get_r_set_ip. unfold o5, o4, o3.
    rewrite !get_set_r_other by lia. rewrite Hget2.
    unfold o1. apply get_set_r_other. lia.
Qed.

(** X22 ([i960_call], [i960_bal], [i960_b]).  [call] continues at the
    target with the return address in RIP and the old frame pointer in
    PFP; the new frame pointer is the stack pointer rounded up to the
    next multiple of 64 (modulo 2^32) and the new stack pointer lies 64
    bytes above it; the registers from r3 up to g14 and the control words
    are as before, and nothing is signalled.  [bal] continues at the
    target with the old [ip] in the link register and changes no other
    register. *)
Theorem i960_call_frame (o : i960) (efa link : Z) :
  length (r o) = 32%nat -> is_u32 (get_r o I960_SP) ->
  let o' := i960_call o efa in
  let fp := get_r o' I960_FP in
  ip o' = efa /\
  get_r o' I960_RIP = ip o /\
  get_r o' I960_PFP = get_r o I960_FP /\
  fp = 64 * (u32 (get_r o I960_SP + 63) / 64) /\
  (get_r o I960_SP + 63 < 2^32 ->
     get_r o I960_SP <= fp < get_r o I960_SP + 64) /\
  get_r o' I960_SP = u32 (fp + 64) /\
  (forall j, 3 <= j < 31 -> get_r o' j = get_r o j) /\
  (ac o' = ac o /\ pc o' = pc o /\ tc o' = tc o /\ faults o' = faults o) /\
  (ip (i960_bal o efa link) = efa /\
   (0 <= link < 32 -> get_r (i960_bal o efa link) link = ip o) /\
   forall j, 0 <= j -> 0 <= link -> j <> link ->
     get_r (i960_bal o efa link) j = get_r o j).
Proof.
  intros Hlen Hsp. cbv zeta.
  destruct (i960_call_registers o efa Hlen)
    as (Hip & Hrip & Hpfp & Hfp & Hsp' & Hrest).
  assert (Hfpv : get_r (i960_call o efa) I960_FP
                 = 64 * (u32 (get_r o I960_SP + 63) / 64)).
  { rewrite Hfp. apply land_not_63, is_u32_u32. }
  split; [exact Hip|]. split; [exact Hrip|]. split; [exact Hpfp|].
  split; [exact Hfpv|]. split; [|split; [|split; [|split]]].
  - intros Hno. rewrite Hfpv.
    rewrite u32_small by (unfold is_u32 in *; lia).
    unfold is_u32 in Hsp. Z.div_mod_to_equations. lia.
  - rewrite Hsp', Hfp. reflexivity.
  - exact Hrest.
  - apply ctl_i960_call.
  - unfold i960_bal, i960_b. split; [reflexivity|]. split.
    + intros Hl. rewrite get_r_set_ip. apply get_set_r_same.
      rewrite Hlen. lia.
    + intros j Hj Hl Hne. rewrite get_r_set_ip.
      apply get_set_r_other. lia.
Qed.

Lemma i960_call_frame_witness :
  let o := set_r (set_r i960_zero I960_SP 0x1041) I960_FP 0x1000 in
  (length (r o) = 32%nat /\ is_u32 (get_r o I960_SP)) /\
  get_r (i960_call o 0x3000) I960_FP = 0x1080.
Proof.
  cbv zeta.
  set (o := set_r (set_r i960_zero I960_SP 0x1041) I960_FP 0x1000).
  assert (Hl : length (r o) = 32%nat) by reflexivity.
  assert (Hs : is_u32 (get_r o I960_SP))
    by (vm_compute; split; [discriminate|reflexivity]).
  split; [split; [exact Hl|exact Hs]|].
  destruct (i960_call_frame o 0x3000 I960_LP Hl Hs) as (_ & _ & _ & H & _).
  etransitivity; [exact H|vm_compute; reflexivity].
Defined.

(** ** Stores and loads *)

Lemma sext_fits (w v : Z) :
  0 < w -> - 2^(w - 1) <= v < 2^(w - 1) -> sext w v = v.
Proof.
  intros Hw Hv. unfold sext. cbv zeta.
  assert (E : 2^w = 2 * 2^(w - 1)).
  { replace w with (Z.succ (w - 1)) at 1 by lia.
    apply Z.pow_succ_r. lia. }
  destruct (Z.lt_ge_cases v 0).
  - assert (M : v mod 2^w = v + 2^w).
    { symmetry. apply (Z.mod_unique _ _ (-1)); lia. }
    rewrite M. destruct (Z.ltb_spec (v + 2^w) (2^(w - 1))); lia.
  - rewrite Z.mod_small by lia.
    destruct (Z.ltb_spec v (2^(w - 1))); lia.
Qed.

Lemma mod_pow2_mod (w k x : Z) :
  0 <= w <= k -> (x mod 2^k) mod 2^w = x mod 2^w.
Proof.
  intros H. apply Z.mod_mod_divide.
  exists (2^(k - w)). rewrite <- Z.pow_add_r by lia. f_equal. lia.
Qed.

Lemma sext_mod (w k x : Z) :
  0 < w <= k -> sext w (x mod 2^k) = sext w x.
Proof.
  intros H. unfold sext. rewrite mod_pow2_mod by lia. reflexivity.
Qed.

Lemma sext_sext (w k x : Z) :
  0 < w <= k -> sext w (sext k x) = sext w x.
Proof.
  intros H. rewrite <- (sext_mod w k (sext k x)) by exact H.
  rewrite <- (sext_mod w k x) by exact H. f_equal.
  unfold sext. cbv zeta.
  assert (0 < 2^k) by (apply Z.pow_pos_nonneg; lia).
  destruct (x mod 2^k <? 2^(k - 1)).
  - apply Z.mod_mod. lia.
  - replace (x mod 2^k - 2^k) with (x mod 2^k + (-1) * 2^k) by lia.
    rewrite Z.mod_add by lia. apply Z.mod_mod. lia.
Qed.

Lemma mem_i960_on_overflow (o : i960) : mem (i960_on_overflow o) = mem o.
Proof. unfold i960_on_overflow. destruct (truthy _); reflexivity. Qed.

Lemma mem_byte_put_byte_eq (m : gmap Z Z) (a x : Z) :
  mem_byte (put_byte m a x) a = u8 x.
Proof. unfold mem_byte, put_byte. rewrite lookup_insert_eq. reflexivity. Qed.

Lemma i960_read_b_mem (o1 o2 : i960) (addr : Z) :
  mem o1 = mem o2 -> i960_read_b o1 addr = i960_read_b o2 addr.
Proof. intros E. unfold i960_read_b. rewrite E. reflexivity. Qed.

Lemma i960_read_s_mem (o1 o2 : i960) (addr : Z) :
  mem o1 = mem o2 -> i960_read_s o1 addr = i960_read_s o2 addr.
Proof. intros E. unfold i960_read_s. rewrite E. reflexivity. Qed.

Lemma i960_read_b_write_b (o : i960) (addr x : Z) :
  i960_read_b (i960_write_b o addr x) addr = u8 x.
Proof.
  unfold i960_read_b, i960_write_b, set_mem. cbn [mem].
  apply mem_byte_put_byte_eq.
Qed.

Lemma i960_read_s_write_s (o : i960) (addr x : Z) :
  i960_read_s (i960_write_s o addr x) addr = u16 x.
Proof.
  unfold i960_read_s, i960_write_s, set_mem. cbn [mem].
  rewrite mem_byte_put_byte_eq.
  rewrite mem_byte_put_byte_ne, mem_byte_put_byte_eq.
  - unfold u8, u16. rewrite Z.shiftr_div_pow2, Z.shiftl_mul_pow2 by lia.
    pose proof (Z.mod_pos_bound (x / 2^8) (2^8) ltac:(lia)) as H1.
    pose proof (Z.mod_pos_bound x (2^8) ltac:(lia)) as H0.
    rewrite <- Z.add_nocarry_lor.
    + apply (Z.mod_unique _ _ (x / 2^8 / 2^8)); [lia|].
      Z.div_mod_to_equations. lia.
    + apply Z.bits_inj'. intros n Hn. rewrite Z.land_spec, Z.bits_0.
      destruct (Z.lt_ge_cases n 8) as [L|G].
      * rewrite <- Z.shiftl_mul_pow2, Z.shiftl_spec_low by lia.
        apply andb_false_r.
      * rewrite (testbit_small (x mod 2^8) 8 n) by lia. reflexivity.
  - rewrite <- (Z.add_0_r addr) at 2. apply not_eq_sym, u32_add_apart. lia.
Qed.

(** X23 ([mem_st], [mem_ld], [mem_stb], [mem_ldb], [mem_sts],
    [mem_lds]).  A word stored and loaded back from the same address is
    the word.  A byte or short stored and loaded back is the low 8 or 16
    bits of the register, zero-extended by the ordinal load and
    sign-extended by the integer load, so that an integer that fits the
    width comes back whole.  The integer stores signal integer overflow
    exactly when the register, read as a signed number, does not fit
    the width; the byte or short is written either way. *)
Theorem store_load_round_trip (o : i960) (op op' efa c c' : Z) :
  length (r o) = 32%nat -> 0 <= c' < 32 ->
  let v := get_r o c in
  let int := truthy (u32_bit_select op (24 + 6)) in
  let int' := truthy (u32_bit_select op' (24 + 6)) in
  (is_u32 v -> get_r (mem_ld (mem_st o op efa c) op' efa c') c' = v) /\
  get_r (mem_ldb (mem_stb o op efa c) op' efa c') c'
    = (if int' then u32 (i8 v) else u8 v) /\
  get_r (mem_lds (mem_sts o op efa c) op' efa c') c'
    = (if int' then u32 (i16 v) else u16 v) /\
  (is_u32 v -> - 2^7 <= i32 v < 2^7 -> u32 (i8 v) = v) /\
  (is_u32 v -> - 2^15 <= i32 v < 2^15 -> u32 (i16 v) = v) /\
  mem_stb o op efa c
    = (let w := i960_write_b o efa (u32 (i32 v)) in
       if int && negb ((- 2^7 <=? i32 v) && (i32 v <? 2^7))
       then i960_on_overflow w else w) /\
  mem_sts o op efa c
    = (let w := i960_write_s o efa (u32 (i32 v)) in
       if int && negb ((- 2^15 <=? i32 v) && (i32 v <? 2^15))
       then i960_on_overflow w else w).
Proof.
  intros Hlen Hc'. cbv zeta.
  assert (Hin : forall q, r q = r o ->
            (Z.to_nat c' < length (r q))%nat).
  { intros q E. rewrite E, Hlen. lia. }
  assert (Hfit : forall w, 0 < w <= 32 ->
            (i32 (get_r o c) =? sext w (i32 (get_r o c)))
            = (- 2^(w - 1) <=? i32 (get_r o c))
              && (i32 (get_r o c) <? 2^(w - 1))).
  { intros w Hw. pose proof (sext_range w (i32 (get_r o c)) ltac:(lia)).
    destruct (Z.eqb_spec (i32 (get_r o c)) (sext w (i32 (get_r o c))))
      as [E|E]; [lia|].
    destruct (Z.leb_spec (- 2^(w - 1)) (i32 (get_r o c)));
      destruct (Z.ltb_spec (i32 (get_r o c)) (2^(w - 1)));
      try reflexivity.
    exfalso. apply E. symmetry. apply sext_fits; lia. }
  assert (Hb : forall q,
            mem q = mem (i960_write_b o efa (u32 (i32 (get_r o c)))) ->
            i960_read_b q efa = u8 (get_r o c)).
  { intros q E. rewrite (i960_read_b_mem _ _ _ E), i960_read_b_write_b.
    unfold u8, u32. rewrite mod_pow2_mod by lia.
    change (i32 (get_r o c) mod 2^8) with (u8 (i32 (get_r o c))).
    unfold u8, i32. rewrite <- (mod_pow2_mod 8 32) by lia.
    fold (u32 (sext 32 (get_r o c))). fold (i32 (get_r o c)).
    rewrite u32_i32. unfold u32. apply mod_pow2_mod. lia. }
  assert (Hs : forall q,
            mem q = mem (i960_write_s o efa (u32 (i32 (get_r o c)))) ->
            i960_read_s q efa = u16 (get_r o c)).
  { intros q E. rewrite (i960_read_s_mem _ _ _ E), i960_read_s_write_s.
    rewrite u32_i32. unfold u16, u32. apply mod_pow2_mod. lia. }
  split; [|split; [|split; [|split; [|split; [|split]]]]].
  - intros Hv. unfold mem_ld, mem_st.
    rewrite get_set_r_same by (apply Hin; reflexivity).
    apply i960_read_w_write_w, Hv.
  - unfold mem_ldb. cbv zeta.
    rewrite get_set_r_same.
    + rewrite Hb.
      * unfold i8, u8. rewrite sext_mod by lia. reflexivity.
      * unfold mem_stb. cbv zeta. destruct (_ && _);
          [apply mem_i960_on_overflow|reflexivity].
    + apply Hin. unfold mem_stb. cbv zeta. destruct (_ && _);
        [|reflexivity]. unfold i960_on_overflow.
      destruct (truthy _); reflexivity.
  - unfold mem_lds. cbv zeta.
    rewrite get_set_r_same.
    + rewrite Hs.
      * unfold i16, u16. rewrite sext_mod by lia. reflexivity.
      * unfold mem_sts. cbv zeta. destruct (_ && _);
          [apply mem_i960_on_overflow|reflexivity].
    + apply Hin. unfold mem_sts. cbv zeta. destruct (_ && _);
        [|reflexivity]. unfold i960_on_overflow.
      destruct (truthy _); reflexivity.
  - intros Hv Hf. unfold i8.
    rewrite <- (sext_sext 8 32) by lia. fold (i32 (get_r o c)).
    rewrite sext_fits by lia. rewrite u32_i32. apply u32_small, Hv.
  - intros Hv Hf. unfold i16.
    rewrite <- (sext_sext 16 32) by lia. fold (i32 (get_r o c)).
    rewrite sext_fits by lia. rewrite u32_i32. apply u32_small, Hv.
  - unfold mem_stb, i8. cbv zeta. rewrite (Hfit 8) by lia. reflexivity.
  - unfold mem_sts, i16. cbv zeta. rewrite (Hfit 16) by lia. reflexivity.
Qed.

Lemma store_load_round_trip_witness :
  let o := set_r i960_zero 3 0xFFFFFF85 in
  (length (r o) = 32%nat /\ 0 <= 4 < 32) /\
  get_r (mem_ldb (mem_stb o 0xC2000000 0x100 3) 0xC0000000 0x100 4) 4
  = 0xFFFFFF85.
Proof.
  cbv zeta. set (o := set_r i960_zero 3 0xFFFFFF85).
  assert (Hl : length (r o) = 32%nat) by reflexivity.
  split; [split; [exact Hl|lia]|].
  destruct (store_load_round_trip o 0xC2000000 0xC0000000 0x100 3 4 Hl
              ltac:(lia)) as (_ & H & _).
  etransitivity; [exact H|vm_compute; reflexivity].
Defined.

(** ** Carry chains *)

Lemma u32_adc_exact (x y c : Z) :
  is_u32 x -> is_u32 y -> 0 <= c <= 1 ->
  is_u32 (fst (u32_adc x y c)) /\
  0 <= snd (u32_adc x y c) <= 1 /\
  fst (u32_adc x y c) + 2^32 * snd (u32_adc x y c) = x + y + c.
Proof.
  unfold is_u32, u32_adc, u32_add, u32. intros Hx Hy Hc. cbn [fst snd].
  pose proof (Z.mod_pos_bound (x + (y + c) mod 2^32) (2^32) ltac:(lia)).
  split; [assumption|].
  destruct (Z.lt_ge_cases (y + c) (2^32)) as [Hs|Hs].
  - rewrite (Z.mod_small (y + c)) in * by lia.
    destruct (Z.ltb_spec (y + c) y); [lia|].
    destruct (Z.lt_ge_cases (x + (y + c)) (2^32)).
    + rewrite (Z.mod_small (x + (y + c))) by lia.
      destruct (Z.ltb_spec (x + (y + c)) x); simpl; lia.
    + assert (E : (x + (y + c)) mod 2^32 = x + (y + c) - 2^32).
      { symmetry. apply (Z.mod_unique _ _ 1); lia. }
      rewrite E.
      destruct (Z.ltb_spec (x + (y + c) - 2^32) x); simpl; lia.
  - assert (E : y + c = 2^32) by lia. rewrite E.
    change (2^32 mod 2^32) with 0. rewrite Z.add_0_r, Z.mod_small by lia.
    destruct (Z.ltb_spec 0 y), (Z.ltb_spec x x); simpl; lia.
Qed.

Lemma u32_sbb_exact (x y c : Z) :
  is_u32 x -> is_u32 y -> 0 <= c <= 1 ->
  is_u32 (fst (u32_sbb x y c)) /\
  0 <= snd (u32_sbb x y c) <= 1 /\
  fst (u32_sbb x y c) - 2^32 * snd (u32_sbb x y c) = x - y - c.
Proof.
  unfold is_u32, u32_sbb, u32_add, u32_sub, u32. intros Hx Hy Hc.
  cbn [fst snd].
  pose proof (Z.mod_pos_bound (x - (y + c) mod 2^32) (2^32) ltac:(lia)).
  split; [assumption|].
  destruct (Z.lt_ge_cases (y + c) (2^32)) as [Hs|Hs].
  - rewrite (Z.mod_small (y + c)) in * by lia.
    destruct (Z.ltb_spec (y + c) y); [lia|].
    destruct (Z.lt_ge_cases (x - (y + c)) 0).
    + assert (E : (x - (y + c)) mod 2^32 = x - (y + c) + 2^32).
      { symmetry. apply (Z.mod_unique _ _ (-1)); lia. }
      rewrite E.
      destruct (Z.gtb_spec (x - (y + c) + 2^32) x); simpl; lia.
    + rewrite (Z.mod_small (x - (y + c))) by lia.
      destruct (Z.gtb_spec (x - (y + c)) x); simpl; lia.
  - assert (E : y + c = 2^32) by lia. rewrite E.
    change (2^32 mod 2^32) with 0. rewrite Z.sub_0_r, Z.mod_small by lia.
    destruct (Z.ltb_spec 0 y), (Z.gtb_spec x x); simpl; lia.
Qed.

Lemma carry_bit_set_cond (x co ovf : Z) :
  0 <= co <= 1 -> 0 <= ovf <= 1 ->
  Z.b2z (truthy (Z.land (Z.lor (Z.land x (u32_not I960_CC_MASK))
                               (Z.lor (Z.shiftl co 1) ovf)) 2)) = co.
Proof.
  intros Hco Hovf.
  set (cc := Z.lor (Z.shiftl co 1) ovf).
  assert (Hcc : 0 <= cc <= 7 /\ Z.land cc 2 = 2 * co).
  { unfold cc.
    assert (co = 0 \/ co = 1) as [-> | ->] by lia;
      (assert (ovf = 0 \/ ovf = 1) as [-> | ->] by lia);
      vm_compute; (split; [split; discriminate|reflexivity]). }
  destruct Hcc as [Hr Hb].
  replace 2 with (Z.land I960_CC_MASK 2) at 1 by reflexivity.
  rewrite Z.land_assoc, land_set_cond by exact Hr.
  rewrite Hb. assert (co = 0 \/ co = 1) as [-> | ->] by lia; reflexivity.
Qed.

(** One step of the chain: word and carry out make up the exact sum or
    difference with the carry coming in. *)
Lemma reg_addc_step (o : i960) (op a b c : Z) :
  is_u32 a -> is_u32 b -> (Z.to_nat c < length (r o))%nat ->
  let cin := Z.b2z (truthy (Z.land (ac o) 2)) in
  let o' := reg_addc o op a b c in
  let cout := Z.b2z (truthy (Z.land (ac o') 2)) in
  is_u32 (get_r o' c) /\
  (if truthy (u32_bit_select op (7 + 1))
   then get_r o' c - 2^32 * cout = a - b - cin
   else get_r o' c + 2^32 * cout = a + b + cin).
Proof.
  intros Ha Hb Hc. cbv zeta. unfold reg_addc. cbv zeta.
  set (cin := Z.b2z (truthy (Z.land (ac o) 2))).
  assert (Hcin : 0 <= cin <= 1)
    by (unfold cin; destruct (truthy _); simpl; lia).
  destruct (u32_adc_exact a b cin Ha Hb Hcin) as (A1 & A2 & A3).
  destruct (u32_sbb_exact a b cin Ha Hb Hcin) as (S1 & S2 & S3).
  destruct (truthy (u32_bit_select op (7 + 1))).
  - destruct (u32_sbb a b cin) as [res co]. cbn [fst snd] in *.
    rewrite get_r_set_cond, get_set_r_same by exact Hc.
    split; [exact S1|]. unfold i960_set_cond, set_ac. cbn [ac].
    rewrite carry_bit_set_cond;
      [exact S3|exact S2|destruct (i32_check_overflow _ _ _); simpl; lia].
  - destruct (u32_adc a b cin) as [res co]. cbn [fst snd] in *.
    rewrite get_r_set_cond, get_set_r_same by exact Hc.
    split; [exact A1|]. unfold i960_set_cond, set_ac. cbn [ac].
    rewrite carry_bit_set_cond;
      [exact A3|exact A2|destruct (i32_check_overflow _ _ _); simpl; lia].
Qed.

Lemma get_r_reg_addc_other (o : i960) (op a b c j : Z) :
  Z.to_nat c <> Z.to_nat j ->
  get_r (reg_addc o op a b c) j = get_r o j.
Proof.
  intros H. unfold reg_addc. cbv zeta.
  destruct (if truthy (u32_bit_select op (7 + 1)) then _ else _)
    as [res co].
  rewrite get_r_set_cond. apply get_set_r_other, H.
Qed.

Lemma length_reg_addc (o : i960) (op a b c : Z) :
  length (r (reg_addc o op a b c)) = length (r o).
Proof.
  unfold reg_addc. cbv zeta.
  destruct (if truthy (u32_bit_select op (7 + 1)) then _ else _)
    as [res co].
  unfold i960_set_cond, set_ac. cbn [r]. apply length_insert.
Qed.

(** X24 ([reg_addc], [u32_adc], [u32_sbb], [i960_set_cond]).  The carry
    that [addc] leaves in bit 1 of the condition code is the carry the
    next [addc] takes in, so two of them in a row add two 64-bit numbers
    held as word pairs exactly: low word, high word and final carry make
    up the sum of the operands and the initial carry.  [subc] chains the
    same way on [a - b - carry], the bit being the borrow. *)
Theorem addc_chain (o : i960) (op al ah bl bh c : Z) :
  is_u32 al -> is_u32 ah -> is_u32 bl -> is_u32 bh ->
  length (r o) = 32%nat -> 0 <= c < 31 ->
  let cin := Z.b2z (truthy (Z.land (ac o) 2)) in
  let o2 := reg_addc (reg_addc o op al bl c) op ah bh (c + 1) in
  let cout := Z.b2z (truthy (Z.land (ac o2) 2)) in
  let lo := get_r o2 c in
  let hi := get_r o2 (c + 1) in
  is_u32 lo /\ is_u32 hi /\
  (if truthy (u32_bit_select op (7 + 1))
   then lo + 2^32 * hi - 2^64 * cout
        = (al + 2^32 * ah) - (bl + 2^32 * bh) - cin
   else lo + 2^32 * hi + 2^64 * cout
        = (al + 2^32 * ah) + (bl + 2^32 * bh) + cin).
Proof.
  intros Hal Hah Hbl Hbh Hlen Hc. cbv zeta.
  set (o1 := reg_addc o op al bl c).
  assert (Hc1 : (Z.to_nat c < length (r o))%nat) by (rewrite Hlen; lia).
  assert (Hc2 : (Z.to_nat (c + 1) < length (r o1))%nat).
  { unfold o1. rewrite length_reg_addc, Hlen. lia. }
  destruct (reg_addc_step o op al bl c Hal Hbl Hc1) as [L1 L2].
  destruct (reg_addc_step o1 op ah bh (c + 1) Hah Hbh Hc2) as [H1 H2].
  fold o1 in L1, L2.
  rewrite (get_r_reg_addc_other o1 op ah bh (c + 1) c) by lia.
  split; [exact L1|]. split; [exact H1|].
  destruct (truthy (u32_bit_select op (7 + 1))); lia.
Qed.

Lemma addc_chain_witness :
  let o2 := reg_addc (reg_addc i960_zero 0x5B000000 0xFFFFFFFF 2 4)
              0x5B000000 1 3 5 in
  (is_u32 0xFFFFFFFF /\ is_u32 1 /\ is_u32 2 /\ is_u32 3 /\
   length (r i960_zero) = 32%nat /\ 0 <= 4 < 31) /\
  get_r o2 4 + 2^32 * get_r o2 5
    + 2^64 * Z.b2z (truthy (Z.land (ac o2) 2))
  = (0xFFFFFFFF + 2^32 * 1) + (2 + 2^32 * 3) + 0.
Proof.
  assert (H1 : is_u32 0xFFFFFFFF) by (unfold is_u32; lia).
  assert (H2 : is_u32 1) by (unfold is_u32; lia).
  assert (H3 : is_u32 2) by (unfold is_u32; lia).
  assert (H4 : is_u32 3) by (unfold is_u32; lia).
  cbv zeta.
  split; [repeat (split; [assumption|]); split; [reflexivity|lia]|].
  destruct (addc_chain i960_zero 0x5B000000 0xFFFFFFFF 1 2 3 4
              H1 H2 H3 H4 eq_refl ltac:(lia)) as (_ & _ & H).
  exact H.
Defined.

(** ** Condition-code discipline *)


(** [cmpinci] (opcode 0x5A5) of 0x7FFFFFFF with the overflow mask set: one
    instruction updates the condition code and sets the overflow flag. *)
Example cmpinci_sets_code_and_flag :
  let o := set_ac i960_zero (2^12) in
  let o' := exec o (REG_core 0x5A000280 0 0x7FFFFFFF 4) in
  cond_code o' = 4 /\ Z.testbit (ac o) 8 = false /\ Z.testbit (ac o') 8 = true.
Proof. vm_compute. repeat split; reflexivity. Qed.

(** [modac] (opcode 0x645) writes whatever the mask lets through. *)
Example modac_writes_any_code :
  let i := REG_supp 0x64000280 7 7 4 in
  is_modac i = true /\ cond_code (exec i960_zero i) = 7.
Proof. vm_compute. split; reflexivity. Qed.

(** The code [addc] / [subc] leave, exactly: the carry (borrow) of the
    exact sum (difference) in bit 1, the sign test of
    [i32_check_overflow] in bit 0. *)
Lemma reg_addc_code (o : i960) (op a b c : Z) :
  is_u32 a -> is_u32 b ->
  let cin := Z.b2z (truthy (Z.land (ac o) 2)) in
  let sub := truthy (u32_bit_select op (7 + 1)) in
  let v := if sub then a - b - cin else a + b + cin in
  cond_code (reg_addc o op a b c)
  = 2 * Z.b2z (if sub then v <? 0 else 2^32 <=? v)
    + Z.b2z (i32_check_overflow (i32 a) (i32 b) (i32 (u32 v))).
Proof.
  intros Ha Hb. cbv zeta. unfold reg_addc. cbv zeta.
  set (cin := Z.b2z (truthy (Z.land (ac o) 2))).
  assert (Hcin : 0 <= cin <= 1)
    by (unfold cin; destruct (truthy _); simpl; lia).
  destruct (u32_adc_exact a b cin Ha Hb Hcin) as (A1 & A2 & A3).
  destruct (u32_sbb_exact a b cin Ha Hb Hcin) as (S1 & S2 & S3).
  assert (Hcc : forall co chk, 0 <= co <= 1 ->
            Z.lor (Z.shiftl co 1) (Z.b2z chk) = 2 * co + Z.b2z chk /\
            0 <= Z.lor (Z.shiftl co 1) (Z.b2z chk) <= 7).
  { intros co chk Hco.
    assert (co = 0 \/ co = 1) as [-> | ->] by lia; destruct chk;
      vm_compute; (split; [reflexivity|split; discriminate]). }
  destruct (truthy (u32_bit_select op (7 + 1))).
  - destruct (u32_sbb a b cin) as [res co]. cbn [fst snd] in *.
    destruct (Hcc co (i32_check_overflow (i32 a) (i32 b) (i32 res)) S2)
      as [E R].
    rewrite cond_code_set_cond by exact R. rewrite E.
    assert (Er : res = u32 (a - b - cin)).
    { unfold u32, is_u32 in *. apply (Z.mod_unique _ _ (- co)); lia. }
    assert (Ec : co = Z.b2z (a - b - cin <? 0)).
    { unfold is_u32 in *.
      destruct (Z.ltb_spec (a - b - cin) 0); simpl; lia. }
    rewrite <- Er, <- Ec. reflexivity.
  - destruct (u32_adc a b cin) as [res co]. cbn [fst snd] in *.
    destruct (Hcc co (i32_check_overflow (i32 a) (i32 b) (i32 res)) A2)
      as [E R].
    rewrite cond_code_set_cond by exact R. rewrite E.
    assert (Er : res = u32 (a + b + cin)).
    { unfold u32, is_u32 in *. apply (Z.mod_unique _ _ co); lia. }
    assert (Ec : co = Z.b2z (2^32 <=? a + b + cin)).
    { unfold is_u32 in *.
      destruct (Z.leb_spec (2^32) (a + b + cin)); simpl; lia. }
    rewrite <- Er, <- Ec. reflexivity.
Qed.

(** The sign test as a boolean: the first two signs agree and the third
    differs. *)
Lemma i32_check_overflow_test (x y z : Z) :
  i32_check_overflow x y z
  = Bool.eqb (x <? 0) (y <? 0) && negb (Bool.eqb (y <? 0) (z <? 0)).
Proof.
  pose proof (i32_check_overflow_signs x y z) as H.
  destruct (i32_check_overflow x y z).
  - destruct (proj1 H eq_refl) as [H1 H2].
    destruct (Z.ltb_spec x 0), (Z.ltb_spec y 0), (Z.ltb_spec z 0);
      cbn [Bool.eqb andb negb]; try reflexivity; lia.
  - destruct (Z.ltb_spec x 0), (Z.ltb_spec y 0), (Z.ltb_spec z 0);
      cbn [Bool.eqb andb negb]; try reflexivity;
      (assert (true = false) as E; [|discriminate E]);
      symmetry; apply H; lia.
Qed.

(** On a sum with carry the sign test is the signed overflow. *)
Lemma addc_overflow_test (a b cin : Z) :
  is_u32 a -> is_u32 b -> 0 <= cin <= 1 ->
  let s := i32 a + i32 b + cin in
  i32_check_overflow (i32 a) (i32 b) (i32 (u32 (a + b + cin)))
  = (s <? INT32_MIN) || (s >? INT32_MAX).
Proof.
  intros Ha Hb Hcin. cbv zeta.
  set (s := i32 a + i32 b + cin).
  assert (Ew : u32 (a + b + cin) = u32 s).
  { destruct (i32_congr a) as [ka Ea], (i32_congr b) as [kb Eb].
    unfold s. rewrite Ea, Eb. unfold u32.
    replace (a + ka * 2^32 + (b + kb * 2^32) + cin)
      with (a + b + cin + (ka + kb) * 2^32) by lia.
    rewrite Z.mod_add by lia. reflexivity. }
  rewrite Ew, i32_u32.
  pose proof (i32_range a) as Ra. pose proof (i32_range b) as Rb.
  pose proof (i32_range s) as Rr.
  destruct (i32_congr s) as [k Ek].
  unfold INT32_MIN, INT32_MAX.
  destruct (i32_check_overflow (i32 a) (i32 b) (i32 s)) eqn:E.
  - apply i32_check_overflow_signs in E. unfold s in *. lia.
  - assert (Hn : ~ ((0 <= i32 a <-> 0 <= i32 b) /\
                    ~ (0 <= i32 b <-> 0 <= i32 s)))
      by (intros H'; apply i32_check_overflow_signs in H'; congruence).
    unfold s in *. lia.
Qed.

(** [subc] (opcode 0x5B2) runs the same sign test on [a - b - carry], so
    its bit 0 is not the signed overflow of the difference: for
    0x7FFFFFFF - 0x80000000, which overflows, the code is 2 (borrow only);
    for 0x80000000 - 0x80000000 = 0, which does not, the code is 1. *)
Example subc_sign_test_is_not_overflow :
  cond_code (reg_addc i960_zero 0x5B000100 0x7FFFFFFF 0x80000000 4) = 2 /\
  INT32_MAX < i32 0x7FFFFFFF - i32 0x80000000 /\
  cond_code (reg_addc i960_zero 0x5B000100 0x80000000 0x80000000 4) = 1 /\
  i32 0x80000000 - i32 0x80000000 = 0.
Proof. vm_compute. repeat split; reflexivity. Qed.



(** ** What the REG format leaves alone *)

Create HintDb frame_db.

Section Frame.

Variable m : bool.
Variable o0 : i960.

Lemma frame_refl : frame m o0 o0.
Proof. split; [|split]; reflexivity. Qed.

Section Step.
Variable o : i960.
Hypothesis H : frame m o0 o.

Lemma frame_set_r c v : frame m o0 (set_r o c v).
Proof.
  destruct H as (H1 & H2 & H3). split; [exact H1|]. split; [|exact H3].
  rewrite length_set_r. exact H2.
Qed.
Lemma frame_set_ac v : frame m o0 (set_ac o v).
Proof. exact H. Qed.
Lemma frame_set_pc v : frame m o0 (set_pc o v).
Proof. exact H. Qed.
Lemma frame_set_tc v : frame m o0 (set_tc o v).
Proof. exact H. Qed.
Lemma frame_i960_fault t : frame m o0 (i960_fault o t).
Proof. exact H. Qed.
Lemma frame_i960_set_cond cc : frame m o0 (i960_set_cond o cc).
Proof. exact H. Qed.
Lemma frame_i960_on_overflow : frame m o0 (i960_on_overflow o).
Proof. unfold i960_on_overflow. destruct (truthy _); exact H. Qed.
End Step.

Lemma frame_i960_write_w o addr v :
  frame false o0 o -> m = false -> frame m o0 (i960_write_w o addr v).
Proof.
  intros (H1 & H2 & _) ->. split; [exact H1|]. split; [exact H2|].
  discriminate.
Qed.

End Frame.

#[local] Hint Resolve frame_refl frame_set_r frame_set_ac frame_set_pc
  frame_set_tc frame_i960_fault frame_i960_set_cond
  frame_i960_on_overflow : frame_db.

Ltac frame_crush :=
  unfold i960_fpu;
  unfold i960_cmp, i960_concmp, i960_on_undef, i960_div_check,
    i960_check_em,
    i960_read_lock, i960_write_unlock, i960_lock, i960_unlock;
  repeat first
    [ progress cbv zeta
    | progress cbn [fst snd]
    | match goal with
      | |- context [if ?b then _ else _] => destruct b eqn:?
      | |- context [match ?x with _ => _ end] => destruct x eqn:?
      end ];
  auto 12 with frame_db.

Section FrameReg.

Variables (m : bool) (o : i960) (op a b c : Z).

Lemma reg_log_frame : frame m o (reg_log o op a b c).
Proof.
  unfold reg_log, reg_notbit, reg_and, reg_andnot, reg_setbit, reg_notand,
    reg_xor, reg_or, reg_nor, reg_xnor, reg_not, reg_ornot, reg_clrbit,
    reg_notor, reg_nand, reg_alterbit.
  frame_crush.
Qed.

Lemma reg_add_frame (o1 : i960) (op1 a1 b1 : Z) :
  frame m o o1 -> frame m o (reg_add o1 op1 a1 b1 c).
Proof. intros H. unfold reg_add. frame_crush. Qed.

Lemma reg_59_frame : frame m o (reg_59 o op a b c).
Proof.
  unfold reg_59, reg_shift, reg_addx, reg_cmpe, reg_shro, reg_shrdi,
    reg_shri, reg_shlo, reg_rotate, reg_shli.
  frame_crush; apply reg_add_frame; auto with frame_db.
Qed.

Lemma reg_5A_frame : frame m o (reg_5A o op a b c).
Proof.
  unfold reg_5A, reg_misc, reg_cmp, reg_chkbit, reg_bswap, reg_scanbyte.
  frame_crush; apply reg_add_frame; frame_crush.
Qed.

Lemma reg_move_from_frame (k src : Z) :
  frame m o (reg_move_from k o a c src).
Proof.
  unfold reg_move_from. cbv zeta.
  destruct (3 <=? k), (2 <=? k), (1 <=? k); auto 8 with frame_db.
Qed.

Lemma reg_5C_frame : frame m o (reg_5C o op a b c).
Proof.
  unfold reg_5C, reg_move, reg_eshro. cbv zeta.
  repeat case_match; auto using reg_move_from_frame with frame_db.
Qed.

Lemma reg_addc_frame : frame m o (reg_addc o op a b c).
Proof.
  unfold reg_addc. cbv zeta.
  destruct (if truthy (u32_bit_select op (7 + 1)) then _ else _)
    as [res co].
  auto with frame_db.
Qed.

Lemma reg_5B_frame :
  m = false \/ truthy (u32_bit_select op (7 + 2)) = false ->
  frame m o (reg_5B o op a b c).
Proof.
  intros Hm. unfold reg_5B. cbv zeta.
  destruct (truthy (u32_bit_select op (7 + 2))) eqn:HF2; cbn [negb];
    [|apply reg_addc_frame].
  destruct Hm as [-> | Hm]; [|discriminate Hm].
  unfold reg_inten, reg_intdis.
  frame_crush; apply frame_i960_write_w; auto with frame_db.
Qed.

Lemma reg_core_frame :
  m = false \/ u32_extract op (24 + 0) 3 <> 3 ->
  frame m o (reg_core o op a b c).
Proof.
  intros Hm. unfold reg_core.
  repeat case_match;
    auto using frame_refl, reg_log_frame, reg_59_frame, reg_5A_frame,
      reg_5C_frame.
  apply reg_5B_frame. destruct Hm as [Hm | Hm]; [left; exact Hm|].
  exfalso. apply Hm. reflexivity.
Qed.

Lemma reg_atomic_frame : frame false o (reg_atomic o op a b c).
Proof.
  unfold reg_atomic.
  frame_crush; apply frame_set_r, frame_i960_write_w; auto with frame_db.
Qed.

Lemma reg_64_frame : frame m o (reg_64 o op a b c).
Proof. unfold reg_64, reg_modac, reg_scanbit. frame_crush. Qed.

Lemma reg_65_frame : frame m o (reg_65 o op a b c).
Proof.
  unfold reg_65, reg_modpc, reg_modtc, reg_extract, reg_modify.
  frame_crush.
Qed.

Lemma reg_67_frame : frame m o (reg_67 o op a b c).
Proof. unfold reg_67, reg_ediv, reg_emul. frame_crush. Qed.

(** Block 0x66 ([calls] and the no-ops next to it) is left out: what the
    supervisor call dispatch does is the host's. *)
Lemma reg_supp_frame :
  u32_extract op (24 + 0) 3 <> 6 ->
  m = false \/
  (u32_extract op (24 + 0) 3 <> 1 /\ u32_extract op (24 + 0) 3 <> 3) ->
  frame m o (reg_supp o op a b c).
Proof.
  intros Hb6 Hm. unfold reg_supp.
  repeat case_match;
    auto using frame_refl, reg_64_frame, reg_65_frame, reg_67_frame;
    try (unfold reg_synmov; frame_crush; fail);
    try (exfalso; apply Hb6; reflexivity);
    (destruct Hm as [-> | [Hb1 Hb3]];
      [apply reg_atomic_frame
      |exfalso; first [apply Hb1; reflexivity|apply Hb3; reflexivity]]).
Qed.

Lemma reg_supp_no_op :
  u32_extract op (24 + 0) 3 = 6 ->
  truthy (u32_bit_select op (7 + 3)) = true ->
  reg_supp o op a b c = o.
Proof.
  intros Hb HF3. unfold reg_supp. rewrite Hb. unfold reg_66. cbv zeta.
  rewrite HF3. reflexivity.
Qed.

Lemma reg_muldiv_frame : frame m o (reg_muldiv o op a b c).
Proof.
  unfold reg_muldiv, reg_74, reg_70, reg_muli, reg_divi, reg_remi,
    reg_divo, reg_mulo.
  frame_crush.
Qed.

Lemma reg_cond_frame : frame m o (reg_cond o op a b c).
Proof.
  unfold reg_cond, reg_selcc, reg_addcc.
  frame_crush; apply reg_add_frame; auto with frame_db.
Qed.

End FrameReg.



(** ** What loads and stores leave alone *)

Lemma r_i960_on_overflow (o : i960) : r (i960_on_overflow o) = r o.
Proof. unfold i960_on_overflow. destruct (truthy _); reflexivity. Qed.

Lemma ip_i960_on_overflow (o : i960) : ip (i960_on_overflow o) = ip o.
Proof. unfold i960_on_overflow. destruct (truthy _); reflexivity. Qed.

(** X26 ([mem_op], [mem_load], [mem_store] and the loaders and storers
    below them).  A load writes registers only: memory, the instruction
    pointer, the arithmetic controls and the fault record are as before,
    and so is the number of registers.  A store writes no register and
    does not move the instruction pointer; the ordinal stores leave the
    arithmetic controls and the fault record alone as well. *)
Theorem load_store_footprint (o : i960) (op efa c : Z) :
  let C1 := truthy (u32_bit_select op (24 + 1)) in
  let C2 := truthy (u32_bit_select op (24 + 2)) in
  let C6 := truthy (u32_bit_select op (24 + 6)) in
  let o' := mem_op o op efa c in
  (C2 = false -> C1 = false ->
     mem o' = mem o /\ ip o' = ip o /\ ac o' = ac o /\
     faults o' = faults o /\ length (r o') = length (r o)) /\
  (C2 = false -> C1 = true -> r o' = r o /\ ip o' = ip o) /\
  (C2 = false -> C1 = true -> C6 = false ->
     ac o' = ac o /\ faults o' = faults o).
Proof.
  cbv zeta. unfold mem_op. cbv zeta.
  split; [|split].
  - intros -> ->. unfold mem_load, mem_ldb, mem_lds, mem_ld, mem_ldl,
      mem_ldt, mem_ldq. cbv zeta.
    repeat case_match;
      (split; [reflexivity|]; split; [reflexivity|];
       split; [reflexivity|]; split; [reflexivity|]);
      cbn [r set_r]; rewrite ?length_insert; reflexivity.
  - intros -> ->. unfold mem_store, mem_stb, mem_sts, mem_st, mem_stl,
      mem_stt, mem_stq. cbv zeta.
    repeat case_match;
      rewrite ?r_i960_on_overflow, ?ip_i960_on_overflow;
      split; reflexivity.
  - intros -> -> H6. unfold mem_store, mem_stb, mem_sts, mem_st, mem_stl,
      mem_stt, mem_stq. cbv zeta. rewrite H6. cbn [andb].
    repeat case_match; split; reflexivity.
Qed.

Lemma load_store_footprint_witness :
  (truthy (u32_bit_select 0x90000000 (24 + 2)) = false /\
   truthy (u32_bit_select 0x90000000 (24 + 1)) = false) /\
  mem (mem_op i960_zero 0x90000000 0x100 4) = mem i960_zero.
Proof.
  split; [split; reflexivity|].
  destruct (load_store_footprint i960_zero 0x90000000 0x100 4)
    as (H & _).
  destruct (H eq_refl eq_refl) as (Hm & _). exact Hm.
Defined.

(** ** Well-formed states *)

Create HintDb wf_db.

Lemma is_u32_get_r (o : i960) (c : Z) : wf o -> is_u32 (get_r o c).
Proof.
  intros (_ & Hr & _). unfold get_r.
  destruct (nth_in_or_default (Z.to_nat c) (r o) 0) as [Hin | ->].
  - rewrite Forall_forall in Hr. apply Hr.
    apply list_elem_of_In, Hin.
  - unfold is_u32. lia.
Qed.

Lemma is_u32_const (x : Z) : (0 <=? x) && (x <? 2^32) = true -> is_u32 x.
Proof. unfold is_u32. lia. Qed.

Lemma is_u32_b2z (b : bool) : is_u32 (Z.b2z b).
Proof. destruct b; unfold is_u32; simpl; lia. Qed.

Lemma is_u32_shiftr_word (x n : Z) :
  is_u32 x -> is_u32 n -> is_u32 (Z.shiftr x n).
Proof. intros Hx Hn. apply is_u32_shiftr; [exact Hx|apply Hn]. Qed.

Lemma is_u32_div (x y : Z) : is_u32 x -> is_u32 y -> is_u32 (x / y).
Proof.
  unfold is_u32. intros Hx Hy. destruct (Z.eq_dec y 0) as [->|N].
  - rewrite Z.div_0_r. lia.
  - split; [apply Z.div_pos; lia|].
    apply Z.le_lt_trans with x; [|lia].
    apply Z.div_le_upper_bound; nia.
Qed.

Lemma is_u32_mod (x y : Z) : is_u32 x -> is_u32 y -> is_u32 (x mod y).
Proof.
  unfold is_u32. intros Hx Hy. destruct (Z.eq_dec y 0) as [->|N].
  - rewrite Z.mod_0_r. lia.
  - pose proof (Z.mod_pos_bound x y ltac:(lia)). lia.
Qed.

Lemma is_u32_log2 (x : Z) : is_u32 x -> is_u32 (Z.log2 x).
Proof.
  unfold is_u32. intros Hx. split; [apply Z.log2_nonneg|].
  destruct (Z.eq_dec x 0) as [->|N]; [simpl; lia|].
  pose proof (Z.log2_lt_lin x ltac:(lia)). lia.
Qed.

Lemma is_u32_bit_select (x pos : Z) : is_u32 (u32_bit_select x pos).
Proof.
  unfold u32_bit_select. apply is_u32_land_r. unfold is_u32. lia.
Qed.

Lemma is_u32_extract (x pos count : Z) : is_u32 (u32_extract x pos count).
Proof. unfold u32_extract. apply is_u32_land_r, is_u32_u32_not. Qed.

Lemma is_u32_setbit (x pos : Z) : is_u32 x -> is_u32 (u32_setbit x pos).
Proof. intros H. apply is_u32_lor; [exact H|apply is_u32_bit_mask]. Qed.

Lemma is_u32_clrbit (x pos : Z) : is_u32 x -> is_u32 (u32_clrbit x pos).
Proof. intros H. apply is_u32_land_l, H. Qed.

Lemma is_u32_notbit (x pos : Z) : is_u32 x -> is_u32 (u32_notbit x pos).
Proof. intros H. apply is_u32_lxor; [exact H|apply is_u32_bit_mask]. Qed.

Lemma is_u32_u32_shl (x n : Z) : is_u32 (u32_shl x n).
Proof. apply is_u32_u32. Qed.

Lemma is_u32_i32_sar (x n : Z) : is_u32 (i32_sar x n).
Proof. apply is_u32_u32. Qed.

Lemma is_u32_bswap_word (x : Z) : is_u32 x -> is_u32 (bswap_32 x).
Proof. intros H. apply is_u32_bswap_32, H. Qed.

Lemma is_u32_modify_l (old new mask : Z) :
  is_u32 old -> is_u32 new -> is_u32 (u32_modify old new mask).
Proof.
  intros Ho Hn. unfold u32_modify.
  apply is_u32_lor; apply is_u32_land_l; assumption.
Qed.

Lemma is_u32_read_b (o : i960) (addr : Z) :
  wf o -> is_u32 (i960_read_b o addr).
Proof.
  intros (_ & _ & _ & _ & _ & _ & Hm). unfold i960_read_b, is_u32.
  pose proof (mem_byte_range _ addr Hm). lia.
Qed.

Lemma is_u32_read_s (o : i960) (addr : Z) :
  wf o -> is_u32 (i960_read_s o addr).
Proof.
  intros (_ & _ & _ & _ & _ & _ & Hm). unfold i960_read_s.
  pose proof (mem_byte_range _ addr Hm).
  pose proof (mem_byte_range _ (addr + 1) Hm).
  apply is_u32_lor; [unfold is_u32; lia|].
  apply is_u32_shiftl_byte; lia.
Qed.

Lemma is_u32_read_w_wf (o : i960) (addr : Z) :
  wf o -> is_u32 (i960_read_w o addr).
Proof. intros (_ & _ & _ & _ & _ & _ & Hm). apply is_u32_read_w, Hm. Qed.

Lemma is_u32_ip (o : i960) : wf o -> is_u32 (ip o).
Proof. intros (_ & _ & H & _). exact H. Qed.

Lemma is_u32_ac (o : i960) : wf o -> is_u32 (ac o).
Proof. intros (_ & _ & _ & H & _). exact H. Qed.

Lemma is_u32_pc (o : i960) : wf o -> is_u32 (pc o).
Proof. intros (_ & _ & _ & _ & H & _). exact H. Qed.

Lemma is_u32_tc (o : i960) : wf o -> is_u32 (tc o).
Proof. intros (_ & _ & _ & _ & _ & H & _). exact H. Qed.

Section WfStep.

Variable o : i960.
Hypothesis H : wf o.

Lemma wf_set_r c v : is_u32 v -> wf (set_r o c v).
Proof.
  intros Hv. destruct H as (H1 & H2 & H3).
  split; [|split; [|exact H3]].
  - rewrite length_set_r. exact H1.
  - unfold set_r. cbn [r]. apply Forall_insert; assumption.
Qed.

Lemma wf_set_ip v : is_u32 v -> wf (set_ip o v).
Proof.
  intros Hv. destruct H as (H1 & H2 & H3 & H4).
  split; [exact H1|]. split; [exact H2|]. split; [exact Hv|exact H4].
Qed.

Lemma wf_set_ac v : is_u32 v -> wf (set_ac o v).
Proof.
  intros Hv. destruct H as (H1 & H2 & H3 & H4 & H5).
  split; [exact H1|]. split; [exact H2|]. split; [exact H3|].
  split; [exact Hv|exact H5].
Qed.

Lemma wf_set_pc v : is_u32 v -> wf (set_pc o v).
Proof.
  intros Hv. destruct H as (H1 & H2 & H3 & H4 & H5 & H6).
  split; [exact H1|]. split; [exact H2|]. split; [exact H3|].
  split; [exact H4|]. split; [exact Hv|exact H6].
Qed.

Lemma wf_set_tc v : is_u32 v -> wf (set_tc o v).
Proof.
  intros Hv. destruct H as (H1 & H2 & H3 & H4 & H5 & H6 & H7).
  split; [exact H1|]. split; [exact H2|]. split; [exact H3|].
  split; [exact H4|]. split; [exact H5|]. split; [exact Hv|exact H7].
Qed.

Lemma wf_set_mem m : mem_ok m -> wf (set_mem o m).
Proof.
  intros Hm. destruct H as (H1 & H2 & H3 & H4 & H5 & H6 & H7).
  split; [exact H1|]. split; [exact H2|]. split; [exact H3|].
  split; [exact H4|]. split; [exact H5|]. split; [exact H6|exact Hm].
Qed.

Lemma wf_i960_fault t : wf (i960_fault o t).
Proof. exact H. Qed.

Lemma wf_i960_calls t : wf (i960_calls o t).
Proof. exact H. Qed.

Lemma wf_i960_write_b addr v : wf (i960_write_b o addr v).
Proof.
  apply wf_set_mem, mem_ok_put_byte.
  destruct H as (_ & _ & _ & _ & _ & _ & Hm). exact Hm.
Qed.

Lemma wf_i960_write_s addr v : wf (i960_write_s o addr v).
Proof.
  apply wf_set_mem. repeat apply mem_ok_put_byte.
  destruct H as (_ & _ & _ & _ & _ & _ & Hm). exact Hm.
Qed.

Lemma wf_i960_write_w addr v : wf (i960_write_w o addr v).
Proof.
  apply wf_set_mem. repeat apply mem_ok_put_byte.
  destruct H as (_ & _ & _ & _ & _ & _ & Hm). exact Hm.
Qed.

Lemma wf_i960_set_cond cc : 0 <= cc <= 7 -> wf (i960_set_cond o cc).
Proof.
  intros Hcc. apply wf_set_ac. apply is_u32_lor.
  - apply is_u32_land_l, is_u32_ac, H.
  - unfold is_u32. lia.
Qed.

Lemma wf_i960_on_overflow : wf (i960_on_overflow o).
Proof.
  unfold i960_on_overflow. destruct (truthy _); [|exact H].
  apply wf_set_ac, is_u32_lor; [apply is_u32_ac, H|apply is_u32_bit_mask].
Qed.

End WfStep.

Lemma wf_i960_stx_loop (n : nat) (efa c : Z) :
  forall i o, wf o -> wf (i960_stx_loop n i o efa c).
Proof.
  induction n as [|n IH]; intros i o H; [exact H|].
  cbn [i960_stx_loop]. apply IH, wf_i960_write_w, H.
Qed.

Lemma wf_i960_ldx_loop (n : nat) (efa c : Z) :
  forall i o, wf o -> wf (i960_ldx_loop n i o efa c).
Proof.
  induction n as [|n IH]; intros i o H; [exact H|].
  cbn [i960_ldx_loop].
  apply IH, wf_set_r; [exact H|apply is_u32_read_w_wf, H].
Qed.

Lemma wf_i960_call (o : i960) (efa : Z) :
  wf o -> is_u32 efa -> wf (i960_call o efa).
Proof.
  intros H He. unfold i960_call, i960_b, i960_stx. cbv zeta.
  apply wf_set_ip; [|exact He].
  apply wf_set_r; [|apply is_u32_u32].
  apply wf_set_r; [|apply is_u32_land_l, is_u32_u32].
  assert (W : wf (i960_stx_loop 16 0 (set_r o I960_RIP (ip o))
                    (get_r (set_r o I960_RIP (ip o)) I960_FP) 16)).
  { apply wf_i960_stx_loop, wf_set_r; [exact H|apply is_u32_ip, H]. }
  apply wf_set_r; [exact W|apply is_u32_get_r, W].
Qed.

Lemma wf_i960_ret (o : i960) : wf o -> wf (i960_ret o).
Proof.
  intros H. unfold i960_ret, i960_b, i960_ldx. cbv zeta.
  assert (W : wf (i960_ldx_loop 16 0
                    (set_r o I960_FP
                       (Z.land (get_r o I960_PFP) (u32_not 63)))
                    (get_r (set_r o I960_FP
                              (Z.land (get_r o I960_PFP) (u32_not 63)))
                       I960_FP) 16)).
  { apply wf_i960_ldx_loop, wf_set_r; [exact H|].
    apply is_u32_land_l, is_u32_get_r, H. }
  apply wf_set_ip; [exact W|apply is_u32_get_r, W].
Qed.

#[local] Hint Resolve wf_set_r wf_set_ip wf_set_ac wf_set_pc wf_set_tc
  wf_i960_fault wf_i960_calls wf_i960_write_b wf_i960_write_s
  wf_i960_write_w wf_i960_set_cond wf_i960_on_overflow
  wf_i960_call wf_i960_ret : wf_db.
#[local] Hint Resolve is_u32_get_r is_u32_u32 is_u32_u32_not is_u32_b2z
  is_u32_land_l is_u32_land_r is_u32_lor is_u32_lxor is_u32_shiftr_word
  is_u32_div is_u32_mod is_u32_log2 is_u32_bit_select is_u32_extract
  is_u32_bit_mask is_u32_setbit is_u32_clrbit is_u32_notbit
  is_u32_u32_shl is_u32_i32_sar is_u32_bswap_word is_u32_modify_l
  is_u32_u32_modify is_u32_read_b is_u32_read_s is_u32_read_w_wf
  is_u32_ip is_u32_ac is_u32_pc is_u32_tc : wf_db.
#[local] Hint Extern 1 (_ <= _ <= _) => lia : wf_db.
#[local] Hint Extern 2 (is_u32 _) =>
  (apply is_u32_const; reflexivity) : wf_db.

Ltac wf_crush :=
  unfold i960_fpu;
  unfold i960_cmp, i960_concmp, i960_on_undef, i960_div_check,
    i960_check_em, i960_b, i960_bal, i960_bcc, i960_faultcc,
    i960_read_lock, i960_write_unlock, i960_lock, i960_unlock;
  repeat first
    [ progress cbv beta iota zeta
    | match goal with
      | |- context [if ?b then _ else _] => destruct b eqn:?
      | |- context [match ?x with _ => _ end] => destruct x eqn:?
      end ];
  auto 14 with wf_db.

Section WfReg.

Variables (o : i960) (op a b c : Z).
Hypothesis Ho : wf o.
Hypothesis Ha : is_u32 a.
Hypothesis Hb : is_u32 b.

Lemma reg_log_wf : wf (reg_log o op a b c).
Proof.
  unfold reg_log, reg_notbit, reg_and, reg_andnot, reg_setbit, reg_notand,
    reg_xor, reg_or, reg_nor, reg_xnor, reg_not, reg_ornot, reg_clrbit,
    reg_notor, reg_nand, reg_alterbit.
  wf_crush.
Qed.

Lemma reg_add_wf (o1 : i960) (op1 a1 b1 : Z) :
  wf o1 -> wf (reg_add o1 op1 a1 b1 c).
Proof. intros H. unfold reg_add. wf_crush. Qed.

Lemma reg_59_wf : wf (reg_59 o op a b c).
Proof.
  unfold reg_59, reg_shift, reg_addx, reg_cmpe, reg_shro, reg_shrdi,
    reg_shri, reg_shlo, reg_rotate, reg_shli.
  wf_crush; apply reg_add_wf; auto with wf_db.
Qed.

Lemma reg_5A_wf : wf (reg_5A o op a b c).
Proof.
  unfold reg_5A, reg_misc, reg_cmp, reg_chkbit, reg_bswap, reg_scanbyte.
  wf_crush; apply reg_add_wf; wf_crush.
Qed.

Lemma reg_move_from_wf (k src : Z) : wf (reg_move_from k o a c src).
Proof.
  unfold reg_move_from. cbv zeta.
  destruct (3 <=? k), (2 <=? k), (1 <=? k); auto 14 with wf_db.
Qed.

Lemma reg_5C_wf : wf (reg_5C o op a b c).
Proof.
  unfold reg_5C, reg_move, reg_eshro. cbv zeta.
  repeat case_match; auto using reg_move_from_wf with wf_db.
Qed.

Lemma reg_addc_wf : wf (reg_addc o op a b c).
Proof.
  unfold reg_addc. cbv zeta.
  set (cin := Z.b2z (truthy (Z.land (ac o) 2))).
  assert (Hcin : 0 <= cin <= 1)
    by (unfold cin; destruct (truthy _); simpl; lia).
  destruct (u32_adc_exact a b cin Ha Hb Hcin) as (A1 & A2 & _).
  destruct (u32_sbb_exact a b cin Ha Hb Hcin) as (S1 & S2 & _).
  destruct (truthy (u32_bit_select op (7 + 1))).
  - destruct (u32_sbb a b cin) as [res co]. cbn [fst snd] in *.
    apply wf_i960_set_cond; [apply wf_set_r; assumption|].
    assert (co = 0 \/ co = 1) as [-> | ->] by lia;
      destruct (i32_check_overflow _ _ _); vm_compute;
      split; discriminate.
  - destruct (u32_adc a b cin) as [res co]. cbn [fst snd] in *.
    apply wf_i960_set_cond; [apply wf_set_r; assumption|].
    assert (co = 0 \/ co = 1) as [-> | ->] by lia;
      destruct (i32_check_overflow _ _ _); vm_compute;
      split; discriminate.
Qed.

Lemma reg_5B_wf : wf (reg_5B o op a b c).
Proof.
  unfold reg_5B. cbv zeta.
  destruct (truthy (u32_bit_select op (7 + 2))); cbn [negb];
    [|apply reg_addc_wf].
  unfold reg_inten, reg_intdis. wf_crush.
Qed.

Lemma reg_core_wf : wf (reg_core o op a b c).
Proof.
  unfold reg_core.
  repeat case_match;
    auto using reg_log_wf, reg_59_wf, reg_5A_wf, reg_5B_wf, reg_5C_wf.
Qed.

Lemma reg_supp_wf : wf (reg_supp o op a b c).
Proof.
  unfold reg_supp, reg_synmov, reg_atomic, reg_64, reg_modac, reg_scanbit,
    reg_65, reg_modpc, reg_modtc, reg_extract, reg_modify, reg_66,
    reg_67, reg_ediv, reg_emul.
  wf_crush.
Qed.

Lemma reg_fpu_wf : wf (reg_fpu o op a b c).
Proof. unfold reg_fpu. wf_crush. Qed.

Lemma reg_muldiv_wf : wf (reg_muldiv o op a b c).
Proof.
  unfold reg_muldiv, reg_74, reg_70, reg_muli, reg_divi, reg_remi,
    reg_divo, reg_mulo.
  wf_crush.
Qed.

Lemma reg_cond_wf : wf (reg_cond o op a b c).
Proof.
  unfold reg_cond, reg_selcc, reg_addcc.
  wf_crush; apply reg_add_wf; auto with wf_db.
Qed.

Lemma mem_op_wf : wf (mem_op o op a c).
Proof.
  unfold mem_op, mem_funcs, mem_load, mem_store, mem_ldb, mem_lds, mem_ld,
    mem_ldl, mem_ldt, mem_ldq, mem_stb, mem_sts, mem_st, mem_stl, mem_stt,
    mem_stq.
  wf_crush.
Qed.

Lemma i960_ctrl_wf : wf (i960_ctrl o op a).
Proof. unfold i960_ctrl, ctrl_op. wf_crush. Qed.

Lemma i960_cobr_wf : wf (i960_cobr o op a).
Proof.
  unfold i960_cobr, cobr_op, cobr_testcc, cobr_bb, cobr_cmpbcc. wf_crush.
Qed.

End WfReg.

Lemma exec_wf (o : i960) (i : instr) :
  wf o -> word_operands i -> wf (exec o i).
Proof.
  intros Ho Hi. destruct i as [op a b c|op a b c|op a b c|op a b c
                              |op a b c|op efa c|op ip0|op ip0];
    cbn [exec word_operands] in *.
  - destruct Hi. apply reg_core_wf; assumption.
  - destruct Hi. apply reg_supp_wf; assumption.
  - apply reg_fpu_wf; assumption.
  - destruct Hi. apply reg_muldiv_wf; assumption.
  - destruct Hi. apply reg_cond_wf; assumption.
  - apply mem_op_wf; assumption.
  - apply i960_ctrl_wf; assumption.
  - apply i960_cobr_wf; assumption.
Qed.

Lemma wf_i960_zero : wf i960_zero.
Proof.
  split; [reflexivity|]. split.
  - apply Forall_forall. intros x Hx.
    apply elem_of_replicate in Hx as [-> _]. unfold is_u32. lia.
  - repeat (split; [unfold is_u32; simpl; lia|]).
    intros k v E. discriminate E.
Qed.

(** X27 ([reg_core], [reg_supp], [reg_fpu], [reg_muldiv], [reg_cond],
    [mem_op], [i960_ctrl], [i960_cobr] and every operation below them).
    The machine state stays within its C types: started with 32
    registers, every register and control word a 32-bit word and every
    memory cell a byte, and given word operands, no sequence of
    instructions produces a value outside these ranges or changes the
    number of registers. *)
Theorem run_preserves_wf (p : list instr) (o : i960) :
  wf o -> Forall word_operands p -> wf (run o p).
Proof.
  revert o. induction p as [|i p IH]; intros o Ho Hp; [exact Ho|].
  inversion Hp as [|? ? Hi Hp']; subst.
  unfold run. cbn [fold_left]. apply IH; [|exact Hp'].
  apply exec_wf; assumption.
Qed.

Lemma run_preserves_wf_witness :
  let p := [REG_core 0x59000000 0xFFFFFFFF 1 4; MEM 0x92000000 0x100 4;
            CTRL 0x09000040 0x2000; COBR 0x32000000 0x2000] in
  (wf i960_zero /\ Forall word_operands p) /\ wf (run i960_zero p).
Proof.
  cbv zeta.
  assert (Hp : Forall word_operands
            [REG_core 0x59000000 0xFFFFFFFF 1 4; MEM 0x92000000 0x100 4;
             CTRL 0x09000040 0x2000; COBR 0x32000000 0x2000]).
  { repeat constructor; unfold is_u32; lia. }
  split; [split; [exact wf_i960_zero|exact Hp]|].
  apply (run_preserves_wf _ _ wf_i960_zero Hp).
Defined.

(** ** Multi-word stores and loads *)

Lemma lor_aligned (c k : Z) :
  c mod 4 = 0 -> 0 <= k < 4 -> Z.lor c k = c + k.
Proof.
  intros Hc Hk. pose proof (Z.add_lor_land c k) as E.
  assert (L : Z.land c k = 0).
  { apply Z.bits_inj'. intros n Hn. rewrite Z.land_spec, Z.bits_0.
    destruct (Z.lt_ge_cases n 2).
    - assert (B : Z.testbit c n = false).
      { rewrite <- (Z.mod_pow2_bits_low c 2 n) by lia.
        change (2^2) with 4. rewrite Hc. apply Z.bits_0. }
      rewrite B. reflexivity.
    - rewrite (testbit_small k 2 n) by lia. apply andb_false_r. }
  lia.
Qed.

Lemma u32_apart_words (efa i j : Z) :
  4 <= (i - j) mod 2^32 <= 2^32 - 4 ->
  4 <= (u32 (efa + i) - u32 (efa + j)) mod 2^32 <= 2^32 - 4.
Proof.
  intros H. unfold u32.
  rewrite Zminus_mod_idemp_l, Zminus_mod_idemp_r.
  replace (efa + i - (efa + j)) with (i - j) by lia. exact H.
Qed.

(** What [stq] leaves in memory, word by word. *)
Lemma mem_stq_words (o : i960) (op efa c k : Z) :
  (forall j, 0 <= j < 4 -> is_u32 (get_r o (Z.lor c j))) ->
  0 <= k < 4 ->
  i960_read_w (mem_stq o op efa c) (u32 (efa + 4 * k))
  = get_r o (Z.lor c k).
Proof.
  intros Hw Hk. unfold mem_stq. cbv zeta.
  rewrite !get_r_write_w.
  assert (k = 0 \/ k = 1 \/ k = 2 \/ k = 3) as [-> | [-> | [-> | ->]]]
    by lia; cbn [Z.mul Pos.mul].
  - rewrite !i960_read_w_write_w_far
      by (apply u32_apart_words; vm_compute; split; discriminate).
    apply i960_read_w_write_w, Hw. lia.
  - rewrite !i960_read_w_write_w_far
      by (apply u32_apart_words; vm_compute; split; discriminate).
    apply i960_read_w_write_w, Hw. lia.
  - rewrite !i960_read_w_write_w_far
      by (apply u32_apart_words; vm_compute; split; discriminate).
    apply i960_read_w_write_w, Hw. lia.
  - apply i960_read_w_write_w, Hw. lia.
Qed.

(** What [ldq] leaves in an aligned group of registers. *)
Lemma mem_ldq_words (o : i960) (op efa c k : Z) :
  length (r o) = 32%nat -> 0 <= c <= 28 -> c mod 4 = 0 -> 0 <= k < 4 ->
  get_r (mem_ldq o op efa c) (c + k)
  = i960_read_w o (u32 (efa + 4 * k)).
Proof.
  intros Hlen Hc Ha Hk. unfold mem_ldq. cbv zeta.
  rewrite !(lor_aligned c) by (assumption || lia).
  assert (L : forall q j v, length (r q) = 32%nat -> 0 <= j < 4 ->
            get_r (set_r q (c + j) v) (c + j) = v).
  { intros q j v Hq Hj. apply get_set_r_same. rewrite Hq. lia. }
  assert (k = 0 \/ k = 1 \/ k = 2 \/ k = 3) as [-> | [-> | [-> | ->]]]
    by lia; cbn [Z.mul Pos.mul].
  - rewrite !get_set_r_other by lia. apply L; [exact Hlen|lia].
  - rewrite !get_set_r_other by lia.
    rewrite L by (rewrite ?length_set_r; assumption || lia).
    apply i960_read_w_mem. reflexivity.
  - rewrite !get_set_r_other by lia.
    rewrite L by (rewrite ?length_set_r; assumption || lia).
    apply i960_read_w_mem. reflexivity.
  - rewrite L by (rewrite ?length_set_r; assumption || lia).
    apply i960_read_w_mem. reflexivity.
Qed.

(** X28 ([mem_stq], [mem_ldq]).  Four registers of an aligned group
    stored with [stq] go to four consecutive words, lowest register at
    the lowest address, and [ldq] from the same address brings the four
    words back into an aligned group in the same order. *)
Theorem quad_round_trip (o : i960) (op op' efa c c' : Z) :
  length (r o) = 32%nat ->
  0 <= c -> c mod 4 = 0 -> 0 <= c' <= 28 -> c' mod 4 = 0 ->
  (forall k, 0 <= k < 4 -> is_u32 (get_r o (c + k))) ->
  forall k, 0 <= k < 4 ->
    i960_read_w (mem_stq o op efa c) (u32 (efa + 4 * k)) = get_r o (c + k) /\
    get_r (mem_ldq (mem_stq o op efa c) op' efa c') (c' + k)
    = get_r o (c + k).
Proof.
  intros Hlen Hc Ha Hc' Ha' Hw k Hk.
  assert (Hw' : forall j, 0 <= j < 4 -> is_u32 (get_r o (Z.lor c j))).
  { intros j Hj. rewrite lor_aligned by assumption. apply Hw, Hj. }
  assert (E : i960_read_w (mem_stq o op efa c) (u32 (efa + 4 * k))
              = get_r o (c + k)).
  { rewrite mem_stq_words by assumption.
    rewrite lor_aligned by assumption. reflexivity. }
  split; [exact E|].
  rewrite mem_ldq_words; [exact E| |assumption..].
  unfold mem_stq. cbv zeta. exact Hlen.
Qed.

Lemma quad_round_trip_witness :
  let o := set_r (set_r i960_zero 9 0x1111) 11 0x3333 in
  (length (r o) = 32%nat /\ 0 <= 8 /\ 8 mod 4 = 0 /\ 0 <= 20 <= 28 /\
   20 mod 4 = 0 /\ 0 <= 3 < 4) /\
  get_r (mem_ldq (mem_stq o 0xB2000000 0x400 8) 0xB0000000 0x400 20)
    (20 + 3)
  = get_r o (8 + 3).
Proof.
  cbv zeta. set (o := set_r (set_r i960_zero 9 0x1111) 11 0x3333).
  assert (Hl : length (r o) = 32%nat) by reflexivity.
  assert (Hw : forall k, 0 <= k < 4 -> is_u32 (get_r o (8 + k))).
  { intros k Hk.
    assert (k = 0 \/ k = 1 \/ k = 2 \/ k = 3) as [-> | [-> | [-> | ->]]]
      by lia; vm_compute; split; (discriminate || reflexivity). }
  split; [repeat split; (exact Hl || lia || reflexivity)|].
  apply (quad_round_trip o 0xB2000000 0xB0000000 0x400 8 20 Hl
           ltac:(lia) eq_refl ltac:(lia) eq_refl Hw 3 ltac:(lia)).
Defined.

(** What [stl] and [stt] leave in memory, word by word. *)
Lemma mem_stl_words (o : i960) (op efa c k : Z) :
  (forall j, 0 <= j < 4 -> is_u32 (get_r o (Z.lor c j))) ->
  0 <= k < 2 ->
  i960_read_w (mem_stl o op efa c) (u32 (efa + 4 * k))
  = get_r o (Z.lor c k).
Proof.
  intros Hw Hk. unfold mem_stl. cbv zeta.
  rewrite !get_r_write_w.
  assert (k = 0 \/ k = 1) as [-> | ->] by lia; cbn [Z.mul Pos.mul].
  - rewrite !i960_read_w_write_w_far
      by (apply u32_apart_words; vm_compute; split; discriminate).
    apply i960_read_w_write_w, Hw. lia.
  - apply i960_read_w_write_w, Hw. lia.
Qed.

Lemma mem_stt_words (o : i960) (op efa c k : Z) :
  (forall j, 0 <= j < 4 -> is_u32 (get_r o (Z.lor c j))) ->
  0 <= k < 3 ->
  i960_read_w (mem_stt o op efa c) (u32 (efa + 4 * k))
  = get_r o (Z.lor c k).
Proof.
  intros Hw Hk. unfold mem_stt. cbv zeta.
  rewrite !get_r_write_w.
  assert (k = 0 \/ k = 1 \/ k = 2) as [-> | [-> | ->]] by lia;
    cbn [Z.mul Pos.mul].
  - rewrite !i960_read_w_write_w_far
      by (apply u32_apart_words; vm_compute; split; discriminate).
    apply i960_read_w_write_w, Hw. lia.
  - rewrite !i960_read_w_write_w_far
      by (apply u32_apart_words; vm_compute; split; discriminate).
    apply i960_read_w_write_w, Hw. lia.
  - apply i960_read_w_write_w, Hw. lia.
Qed.

(** The loads write word [i] to [r[c | i]], in ascending order. *)
Lemma mem_load_words (o : i960) (op efa c : Z) :
  let W k := i960_read_w o (u32 (efa + k)) in
  let put i k l := <[Z.to_nat (Z.lor c i) := W k]> l in
  r (mem_ldl o op efa c) = put 1 4 (put 0 0 (r o)) /\
  r (mem_ldt o op efa c) = put 2 8 (put 1 4 (put 0 0 (r o))) /\
  r (mem_ldq o op efa c) = put 3 12 (put 2 8 (put 1 4 (put 0 0 (r o)))).
Proof. cbv zeta. split; [|split]; reflexivity. Qed.

Lemma get_r_lor_other (o : i960) (c src i k v : Z) :
  0 <= c -> 0 <= src -> 0 <= i -> 0 <= k ->
  Z.lor src i <> Z.lor c k ->
  get_r (set_r o (Z.lor c k) v) (Z.lor src i) = get_r o (Z.lor src i).
Proof.
  intros Hc Hs Hi Hk Hne. apply get_set_r_other. intros E.
  apply Z2Nat.inj in E; [congruence| |]; apply Z.lor_nonneg; lia.
Qed.

(** The moves copy [r[src | i]] to [r[c | i]], highest word first, the
    operand [a] going to [r[c | 0]]. *)
Lemma reg_move_from_words (o : i960) (a c src : Z) :
  0 <= c -> 0 <= src ->
  let put i v l := <[Z.to_nat (Z.lor c i) := v]> l in
  let R i := get_r o (Z.lor src i) in
  r (reg_move_from 0 o a c src) = put 0 a (r o) /\
  r (reg_move_from 1 o a c src) = put 0 a (put 1 (R 1) (r o)) /\
  (Z.lor src 1 <> Z.lor c 2 ->
   r (reg_move_from 2 o a c src)
   = put 0 a (put 1 (R 1) (put 2 (R 2) (r o)))) /\
  ((forall i k, 1 <= i < k -> k <= 3 -> Z.lor src i <> Z.lor c k) ->
   r (reg_move_from 3 o a c src)
   = put 0 a (put 1 (R 1) (put 2 (R 2) (put 3 (R 3) (r o))))).
Proof.
  intros Hc Hs. cbv zeta. unfold reg_move_from. cbv zeta.
  split; [reflexivity|]. split; [reflexivity|]. split.
  - intros N. change (3 <=? 2) with false. change (2 <=? 2) with true.
    change (1 <=? 2) with true. cbv iota.
    rewrite get_r_lor_other by (assumption || lia). reflexivity.
  - intros N. change (3 <=? 3) with true. change (2 <=? 3) with true.
    change (1 <=? 3) with true. cbv iota.
    rewrite (get_r_lor_other _ c src 1 2) by (try apply N; lia).
    rewrite (get_r_lor_other _ c src 1 3) by (try apply N; lia).
    rewrite (get_r_lor_other _ c src 2 3) by (try apply N; lia).
    reflexivity.
Qed.

Lemma reg_move_decodes (o : i960) (op a b c : Z) :
  reg_move o op a b c
  = reg_move_from (u32_extract op (24 + 0) 2) o a c (u32_extract op 0 5).
Proof.
  unfold reg_move. cbv zeta.
  assert (H : 0 <= u32_extract op (24 + 0) 2 < 4).
  { unfold u32_extract. rewrite low_mask_ones by lia.
    rewrite Z.land_ones by lia. apply Z.mod_pos_bound. lia. }
  destruct (u32_extract op (24 + 0) 2) as [|[[|[]|]|[|[]|]|]|];
    try reflexivity; lia.
Qed.

(** C10 (multi-word transfers).  The register index of word [i] is
    [c | i].  Hence, for every base index [c]:
    - [ldl] and [movl] leave every register outside the aligned pair of
      [c] as it was; [ldt], [ldq], [movt], [movq] every register outside
      the aligned group of four;
    - [stl] reads registers of the pair only, [stt] and [stq] of the
      group of four only;
    - with an odd [c] the two words of [ldl] land in the same register
      [r[c]], which ends up holding the second word fetched;
    - [ldl], [ldt], [ldq] write the word fetched at [efa + 4 i] to
      [r[c | i]], lowest word first, and nothing else;
    - [stl], [stt], [stq] leave at [efa + 4 i] the word in [r[c | i]];
    - [mov], [movl], [movt], [movq] write the operand to [r[c | 0]] and
      copy [r[src | i]] to [r[c | i]] for the words above, highest word
      first, [src] being the encoded source index. *)
Theorem multiword_index_by_or (o o2 : i960) (op efa a b c j src : Z) :
  0 <= c -> 0 <= j ->
  (forall i, 0 <= i < 2 -> Z.shiftr (Z.lor c i) 1 = Z.shiftr c 1) /\
  (forall i, 0 <= i < 4 -> Z.shiftr (Z.lor c i) 2 = Z.shiftr c 2) /\
  (Z.shiftr j 1 <> Z.shiftr c 1 ->
     get_r (mem_ldl o op efa c) j = get_r o j /\
     get_r (reg_move_from 1 o a c src) j = get_r o j) /\
  (Z.shiftr j 2 <> Z.shiftr c 2 ->
     get_r (mem_ldt o op efa c) j = get_r o j /\
     get_r (mem_ldq o op efa c) j = get_r o j /\
     get_r (reg_move o op a b c) j = get_r o j) /\
  (mem o = mem o2 ->
   (forall k, Z.shiftr k 1 = Z.shiftr c 1 -> get_r o k = get_r o2 k) ->
     mem (mem_stl o op efa c) = mem (mem_stl o2 op efa c)) /\
  (mem o = mem o2 ->
   (forall k, Z.shiftr k 2 = Z.shiftr c 2 -> get_r o k = get_r o2 k) ->
     mem (mem_stt o op efa c) = mem (mem_stt o2 op efa c) /\
     mem (mem_stq o op efa c) = mem (mem_stq o2 op efa c)) /\
  (Z.odd c = true ->
     r (mem_ldl o op efa c) =
       <[Z.to_nat c := i960_read_w o (u32 (efa + 4))]> (r o)) /\
  (let W k := i960_read_w o (u32 (efa + k)) in
   let put i k l := <[Z.to_nat (Z.lor c i) := W k]> l in
   r (mem_ldl o op efa c) = put 1 4 (put 0 0 (r o)) /\
   r (mem_ldt o op efa c) = put 2 8 (put 1 4 (put 0 0 (r o))) /\
   r (mem_ldq o op efa c) = put 3 12 (put 2 8 (put 1 4 (put 0 0 (r o))))) /\
  ((forall i, 0 <= i < 4 -> is_u32 (get_r o (Z.lor c i))) ->
   (forall i, 0 <= i < 2 ->
      i960_read_w (mem_stl o op efa c) (u32 (efa + 4 * i))
      = get_r o (Z.lor c i)) /\
   (forall i, 0 <= i < 3 ->
      i960_read_w (mem_stt o op efa c) (u32 (efa + 4 * i))
      = get_r o (Z.lor c i)) /\
   (forall i, 0 <= i < 4 ->
      i960_read_w (mem_stq o op efa c) (u32 (efa + 4 * i))
      = get_r o (Z.lor c i))) /\
  (0 <= src ->
   let put i v l := <[Z.to_nat (Z.lor c i) := v]> l in
   let R i := get_r o (Z.lor src i) in
   r (reg_move_from 0 o a c src) = put 0 a (r o) /\
   r (reg_move_from 1 o a c src) = put 0 a (put 1 (R 1) (r o)) /\
   (Z.lor src 1 <> Z.lor c 2 ->
    r (reg_move_from 2 o a c src)
    = put 0 a (put 1 (R 1) (put 2 (R 2) (r o)))) /\
   ((forall i k, 1 <= i < k -> k <= 3 -> Z.lor src i <> Z.lor c k) ->
    r (reg_move_from 3 o a c src)
    = put 0 a (put 1 (R 1) (put 2 (R 2) (put 3 (R 3) (r o)))))) /\
  reg_move o op a b c
  = reg_move_from (u32_extract op (24 + 0) 2) o a c (u32_extract op 0 5).
Proof.
  intros Hc Hj.
  split; [intros i Hi; apply lor_in_group; lia|].
  split; [intros i Hi; apply lor_in_group; lia|].
  split; [intros H; split;
          [apply mem_ldl_outside | apply reg_movl_outside]; assumption|].
  split; [intros H; repeat split;
          [apply mem_ldt_outside | apply mem_ldq_outside
          | apply reg_move_outside]; assumption|].
  split; [intros Hm Hg; apply mem_stl_reads_pair; assumption|].
  split; [intros Hm Hg; apply mem_stq_reads_group; assumption|].
  split; [apply mem_ldl_odd|].
  split; [apply mem_load_words|].
  split.
  { intros Hw. split; [|split]; intros i Hi.
    - apply mem_stl_words; assumption.
    - apply mem_stt_words; assumption.
    - apply mem_stq_words; assumption. }
  split; [intros Hs; apply reg_move_from_words; assumption|].
  apply reg_move_decodes.
Qed.

(** [ldl] into r5 from a memory holding 0xAAAA, 0xBBBB at 0x10, 0x14:
    only r5 is written, with the second word; r4 and r6 keep their
    values (an index [c + i] would have written r6).  [stq] of r8..r11
    leaves r10 in the third word; [movq] from r4 to r8 copies r7 to
    r11. *)
Lemma multiword_index_by_or_witness :
  let o := i960_write_w (i960_write_w i960_zero 0x10 0xAAAA) 0x14 0xBBBB in
  let q := set_r (set_r i960_zero 10 0x1234) 7 0x77 in
  (0 <= 5 /\ 0 <= 6 /\ 0 <= 8 /\ 0 <= 4) /\
  get_r (mem_ldl o 0 0x10 5) 6 = get_r o 6 /\
  r (mem_ldl o 0 0x10 5) = <[5%nat := 0xBBBB]> (r o) /\
  i960_read_w (mem_stq q 0 0x40 8) (u32 (0x40 + 4 * 2))
  = get_r q (Z.lor 8 2) /\
  get_r (reg_move_from 3 q 0 8 4) 11 = 0x77.
Proof.
  cbv zeta.
  set (o := i960_write_w (i960_write_w i960_zero 0x10 0xAAAA) 0x14 0xBBBB).
  set (q := set_r (set_r i960_zero 10 0x1234) 7 0x77).
  pose proof (multiword_index_by_or o i960_zero 0 0x10 0 0 5 6 0
                ltac:(lia) ltac:(lia))
    as (_ & _ & H1 & _ & _ & _ & H2 & _).
  pose proof (multiword_index_by_or q i960_zero 0 0x40 0 0 8 6 4
                ltac:(lia) ltac:(lia))
    as (_ & _ & _ & _ & _ & _ & _ & _ & H3 & H4 & _).
  split; [lia|]. split; [|split; [|split]].
  - apply H1. vm_compute. congruence.
  - apply H2. reflexivity.
  - destruct H3 as (_ & _ & H3).
    + intros i Hi.
      assert (i = 0 \/ i = 1 \/ i = 2 \/ i = 3) as [-> | [-> | [-> | ->]]]
        by lia; vm_compute; split; (discriminate || reflexivity).
    + apply H3. lia.
  - destruct (H4 ltac:(lia)) as (_ & _ & _ & H5).
    unfold get_r. rewrite H5; [reflexivity|].
    intros i k Hi Hk.
    assert (i = 1 \/ i = 2) as [-> | ->] by lia;
      (assert (k = 2 \/ k = 3) as [-> | ->] by lia);
      vm_compute; congruence.
Defined.

(** ** Bitwise operations *)

Ltac word_bits :=
  apply u32_ext; [auto 8 with wf_db..|];
  let n := fresh "n" in let Hn := fresh "Hn" in
  intros n Hn;
  repeat first
    [ rewrite testbit_u32_not by exact Hn
    | rewrite Z.land_spec | rewrite Z.lor_spec | rewrite Z.lxor_spec ];
  repeat match goal with
         | |- context [Z.testbit ?x n] => destruct (Z.testbit x n)
         end;
  reflexivity.

(** X29 ([reg_log] and the bitwise operations it selects).  The sixteen
    function codes of block 0x58 are laid out so that complementary
    codes give complementary results: for [and]/[nand], [andnot]/[notor],
    [notand]/[ornot], [xor]/[xnor] and [or]/[nor], the operation under
    code [15 - F] writes the bitwise complement of what the operation
    under code [F] writes. *)
Theorem reg_log_complement (o : i960) (op op' a b c : Z) :
  is_u32 a -> is_u32 b -> length (r o) = 32%nat -> 0 <= c < 32 ->
  In (u32_extract op 7 4) [1; 2; 4; 6; 7; 8; 9; 11; 13; 14] ->
  u32_extract op' 7 4 = 15 - u32_extract op 7 4 ->
  get_r (reg_log o op' a b c) c
  = u32_not (get_r (reg_log o op a b c) c).
Proof.
  intros Ha Hb Hlen Hc HF HF'.
  assert (Hin : (Z.to_nat c < length (r o))%nat) by (rewrite Hlen; lia).
  unfold reg_log. rewrite HF'. cbn [In] in HF.
  unfold reg_and, reg_andnot, reg_notand, reg_xor, reg_or, reg_nor,
    reg_xnor, reg_ornot, reg_notor, reg_nand.
  destruct HF as [<- | [<- | [<- | [<- | [<- | [<- | [<- | [<- | [<- |
    [<- | []]]]]]]]]]];
    match goal with
    | |- context [15 - ?k] =>
        let v := eval vm_compute in (15 - k) in change (15 - k) with v
    end;
    rewrite !get_set_r_same by exact Hin; word_bits.
Qed.

Lemma reg_log_complement_witness :
  (is_u32 0x0F0F1234 /\ is_u32 0x00FF5678 /\
   length (r i960_zero) = 32%nat /\ 0 <= 7 < 32 /\
   In (u32_extract 0x58000300 7 4) [1; 2; 4; 6; 7; 8; 9; 11; 13; 14] /\
   u32_extract 0x58000480 7 4 = 15 - u32_extract 0x58000300 7 4) /\
  get_r (reg_log i960_zero 0x58000480 0x0F0F1234 0x00FF5678 7) 7
  = u32_not (get_r (reg_log i960_zero 0x58000300 0x0F0F1234 0x00FF5678 7) 7).
Proof.
  assert (H1 : is_u32 0x0F0F1234) by (unfold is_u32; lia).
  assert (H2 : is_u32 0x00FF5678) by (unfold is_u32; lia).
  assert (H3 : In (u32_extract 0x58000300 7 4)
                 [1; 2; 4; 6; 7; 8; 9; 11; 13; 14]).
  { vm_compute. tauto. }
  split.
  - split; [exact H1|]. split; [exact H2|]. split; [reflexivity|].
    split; [lia|]. split; [exact H3|reflexivity].
  - apply (reg_log_complement i960_zero 0x58000300 0x58000480
             0x0F0F1234 0x00FF5678 7 H1 H2 eq_refl ltac:(lia) H3 eq_refl).
Defined.
